(** * http-client.js: the signing and calling core of the Binance REST client

    A shallow embedding of [src/http-client.js] and the properties of its
    Query Encoder ([makeQueryString]), Result Unwrapper ([sendResult]),
    Parameter Validator ([checkParams]), the three callers ([publicCall],
    [keyCall], [privateCall]), the order and data-stream wrappers built
    on them, the wrappers that reshape a response ([candles], [book],
    [aggTrades]) and a part of the catalog of operations.

    Modelling conventions.
    - A JavaScript string is its UTF-8 byte sequence (a Rocq [string]),
      a lone surrogate being written as the three bytes of its code
      point.  [encodeURIComponent] escapes the UTF-8 bytes of every
      character that is not unreserved, so on byte sequences it is a
      byte-wise map; it throws on a string that holds a lone surrogate.
    - [String(v)] throws on an object that cannot be converted.  The
      Query Encoder is given twice: with its exceptions
      ([makeQueryString_completion]), and as the string it returns when
      it returns ([makeQueryString]); the callers are modelled on
      payloads that it renders, and build their URL from the latter.
    - A JavaScript number is a double, written as the integer or decimal
      literal that denotes it ([VNum], [VDec]), or [VNaN]; it prints as
      [Number::toString] prints it.
    - A plain object is the list of its own enumerable properties in the
      order [Object.keys] reports them: array-index names first, in
      ascending numeric order, then the other names in insertion order.
      A plain object inherits the properties of [Object.prototype].
    - Payload objects handed to the callers live in a store and are passed
      by reference, so that in-place updates are visible to the caller.
    - The network, the clock and [JSON.parse] are collaborators of the
      module and are section variables; the network and the clock may
      answer according to the history of the run, which is recorded as a
      trace of events.  A promise chain is run to completion; a
      synchronous [throw] and a rejected promise are kept apart.
    - [crypto]'s HMAC-SHA256 is implemented here and checked against
      published digests.
    - [lodash.zipobject] is modelled on arrays of values, where it pairs
      names with values; what it makes of another value is a parameter.

    The definitions come first: values, strings, objects, the digest, the
    store and the calls, then the module itself.  The properties follow,
    those of objects first, then the Query Encoder, the Parameter
    Validator and the callers, then those of the wrappers and of the
    operations of the client; worked examples close the file. *)

From Stdlib Require Import ZArith NArith List String Ascii Bool Lia DecimalString.
From stdpp Require Import base gmap strings list.
Import ListNotations.
Open Scope string_scope.
Open Scope list_scope.

Set Warnings "-register-all".
Set Default Proof Using "Type".

(** ** JavaScript values *)

Inductive value : Type :=
| VUndefined
| VNull
| VBool (b : bool)
| VNum (n : Z)
| VDec (m e : Z)
| VNaN
| VStr (s : string)
| VArr (elts : list value)
| VObj (props : list (string * value))
| VFunction (name : string).

Definition string_of_Z (n : Z) : string := NilZero.string_of_int (Z.to_int n).

(** ** Numbers

    A number is written as a literal: [VNum n] is the integer literal
    [n], [VDec m e] the decimal literal [m * 10 ^ e], and each stands for
    the double nearest to it, as in the language (a tie goes to the even
    mantissa, too large a literal is an infinity and too small a one is
    zero; the two zeros are not told apart, as nothing here does).
    [Number::toString] prints the shortest digits that denote the same
    double. *)

Module Number.

Local Open Scope Z_scope.

(** A number that is not negative: zero, a finite double [mant * 2 ^ exp],
    where [exp] is at least [-1074] and [mant] is below [2 ^ 53] and, when
    [exp] is above [-1074], at least [2 ^ 52]; or infinity. *)
Inductive double : Type :=
| Zero
| Finite (mant exp : Z)
| Infinite.

Definition double_eqb (x y : double) : bool :=
  match x, y with
  | Zero, Zero | Infinite, Infinite => true
  | Finite m e, Finite m' e' => (m =? m') && (e =? e')
  | _, _ => false
  end.

(** [num / den] rounded to the nearest integer, a tie to the even one. *)
Definition round_half_even (num den : Z) : Z :=
  let q := num / den in
  let r := num mod den in
  if 2 * r <? den then q
  else if den <? 2 * r then q + 1
  else if Z.even q then q else q + 1.

(** [p / q * 2 ^ e] as a ratio. *)
Definition times_pow (b : Z) (p q e : Z) : Z * Z :=
  if 0 <=? e then (p * b ^ e, q) else (p, q * b ^ (- e)).

(** The double nearest to [p / q], for [0 <= p] and [0 < q]. *)
Definition of_ratio (p q : Z) : double :=
  if p <=? 0 then Zero
  else
    let l := Z.log2 p - Z.log2 q in
    let '(n0, d0) := times_pow 2 p q (- l) in
    let e0 := if n0 <? d0 then l - 53 else l - 52 in
    let e := Z.max e0 (-1074) in
    let '(n, d) := times_pow 2 p q (- e) in
    let m := round_half_even n d in
    let '(m, e) := if m =? 2 ^ 53 then (2 ^ 52, e + 1) else (m, e) in
    if m =? 0 then Zero
    else if 971 <? e then Infinite
    else Finite m e.

(** The double a decimal literal [m * 10 ^ e] denotes, for [0 <= m]. *)
Definition of_decimal (m e : Z) : double :=
  let '(p, q) := times_pow 10 m 1 e in of_ratio p q.

(** The least [n' >= n] with [p / q < 10 ^ n']. *)
Fixpoint magnitude (fuel : nat) (p q n : Z) : Z :=
  match fuel with
  | O => n
  | S fuel' =>
      let '(a, b) := times_pow 10 p q (- n) in
      if a <? b then n else magnitude fuel' p q (n + 1)
  end.

(** The integer [s] of [k] digits nearest to [p / q / 10 ^ (n - k)] among
    those for which [s * 10 ^ (n - k)] denotes the double [x]. *)
Definition candidate (x : double) (p q n k : Z) : option Z :=
  let '(a, b) := times_pow 10 p q (k - n) in
  let lo := a / b in
  let hi := lo + 1 in
  let r := a mod b in
  let denotes s := double_eqb (of_decimal s (n - k)) x in
  match denotes lo, denotes hi with
  | true, true =>
      Some (if 2 * r <? b then lo
            else if b <? 2 * r then hi
            else if Z.even lo then lo else hi)
  | true, false => Some lo
  | false, true => Some hi
  | false, false => None
  end.

(** The shortest digits: the least [k] that has a candidate. *)
Fixpoint shortest (fuel : nat) (x : double) (p q n k : Z) : Z * Z :=
  match fuel with
  | O => (fst (times_pow 10 p q (k - n)) / snd (times_pow 10 p q (k - n)), k)
  | S fuel' =>
      match candidate x p q n k with
      | Some s => (s, k)
      | None => shortest fuel' x p q n (k + 1)
      end
  end.

Definition zeros (n : Z) : string :=
  string_of_list_ascii (repeat "0"%char (Z.to_nat n)).

Definition first (n : Z) (s : string) : string := String.substring 0 (Z.to_nat n) s.
Definition after (n : Z) (s : string) : string :=
  String.substring (Z.to_nat n) (String.length s - Z.to_nat n) s.

(** [Number::toString] on the digits [s], of which there are [k], and the
    exponent [n]: the number is [s * 10 ^ (n - k)]. *)
Definition format (s k n : Z) : string :=
  let digits := string_of_Z s in
  if (k <=? n) && (n <=? 21) then digits +:+ zeros (n - k)
  else if (0 <? n) && (n <=? 21) then first n digits +:+ "." +:+ after n digits
  else if (-6 <? n) && (n <=? 0) then "0." +:+ zeros (- n) +:+ digits
  else
    let exponent :=
      (if 0 <? n - 1 then "+" else "-") +:+ string_of_Z (Z.abs (n - 1)) in
    if k =? 1 then digits +:+ "e" +:+ exponent
    else first 1 digits +:+ "." +:+ after 1 digits +:+ "e" +:+ exponent.

Definition to_string_double (x : double) : string :=
  match x with
  | Zero => "0"
  | Infinite => "Infinity"
  | Finite m e =>
      let '(p, q) := times_pow 2 m 1 e in
      let l := Z.log2 p - Z.log2 q in
      let n := magnitude 8 p q (Z.min ((l - 1) * 30102 / 100000)
                                      ((l - 1) * 30103 / 100000) - 1) in
      let '(s, k) := shortest 17 x p q n 1 in
      if s =? 10 ^ k then format (10 ^ (k - 1)) k (n + 1) else format s k n
  end.

(** [String(x)] for the number the decimal literal [m * 10 ^ e]
    denotes. *)
Definition to_string (m e : Z) : string :=
  match of_decimal (Z.abs m) e with
  | Zero => "0"
  | x => (if m <? 0 then "-" else "") +:+ to_string_double x
  end.

End Number.

(** [!!v] *)
Definition truthy (v : value) : bool :=
  match v with
  | VUndefined | VNull | VNaN => false
  | VBool b => b
  | VNum n => negb (n =? 0)%Z
  | VDec m e =>
      match Number.of_decimal (Z.abs m) e with
      | Number.Zero => false
      | _ => true
      end
  | VStr s => negb (s =? "")
  | VArr _ | VObj _ | VFunction _ => true
  end.

(** [String(v)], as template literals, [encodeURIComponent] and
    [new Error] apply it, for a value whose conversion does not throw
    (see [convertible] below). *)
Fixpoint to_string (v : value) : string :=
  match v with
  | VUndefined => "undefined"
  | VNull => "null"
  | VBool true => "true"
  | VBool false => "false"
  | VNum n => Number.to_string n 0
  | VDec m e => Number.to_string m e
  | VNaN => "NaN"
  | VStr s => s
  | VArr l =>
      String.concat ","
        (map (fun x => match x with
                       | VUndefined | VNull => ""
                       | _ => to_string x
                       end) l)
  | VObj _ => "[object Object]"
  | VFunction name => "function " +:+ name +:+ "() { [native code] }"
  end.

(** ** Strings *)

Definition is_digit (c : ascii) : bool :=
  ((48 <=? N_of_ascii c) && (N_of_ascii c <=? 57))%N.

Definition is_alpha (c : ascii) : bool :=
  (((65 <=? N_of_ascii c) && (N_of_ascii c <=? 90))
   || ((97 <=? N_of_ascii c) && (N_of_ascii c <=? 122)))%N.

(** The characters [encodeURIComponent] leaves alone:
    [A-Z a-z 0-9 - _ . ! ~ * ' ( )]. *)
Definition unreserved (c : ascii) : bool :=
  is_alpha c || is_digit c
  || existsb (Ascii.eqb c)
       ["-"; "_"; "."; "!"; "~"; "*"; "'"; "("; ")"]%char.

Definition hex_upper (n : N) : ascii :=
  if (n <? 10)%N then ascii_of_N (48 + n) else ascii_of_N (55 + n).

Definition percent_escape (c : ascii) : string :=
  String "%"
    (String (hex_upper (N_of_ascii c / 16))
       (String (hex_upper (N_of_ascii c mod 16)) "")).

Fixpoint encodeURIComponent (s : string) : string :=
  match s with
  | "" => ""
  | String c r =>
      (if unreserved c then String c "" else percent_escape c)
        +:+ encodeURIComponent r
  end.

(** [s.substr(1)] *)
Definition substr1 (s : string) : string :=
  match s with
  | "" => ""
  | String _ r => r
  end.

Fixpoint starts_with (p s : string) : bool :=
  match p, s with
  | "", _ => true
  | String a p', String b s' => Ascii.eqb a b && starts_with p' s'
  | String _ _, "" => false
  end.

(** [s.includes(p)] *)
Fixpoint includes (s p : string) : bool :=
  starts_with p s ||
  match s with
  | "" => false
  | String _ r => includes r p
  end.

(** ** Plain objects *)

Abbreviation obj := (list (string * value)) (only parsing).

Fixpoint digits_value (s : string) (acc : N) : option N :=
  match s with
  | "" => Some acc
  | String c r =>
      if is_digit c then digits_value r (10 * acc + (N_of_ascii c - 48))%N
      else None
  end.

(** A property name is an array index when it is the canonical decimal
    form of an integer in [0 .. 2^32 - 2]. *)
Definition array_index (k : string) : option N :=
  match k with
  | "" => None
  | String c r =>
      if Ascii.eqb c "0" && negb (r =? "") then None
      else match digits_value k 0 with
           | Some n => if (n <=? 4294967294)%N then Some n else None
           | None => None
           end
  end.

(** [o[k]] on own properties: what [o[k]] is for an own name and for
    the names the module reads by name ([useServerTime], [type],
    [timeInForce], [msg], [code], [serverTime]), none of which is
    inherited. *)
Fixpoint obj_get (k : string) (o : obj) : value :=
  match o with
  | [] => VUndefined
  | (k', v) :: r => if k' =? k then v else obj_get k r
  end.

Fixpoint obj_has (k : string) (o : obj) : bool :=
  match o with
  | [] => false
  | (k', _) :: r => (k' =? k) || obj_has k r
  end.

Fixpoint obj_replace (k : string) (v : value) (o : obj) : obj :=
  match o with
  | [] => []
  | (k', v') :: r =>
      if k' =? k then (k', v) :: r else (k', v') :: obj_replace k v r
  end.

(** Where a new array-index property goes: before the first property that
    is not an array index or is a larger one. *)
Fixpoint obj_add_index (n : N) (k : string) (v : value) (o : obj) : obj :=
  match o with
  | [] => [(k, v)]
  | (k', v') :: r =>
      match array_index k' with
      | Some m =>
          if (m <? n)%N then (k', v') :: obj_add_index n k v r
          else (k, v) :: o
      | None => (k, v) :: o
      end
  end.

(** [o[k] = v]: an existing property keeps its place, a new one goes
    where the property order puts it. *)
Definition obj_set (k : string) (v : value) (o : obj) : obj :=
  if obj_has k o then obj_replace k v o
  else match array_index k with
       | Some n => obj_add_index n k v o
       | None => o ++ [(k, v)]
       end.

(** What a plain object inherits from [Object.prototype]: built-in
    functions, and [__proto__], which reads as the prototype itself. *)
Definition Object_prototype : obj :=
  [("constructor", VFunction "Object");
   ("__defineGetter__", VFunction "__defineGetter__");
   ("__defineSetter__", VFunction "__defineSetter__");
   ("hasOwnProperty", VFunction "hasOwnProperty");
   ("__lookupGetter__", VFunction "__lookupGetter__");
   ("__lookupSetter__", VFunction "__lookupSetter__");
   ("isPrototypeOf", VFunction "isPrototypeOf");
   ("propertyIsEnumerable", VFunction "propertyIsEnumerable");
   ("toString", VFunction "toString");
   ("valueOf", VFunction "valueOf");
   ("__proto__", VObj []);
   ("toLocaleString", VFunction "toLocaleString")].

(** [o[k]] for any name: an own property, or else an inherited one.  For
    a name that is not inherited this is [obj_get]. *)
Definition obj_member (k : string) (o : obj) : value :=
  if obj_has k o then obj_get k o else obj_get k Object_prototype.

(** [delete o[k]] *)
Fixpoint obj_delete (k : string) (o : obj) : obj :=
  match o with
  | [] => []
  | (k', v) :: r => if k' =? k then r else (k', v) :: obj_delete k r
  end.

(** [Object.keys(o)] *)
Definition Object_keys (o : obj) : list string := map fst o.

(** [{ ...target, ...src }]: the properties of [src] are assigned to
    [target] one after the other. *)
Definition spread_into (target src : obj) : obj :=
  fold_left (fun acc kv => obj_set (fst kv) (snd kv) acc) src target.

(** [{ ...q }] where [q] may be [null] or [undefined]. *)
Definition spread (q : option obj) : obj :=
  match q with
  | Some o => spread_into [] o
  | None => []
  end.

(** An object literal [{ k1: v1, ..., kn: vn }]. *)
Definition obj_literal (entries : list (string * value)) : obj :=
  spread_into [] entries.

(** [o[k] = v] for a computed name, on the own properties: as [obj_set],
    except that the name [__proto__] reaches the inherited setter and
    adds no property. *)
Definition obj_assign (k : string) (v : value) (o : obj) : obj :=
  if k =? "__proto__" then o else obj_set k v o.

(** *** Conversion to a string

    [String(v)] on an object looks for a [toString] and then for a
    [valueOf] that it can call.  In a value that holds no function (what
    a JSON text parses to, or a payload of data) an own [toString] or
    [valueOf] cannot be called, so that an object converts, to
    [[object Object]], exactly when it has no [toString] of its own, and
    the conversion throws a [TypeError] otherwise; an array converts when
    its elements do. *)

Fixpoint function_free (v : value) : bool :=
  match v with
  | VFunction _ => false
  | VArr l => forallb function_free l
  | VObj o => forallb (fun kv => function_free (snd kv)) o
  | _ => true
  end.

Fixpoint convertible (v : value) : bool :=
  match v with
  | VArr l =>
      forallb (fun x => match x with
                        | VUndefined | VNull => true
                        | _ => convertible x
                        end) l
  | VObj o => negb (obj_has "toString" o)
  | _ => true
  end.

(** [String(v)]; [None] is the [TypeError]. *)
Definition js_String (v : value) : option string :=
  if convertible v then Some (to_string v) else None.

(** *** Well-formed objects

    The names of an object are pairwise distinct and stand in property
    order: array indices in ascending order first, then the others. *)

Definition is_index (k : string) : bool :=
  match array_index k with
  | Some _ => true
  | None => false
  end.

Fixpoint distinct (ks : list string) : bool :=
  match ks with
  | [] => true
  | k :: r => negb (existsb (String.eqb k) r) && distinct r
  end.

Fixpoint ordered_from (lb : N) (o : obj) : bool :=
  match o with
  | [] => true
  | (k, _) :: r =>
      match array_index k with
      | Some n => (lb <=? n)%N && ordered_from (n + 1) r
      | None => forallb (fun kv => negb (is_index (fst kv))) r
      end
  end.

Definition wf_obj (o : obj) : bool :=
  distinct (Object_keys o) && ordered_from 0 o.

(** ** The Query Encoder *)

(** What [makeQueryString] returns, when it returns; it throws on a value
    that cannot be converted to a string and on a lone surrogate, see
    [makeQueryString_completion] below.  [q] is [None] for [null] and
    [undefined]. *)
Definition makeQueryString (q : option obj) : string :=
  match q with
  | Some o =>
      "?" +:+ String.concat "&"
               (map (fun k => encodeURIComponent k +:+ "="
                              +:+ encodeURIComponent (to_string (obj_get k o)))
                  (List.filter (fun k => truthy (obj_get k o)) (Object_keys o)))
  | None => ""
  end.

(** The pairs a query string is made of, read off the entries of the
    mapping: every entry whose value is truthy, as [key=value], both
    percent-encoded. *)
Definition render_pair (kv : string * value) : string :=
  encodeURIComponent (fst kv) +:+ "=" +:+ encodeURIComponent (to_string (snd kv)).

Definition query_pairs (entries : list (string * value)) : list string :=
  map render_pair (List.filter (fun kv => truthy (snd kv)) entries).

(** A string without its leading question mark, if it has one. *)
Definition strip_leading_question (s : string) : string :=
  match s with
  | String c r => if Ascii.eqb c "?" then r else s
  | "" => ""
  end.

(** *** Reading a query string back

    What a server does with a query string: it cuts it at every [&],
    cuts each piece at its first [=], and undoes the percent-encoding of
    both halves. *)

Definition hex_digit_value (c : ascii) : option N :=
  let n := N_of_ascii c in
  if is_digit c then Some (n - 48)%N
  else if ((65 <=? n) && (n <=? 70))%N then Some (n - 55)%N
  else if ((97 <=? n) && (n <=? 102))%N then Some (n - 87)%N
  else None.

(** Percent-decoding, byte by byte; [None] for a malformed escape. *)
Fixpoint percent_decode (s : string) : option string :=
  match s with
  | "" => Some ""
  | String c r =>
      if Ascii.eqb c "%" then
        match r with
        | String h (String l r') =>
            match hex_digit_value h, hex_digit_value l, percent_decode r' with
            | Some a, Some b, Some t => Some (String (ascii_of_N (16 * a + b)) t)
            | _, _, _ => None
            end
        | _ => None
        end
      else
        match percent_decode r with
        | Some t => Some (String c t)
        | None => None
        end
  end.

(** No character of [s] is [sep]. *)
Fixpoint avoids (sep : ascii) (s : string) : bool :=
  match s with
  | "" => true
  | String c r => negb (Ascii.eqb c sep) && avoids sep r
  end.

(** The part before the first [sep] and the part after it. *)
Fixpoint cut (sep : ascii) (s : string) : option (string * string) :=
  match s with
  | "" => None
  | String c r =>
      if Ascii.eqb c sep then Some ("", r)
      else match cut sep r with
           | Some (a, b) => Some (String c a, b)
           | None => None
           end
  end.

(** The pieces between the occurrences of [sep]. *)
Fixpoint split_on (sep : ascii) (s : string) : list string :=
  match s with
  | "" => [""]
  | String c r =>
      if Ascii.eqb c sep then "" :: split_on sep r
      else match split_on sep r with
           | x :: xs => String c x :: xs
           | [] => [String c ""]
           end
  end.

Definition parse_pair (piece : string) : option (string * string) :=
  match cut "=" piece with
  | Some (k, v) =>
      match percent_decode k, percent_decode v with
      | Some k', Some v' => Some (k', v')
      | _, _ => None
      end
  | None => None
  end.

Fixpoint parse_pairs (pieces : list string) : option (list (string * string)) :=
  match pieces with
  | [] => Some []
  | p :: r =>
      match parse_pair p, parse_pairs r with
      | Some kv, Some kvs => Some (kv :: kvs)
      | _, _ => None
      end
  end.

(** The pairs of a query string (without its question mark). *)
Definition parse_query (s : string) : option (list (string * string)) :=
  if s =? "" then Some [] else parse_pairs (split_on "&" s).

(** ** [crypto.createHmac('sha256', key).update(msg).digest('hex')]

    SHA-256 as in FIPS 180-4 on 32-bit words, and HMAC as in RFC 2104
    with the 64-byte block of SHA-256. *)

Module SHA256.

Local Open Scope Z_scope.

Definition w32 (x : Z) : Z := x mod 2 ^ 32.
Definition add32 (x y : Z) : Z := w32 (x + y).
Definition rotr (n x : Z) : Z :=
  Z.lor (Z.shiftr x n) (w32 (Z.shiftl x (32 - n))).
Definition not32 (x : Z) : Z := Z.lxor x 4294967295.

Definition Ch (x y z : Z) : Z := Z.lxor (Z.land x y) (Z.land (not32 x) z).
Definition Maj (x y z : Z) : Z :=
  Z.lxor (Z.lxor (Z.land x y) (Z.land x z)) (Z.land y z).
Definition Sigma0 (x : Z) : Z :=
  Z.lxor (Z.lxor (rotr 2 x) (rotr 13 x)) (rotr 22 x).
Definition Sigma1 (x : Z) : Z :=
  Z.lxor (Z.lxor (rotr 6 x) (rotr 11 x)) (rotr 25 x).
Definition sigma0 (x : Z) : Z :=
  Z.lxor (Z.lxor (rotr 7 x) (rotr 18 x)) (Z.shiftr x 3).
Definition sigma1 (x : Z) : Z :=
  Z.lxor (Z.lxor (rotr 17 x) (rotr 19 x)) (Z.shiftr x 10).

Definition K : list Z :=
  [ 1116352408; 1899447441; 3049323471; 3921009573;
    961987163; 1508970993; 2453635748; 2870763221;
    3624381080; 310598401; 607225278; 1426881987;
    1925078388; 2162078206; 2614888103; 3248222580;
    3835390401; 4022224774; 264347078; 604807628;
    770255983; 1249150122; 1555081692; 1996064986;
    2554220882; 2821834349; 2952996808; 3210313671;
    3336571891; 3584528711; 113926993; 338241895;
    666307205; 773529912; 1294757372; 1396182291;
    1695183700; 1986661051; 2177026350; 2456956037;
    2730485921; 2820302411; 3259730800; 3345764771;
    3516065817; 3600352804; 4094571909; 275423344;
    430227734; 506948616; 659060556; 883997877;
    958139571; 1322822218; 1537002063; 1747873779;
    1955562222; 2024104815; 2227730452; 2361852424;
    2428436474; 2756734187; 3204031479; 3329325298 ].

Definition H0 : list Z :=
  [ 1779033703; 3144134277; 1013904242; 2773480762;
    1359893119; 2600822924; 528734635; 1541459225 ].

(** The message schedule, latest word first. *)
Fixpoint extend (n : nat) (w : list Z) : list Z :=
  match n with
  | O => w
  | S n' =>
      extend n'
        (add32 (add32 (sigma1 (nth 1 w 0)) (nth 6 w 0))
               (add32 (sigma0 (nth 14 w 0)) (nth 15 w 0)) :: w)
  end.

Definition schedule (block : list Z) : list Z :=
  rev (extend 48 (rev block)).

Definition round (s : list Z) (kw : Z * Z) : list Z :=
  match s with
  | [a; b; c; d; e; f; g; h] =>
      let t1 := add32 (add32 (add32 h (Sigma1 e)) (add32 (Ch e f g) (fst kw))) (snd kw) in
      let t2 := add32 (Sigma0 a) (Maj a b c) in
      [add32 t1 t2; a; b; c; add32 d t1; e; f; g]
  | _ => s
  end.

Fixpoint zip_add (xs ys : list Z) : list Z :=
  match xs, ys with
  | x :: xs', y :: ys' => add32 x y :: zip_add xs' ys'
  | _, _ => []
  end.

Definition compress (h : list Z) (block : list Z) : list Z :=
  zip_add h (fold_left round (combine K (schedule block)) h).

Definition bytes_of_string (s : string) : list Z :=
  map (fun c => Z.of_N (N_of_ascii c)) (list_ascii_of_string s).

Definition be_bytes (n : nat) (x : Z) : list Z :=
  map (fun i => Z.shiftr x (8 * Z.of_nat i) mod 256) (rev (seq 0 n)).

Definition pad (msg : list Z) : list Z :=
  let len := Z.of_nat (length msg) in
  msg ++ [128] ++ repeat 0 (Z.to_nat ((55 - len) mod 64)) ++ be_bytes 8 (8 * len).

Fixpoint words (bs : list Z) : list Z :=
  match bs with
  | b3 :: b2 :: b1 :: b0 :: r =>
      (b3 * 16777216 + b2 * 65536 + b1 * 256 + b0) :: words r
  | _ => []
  end.

Fixpoint blocks (fuel : nat) (ws : list Z) : list (list Z) :=
  match fuel, ws with
  | S fuel', _ :: _ => firstn 16 ws :: blocks fuel' (skipn 16 ws)
  | _, _ => []
  end.

(** The 32-byte digest of a byte sequence. *)
Definition sha256 (msg : list Z) : list Z :=
  let ws := words (pad msg) in
  flat_map (be_bytes 4) (fold_left compress (blocks (length ws) ws) H0).

Definition block_key (key : list Z) : list Z :=
  let k := if (64 <? Z.of_nat (length key)) then sha256 key else key in
  k ++ repeat 0 (64 - length k)%nat.

Definition hmac (key msg : list Z) : list Z :=
  let k := block_key key in
  sha256 (map (Z.lxor 92) k ++ sha256 (map (Z.lxor 54) k ++ msg)).

Definition hex_lower (n : Z) : ascii :=
  if n <? 10 then ascii_of_N (Z.to_N (48 + n)) else ascii_of_N (Z.to_N (87 + n)).

Definition hex (bs : list Z) : string :=
  string_of_list_ascii
    (flat_map (fun b => [hex_lower (b / 16); hex_lower (b mod 16)]) bs).

End SHA256.

Definition hmac_sha256_hex (key msg : string) : string :=
  SHA256.hex (SHA256.hmac (SHA256.bytes_of_string key) (SHA256.bytes_of_string msg)).




(** ** [isNaN]

    [isNaN(v)] converts [v] to a number first.  A string converts to a
    number when, with surrounding white space removed, it is empty or a
    numeric literal (white space is the ASCII part of the set). *)

Definition is_space (c : ascii) : bool :=
  existsb (N.eqb (N_of_ascii c)) [9; 10; 11; 12; 13; 32]%N.

Fixpoint drop_while (p : ascii -> bool) (s : string) : string :=
  match s with
  | "" => ""
  | String c r => if p c then drop_while p r else s
  end.

Definition trim (s : string) : string :=
  String.rev (drop_while is_space (String.rev (drop_while is_space s))).

Definition all_of (p : ascii -> bool) (s : string) : bool :=
  drop_while p s =? "".

Definition is_hex_digit (c : ascii) : bool :=
  is_digit c
  || ((65 <=? N_of_ascii c) && (N_of_ascii c <=? 70))%N
  || ((97 <=? N_of_ascii c) && (N_of_ascii c <=? 102))%N.

Definition is_sign (c : ascii) : bool := Ascii.eqb c "+" || Ascii.eqb c "-".

Definition unsigned_digits (s : string) : bool :=
  negb (s =? "") && all_of is_digit s.

(** [e] or [E], an optional sign, digits; or nothing. *)
Definition exponent_opt (s : string) : bool :=
  match s with
  | "" => true
  | String c r =>
      (Ascii.eqb c "e" || Ascii.eqb c "E")
      && match r with
         | String d r' => if is_sign d then unsigned_digits r' else unsigned_digits r
         | "" => false
         end
  end.

Definition decimal_literal (s : string) : bool :=
  let after_int := drop_while is_digit s in
  let has_int := negb (String.length after_int =? String.length s)%nat in
  match after_int with
  | String "." frac =>
      let after_frac := drop_while is_digit frac in
      let has_frac := negb (String.length after_frac =? String.length frac)%nat in
      (has_int || has_frac) && exponent_opt after_frac
  | _ => has_int && exponent_opt after_int
  end.

Definition radix_literal (s : string) : bool :=
  match s with
  | String "0" (String x r) =>
      negb (r =? "")
      && (((Ascii.eqb x "x" || Ascii.eqb x "X") && all_of is_hex_digit r)
          || ((Ascii.eqb x "o" || Ascii.eqb x "O")
              && all_of (fun c => is_digit c && (N_of_ascii c <=? 55)%N) r)
          || ((Ascii.eqb x "b" || Ascii.eqb x "B")
              && all_of (fun c => Ascii.eqb c "0" || Ascii.eqb c "1") r))
  | _ => false
  end.

Definition is_numeric_string (s : string) : bool :=
  let t := trim s in
  (t =? "") || radix_literal t
  || (let u := match t with
               | String c r => if is_sign c then r else t
               | "" => t
               end in
      (u =? "Infinity") || decimal_literal u).

Definition isNaN (v : value) : bool :=
  match v with
  | VUndefined | VNaN => true
  | VNull | VBool _ | VNum _ | VDec _ _ => false
  | VStr s => negb (is_numeric_string s)
  | VArr _ => negb (is_numeric_string (to_string v))
  | VObj _ | VFunction _ => true
  end.


(** ** Errors, requests and responses *)

Definition Agent : Type := option nat.

Record Response := mkResponse {
  status : Z;
  statusText : string;
  body : string
}.

(** [res.ok]: the status is in the range 200-299. *)
Definition ok (res : Response) : bool :=
  ((200 <=? status res) && (status res <=? 299))%Z.

(** An [Error] object with the properties this module attaches to it;
    [None] is a property that was never assigned. *)
Record Error := mkError {
  message : string;
  code : option value;
  response : option Response;
  responseText : option string
}.

(** [new Error(msg)] *)
Definition newError (msg : string) : Error := mkError msg None None None.

(** What a call can throw or reject with. *)
Inductive exn : Type :=
| ExnError (e : Error)
| ExnSyntaxError (text : string)
| ExnTypeError
| ExnURIError
| ExnFetch (reason : string).

Definition is_some {A} (o : option A) : bool :=
  match o with Some _ => true | None => false end.

(** The three kinds of [Error] of the module, told apart by what is
    attached. *)
Definition is_configuration_error (x : exn) : bool :=
  match x with
  | ExnError e =>
      negb (is_some (code e)) && negb (is_some (response e))
      && negb (is_some (responseText e))
  | _ => false
  end.

Definition is_api_error (x : exn) : bool :=
  match x with
  | ExnError e =>
      is_some (code e) && negb (is_some (response e))
      && negb (is_some (responseText e))
  | _ => false
  end.

Definition is_transport_error (x : exn) : bool :=
  match x with
  | ExnError e =>
      negb (is_some (code e)) && is_some (response e)
      && is_some (responseText e)
  | _ => false
  end.

(** ** The Query Encoder and its exceptions *)

(** A string holds a lone surrogate when it holds the byte [ED] followed
    by a byte from [A0] up: a character of UTF-8 that starts with [ED] goes
    on with a byte below [A0]. *)
Fixpoint well_formed (s : string) : bool :=
  match s with
  | String c r =>
      match r with
      | String d _ =>
          negb ((N_of_ascii c =? 237)%N && (160 <=? N_of_ascii d)%N)
          && well_formed r
      | "" => true
      end
  | "" => true
  end.

(** [encodeURIComponent(v)]: the argument is converted to a string, which
    throws a [TypeError] when it cannot be, and then encoded, which throws
    a [URIError] on a lone surrogate. *)
Definition encodeURIComponent_completion (v : value) : exn + string :=
  match js_String v with
  | None => inl ExnTypeError
  | Some s => if well_formed s then inr (encodeURIComponent s) else inl ExnURIError
  end.

(** The callback of [map] in [makeQueryString]: the key is encoded before
    the value is. *)
Definition render_key (q : obj) (k : string) : exn + string :=
  match encodeURIComponent_completion (VStr k) with
  | inl e => inl e
  | inr key =>
      match encodeURIComponent_completion (obj_get k q) with
      | inl e => inl e
      | inr val => inr (key +:+ "=" +:+ val)
      end
  end.

(** [l.map(f)], which stops at the first element on which [f] throws. *)
Fixpoint map_completion {A B : Type} (f : A -> exn + B) (l : list A)
  : exn + list B :=
  match l with
  | [] => inr []
  | x :: r =>
      match f x with
      | inl e => inl e
      | inr y =>
          match map_completion f r with
          | inl e => inl e
          | inr ys => inr (y :: ys)
          end
      end
  end.

(** [makeQueryString] as it completes: it returns a string or throws. *)
Definition makeQueryString_completion (q : option obj) : exn + string :=
  match q with
  | Some o =>
      match map_completion (render_key o)
              (List.filter (fun k => truthy (obj_get k o)) (Object_keys o)) with
      | inl e => inl e
      | inr pairs => inr ("?" +:+ String.concat "&" pairs)
      end
  | None => inr ""
  end.

(** An entry of a mapping renders when the Query Encoder leaves it out,
    or when its key encodes and its value converts and encodes. *)
Definition renders (kv : string * value) : bool :=
  negb (truthy (snd kv))
  || well_formed (fst kv) && convertible (snd kv)
     && well_formed (to_string (snd kv)).

(** What is thrown at an entry that does not render. *)
Definition thrown_at (kv : string * value) : exn :=
  if well_formed (fst kv) && negb (convertible (snd kv))
  then ExnTypeError else ExnURIError.

(** The second argument of [fetch], and its first. *)
Record Request := mkRequest {
  url : string;
  req_method : string;
  req_json : bool;
  req_headers : list (string * string);
  req_agent : Agent
}.

Inductive fetch_reply : Type :=
| Replied (res : Response)
| Failed (reason : string).

Inductive event : Type :=
| EvGetTime (t : value)
| EvRequest (r : Request)
| EvResponse (r : Request) (reply : fetch_reply)
| EvHmac (key msg digest : string).

(** ** The store and the outcome of a call *)

Abbreviation loc := nat (only parsing).

(** A [data] or [payload] argument: absent, [null], or a reference to an
    object of the store. *)
Inductive data_arg : Type :=
| DUndefined
| DNull
| DObj (l : loc).

Record state := mkState {
  heap : gmap loc obj;
  trace : list event
}.

Inductive outcome (A : Type) : Type :=
| Thrown (e : exn)
| Rejected (e : exn)
| Fulfilled (a : A).
Arguments Thrown {A} e.
Arguments Rejected {A} e.
Arguments Fulfilled {A} a.

(** A computation on the store and the trace: it throws synchronously,
    or returns a promise that the model settles. *)
Definition Call (A : Type) : Type := state -> outcome A * state.

Definition ret {A} (a : A) : Call A := fun st => (Fulfilled a, st).
Definition throw {A} (e : exn) : Call A := fun st => (Thrown e, st).
Definition reject {A} (e : exn) : Call A := fun st => (Rejected e, st).

Definition bind {A B} (m : Call A) (f : A -> Call B) : Call B :=
  fun st =>
    match m st with
    | (Fulfilled a, st') => f a st'
    | (Thrown e, st') => (Thrown e, st')
    | (Rejected e, st') => (Rejected e, st')
    end.

(** [m.then(f)]: an exception thrown by the callback rejects the
    promise. *)
Definition then_ {A B} (m : Call A) (f : A -> Call B) : Call B :=
  fun st =>
    match m st with
    | (Fulfilled a, st') =>
        match f a st' with
        | (Thrown e, st'') => (Rejected e, st'')
        | r => r
        end
    | (Thrown e, st') => (Thrown e, st')
    | (Rejected e, st') => (Rejected e, st')
    end.

Notation "'let*' x ':=' m 'in' k" := (bind m (fun x => k))
  (at level 10, x name, m at level 100, k at level 200).

Definition log (e : event) : Call unit :=
  fun st => (Fulfilled tt, mkState (heap st) (trace st ++ [e])).

Definition history : Call (list event) :=
  fun st => (Fulfilled (trace st), st).

(** A new object of the store. *)
Definition alloc (o : obj) : Call loc :=
  fun st =>
    let l := fresh (dom (heap st)) in
    (Fulfilled l, mkState (<[l := o]> (heap st)) (trace st)).

Definition read (l : loc) : Call obj :=
  fun st => (Fulfilled (default [] (heap st !! l)), st).

Definition modify (l : loc) (f : obj -> obj) : Call unit :=
  fun st =>
    (Fulfilled tt,
     mkState (<[l := f (default [] (heap st !! l))]> (heap st)) (trace st)).

(** The object behind an argument, [None] for [null] and [undefined]. *)
Definition deref (d : data_arg) : Call (option obj) :=
  match d with
  | DObj l => let* o := read l in ret (Some o)
  | _ => ret None
  end.

(** [v[k]] for the property names this module reads ([msg], [code],
    [serverTime]); [None] is the [TypeError] on [null] and
    [undefined]. *)
Definition get_prop (v : value) (k : string) : option value :=
  match v with
  | VUndefined | VNull => None
  | VObj o => Some (obj_get k o)
  | _ => Some VUndefined
  end.

(** ** A reference [JSON.parse]

    [JSON.parse] on a JSON text: a number without fraction and exponent
    is an integer literal ([VNum]), another one the decimal literal of its
    digits ([VDec]); an escape [\uXXXX] is the UTF-8 form of its
    character, two escapes that make a surrogate pair being one
    character. *)

Module JSON.

Definition dquote : ascii := ascii_of_N 34.
Definition backslash : ascii := ascii_of_N 92.

(** [quoted s] is [s] between double quotes. *)
Definition quoted (s : string) : string :=
  String dquote (s +:+ String dquote "").

Definition is_ws (c : ascii) : bool :=
  existsb (N.eqb (N_of_ascii c)) [9; 10; 13; 32]%N.

Definition skip_ws (s : string) : string := drop_while is_ws s.

Fixpoint drop (n : nat) (s : string) : string :=
  match n, s with
  | S n', String _ r => drop n' r
  | _, _ => s
  end.

Definition literal (lit : string) (v : value) (s : string)
  : option (value * string) :=
  if starts_with lit s then Some (v, drop (String.length lit) s) else None.

Definition unescape (c : ascii) : option ascii :=
  if Ascii.eqb c dquote then Some dquote
  else if Ascii.eqb c backslash then Some backslash
  else if Ascii.eqb c "/" then Some "/"%char
  else if Ascii.eqb c "b" then Some (ascii_of_N 8)
  else if Ascii.eqb c "f" then Some (ascii_of_N 12)
  else if Ascii.eqb c "n" then Some (ascii_of_N 10)
  else if Ascii.eqb c "r" then Some (ascii_of_N 13)
  else if Ascii.eqb c "t" then Some (ascii_of_N 9)
  else None.

(** The code unit of [\uXXXX]. *)
Definition hex4 (a b c d : ascii) : option N :=
  match hex_digit_value a, hex_digit_value b, hex_digit_value c,
        hex_digit_value d with
  | Some x, Some y, Some z, Some w => Some (((x * 16 + y) * 16 + z) * 16 + w)%N
  | _, _, _, _ => None
  end.

(** What a string literal is made of: the bytes of its characters, and
    the code units of its [\uXXXX] escapes. *)
Inductive unit16 : Type :=
| Byte (c : ascii)
| Escaped (n : N).

(** The characters of a string up to its closing quote. *)
Fixpoint units (s : string) : option (list unit16 * string) :=
  match s with
  | "" => None
  | String c r =>
      if Ascii.eqb c dquote then Some ([], r)
      else if (N_of_ascii c <? 32)%N then None
      else if Ascii.eqb c backslash then
        match r with
        | String e r' =>
            if Ascii.eqb e "u" then
              match r' with
              | String x (String y (String z (String w r''))) =>
                  match hex4 x y z w, units r'' with
                  | Some n, Some (t, rest) => Some (Escaped n :: t, rest)
                  | _, _ => None
                  end
              | _ => None
              end
            else
              match unescape e, units r' with
              | Some c', Some (t, rest) => Some (Byte c' :: t, rest)
              | _, _ => None
              end
        | "" => None
        end
      else match units r with
           | Some (t, rest) => Some (Byte c :: t, rest)
           | None => None
           end
  end.

(** The UTF-8 bytes of a code point. *)
Definition utf8 (n : N) : string :=
  let byte k := ascii_of_N k in
  (if n <? 128 then String (byte n) ""
   else if n <? 2048 then
     String (byte (192 + n / 64)) (String (byte (128 + n mod 64)) "")
   else if n <? 65536 then
     String (byte (224 + n / 4096))
       (String (byte (128 + (n / 64) mod 64))
          (String (byte (128 + n mod 64)) ""))
   else
     String (byte (240 + n / 262144))
       (String (byte (128 + (n / 4096) mod 64))
          (String (byte (128 + (n / 64) mod 64))
             (String (byte (128 + n mod 64)) ""))))%N.

Definition is_high (n : N) : bool := ((55296 <=? n) && (n <? 56320))%N.
Definition is_low (n : N) : bool := ((56320 <=? n) && (n <? 57344))%N.

Fixpoint text_of (l : list unit16) : string :=
  match l with
  | [] => ""
  | Byte c :: r => String c (text_of r)
  | Escaped n :: r =>
      match r with
      | Escaped m :: r' =>
          if is_high n && is_low m
          then utf8 (65536 + (n - 55296) * 1024 + (m - 56320))%N +:+ text_of r'
          else utf8 n +:+ text_of r
      | _ => utf8 n +:+ text_of r
      end
  end.

Definition chars (s : string) : option (string * string) :=
  match units s with
  | Some (l, rest) => Some (text_of l, rest)
  | None => None
  end.

Fixpoint take_digits (s : string) : string * string :=
  match s with
  | String c r =>
      if is_digit c then let (d, rest) := take_digits r in (String c d, rest)
      else ("", s)
  | "" => ("", "")
  end.

(** The digits after the point, if there is one. *)
Definition fraction (s : string) : option (option string * string) :=
  match s with
  | String "." r =>
      let (d, rest) := take_digits r in
      if d =? "" then None else Some (Some d, rest)
  | _ => Some (None, s)
  end.

(** The exponent, if there is one. *)
Definition exponent (s : string) : option (option Z * string) :=
  match s with
  | String c r =>
      if Ascii.eqb c "e" || Ascii.eqb c "E" then
        let '(negative, r') :=
          match r with
          | String "-" r' => (true, r')
          | String "+" r' => (false, r')
          | _ => (false, r)
          end in
        let (d, rest) := take_digits r' in
        match d, digits_value d 0 with
        | String _ _, Some n =>
            Some (Some (if negative then - Z.of_N n else Z.of_N n)%Z, rest)
        | _, _ => None
        end
      else Some (None, s)
  | "" => Some (None, s)
  end.

(** A number without its sign, as the literal it is, given the sign. *)
Definition unsigned_number (negative : bool) (s : string)
  : option (value * string) :=
  let signed n := (if negative then - Z.of_N n else Z.of_N n)%Z in
  let (d, rest) := take_digits s in
  match d with
  | "" => None
  | String c d' =>
      if Ascii.eqb c "0" && negb (d' =? "") then None
      else
        match fraction rest with
        | None => None
        | Some (frac, rest') =>
            match exponent rest' with
            | None => None
            | Some (exp, rest'') =>
                match frac, exp with
                | None, None =>
                    match digits_value d 0 with
                    | Some n => Some (VNum (signed n), rest'')
                    | None => None
                    end
                | _, _ =>
                    let f := default "" frac in
                    match digits_value (d +:+ f) 0 with
                    | Some n =>
                        Some (VDec (signed n)
                                (default 0%Z exp - Z.of_nat (String.length f)),
                              rest'')
                    | None => None
                    end
                end
            end
        end
  end.

Definition number (s : string) : option (value * string) :=
  match s with
  | String "-" r => unsigned_number true r
  | _ => unsigned_number false s
  end.

Fixpoint parse_value (fuel : nat) (s : string) : option (value * string) :=
  match fuel with
  | O => None
  | S fuel' =>
      match skip_ws s with
      | String "{" r =>
          match skip_ws r with
          | String "}" rest => Some (VObj [], rest)
          | _ =>
              match parse_members fuel' r [] with
              | Some (o, rest) => Some (VObj o, rest)
              | None => None
              end
          end
      | String "[" r =>
          match skip_ws r with
          | String "]" rest => Some (VArr [], rest)
          | _ =>
              match parse_elements fuel' r with
              | Some (l, rest) => Some (VArr l, rest)
              | None => None
              end
          end
      | String "t" _ => literal "true" (VBool true) (skip_ws s)
      | String "f" _ => literal "false" (VBool false) (skip_ws s)
      | String "n" _ => literal "null" VNull (skip_ws s)
      | String c r =>
          if Ascii.eqb c dquote then
            match chars r with
            | Some (t, rest) => Some (VStr t, rest)
            | None => None
            end
          else number (String c r)
      | "" => None
      end
  end
with parse_elements (fuel : nat) (s : string) : option (list value * string) :=
  match fuel with
  | O => None
  | S fuel' =>
      match parse_value fuel' s with
      | Some (v, rest) =>
          match skip_ws rest with
          | String "," r =>
              match parse_elements fuel' r with
              | Some (l, rest') => Some (v :: l, rest')
              | None => None
              end
          | String "]" r => Some ([v], r)
          | _ => None
          end
      | None => None
      end
  end
with parse_members (fuel : nat) (s : string) (acc : obj) : option (obj * string) :=
  match fuel with
  | O => None
  | S fuel' =>
      match skip_ws s with
      | String c r =>
          if Ascii.eqb c dquote then
            match chars r with
            | Some (k, rest) =>
                match skip_ws rest with
                | String ":" r' =>
                    match parse_value fuel' r' with
                    | Some (v, rest') =>
                        match skip_ws rest' with
                        | String "," r'' => parse_members fuel' r'' (obj_set k v acc)
                        | String "}" r'' => Some (obj_set k v acc, r'')
                        | _ => None
                        end
                    | None => None
                    end
                | _ => None
                end
            | None => None
            end
          else None
      | "" => None
      end
  end.

Definition parse (text : string) : option value :=
  match parse_value (2 * String.length text + 2) text with
  | Some (v, rest) => if skip_ws rest =? "" then Some v else None
  | None => None
  end.

End JSON.

(** ** The module *)

Definition BASE : string := "https://api.binance.com".
Definition FUTURE_BASE : string := "https://fapi.binance.com".
Definition API_PATH_BASE : string := "api".
Definition FUTURES_API_PATH_BASE : string := "fapi".

(** The object a caller is applied to.  Each caller destructures the
    properties it knows and ignores the others; an absent property is
    [None] or [VUndefined]. *)
Record call_args := mkArgs {
  path : string;
  data : data_arg;
  method : option string;
  headers : option (list (string * string));
  noData : value;
  noExtra : value;
  noExtraData : value;
  agent : Agent
}.

(** The options of the client. *)
Record options := mkOptions {
  apiKey : option string;
  apiSecret : option string;
  getTime : option (list event -> value);
  httpBase : option string;
  httpFutureBase : option string
}.

(** [!s] for an optional string. *)
Definition missing (s : option string) : bool :=
  match s with
  | Some s' => s' =? ""
  | None => true
  end.

Definition status_line (res : Response) : string :=
  string_of_Z (status res) +:+ " " +:+ statusText res.

(** [checkParams]: the [forEach] stops at the first field that throws. *)
Fixpoint check_required (name : string) (payload : obj) (requires : list string)
  : option exn :=
  match requires with
  | [] => None
  | r :: rest =>
      if negb (truthy (obj_member r payload)) && isNaN (obj_member r payload)
      then Some (ExnError (newError
                   ("Method " +:+ name +:+ " requires " +:+ r +:+ " parameter.")))
      else check_required name payload rest
  end.

Definition checkParams (name : string) (payload : data_arg) (requires : list string)
  : Call bool :=
  let* p := deref payload in
  match p with
  | None => throw (ExnError (newError "You need to pass a payload object."))
  | Some o =>
      match check_required name o requires with
      | Some e => throw e
      | None => ret true
      end
  end.

(** What the Parameter Validator takes for a missing value. *)
Definition absent_or_NaN (v : value) : bool :=
  match v with
  | VUndefined | VNaN => true
  | _ => false
  end.

(** The parameters of the signed request: the payload as it is under the
    no-extra flag, and otherwise with [timestamp] and [signature]. *)
Definition final_params (noExtra : value) (payload : obj) (timestamp : value)
    (signature : string) : obj :=
  if truthy noExtra then payload
  else obj_set "signature" (VStr signature) (obj_set "timestamp" timestamp payload).

(** The URL of the signed request. *)
Definition final_url (base apiPathBase path : string) (noData : value) (params : obj)
  : string :=
  base
  +:+ (if includes path "/wapi" || includes path "/sapi" then ""
       else "/" +:+ apiPathBase)
  +:+ path
  +:+ (if truthy noData then "" else makeQueryString (Some params)).

(** The message a signed call signs for a payload and a timestamp. *)
Definition signed_message (payload : obj) (timestamp : value) : string :=
  strip_leading_question
    (makeQueryString (Some (obj_set "timestamp" timestamp payload))).

(** *** A world for the worked examples *)

Definition example_time_body : string :=
  "{" +:+ JSON.quoted "serverTime" +:+ ":1600000000000}".

Definition example_network : list event -> Request -> fetch_reply :=
  fun _ r =>
    if includes (url r) "/v1/time"
    then Replied (mkResponse 200 "OK" example_time_body)
    else Replied (mkResponse 200 "OK" "{}").

Definition example_clock : list event -> Z := fun _ => 1500000000000%Z.

Definition example_options : options :=
  mkOptions (Some "key") (Some "secret") None None None.

Definition example_args : call_args :=
  mkArgs "/v3/order" (DObj 0%nat) None None VUndefined VUndefined VUndefined None.

Definition clock_payload : list (string * value) :=
  [("symbol", VStr "BTCUSDT")].

Definition server_time_payload : list (string * value) :=
  [("symbol", VStr "BTCUSDT"); ("useServerTime", VBool true)].

Definition order_payload : list (string * value) :=
  [("symbol", VStr "BTCUSDT"); ("side", VStr "BUY"); ("quantity", VNum 1)].

Definition api_error_body : string :=
  "{" +:+ JSON.quoted "code" +:+ ":-1121," +:+ JSON.quoted "msg" +:+ ":"
  +:+ JSON.quoted "Invalid symbol." +:+ "}".

Definition empty_msg_body : string :=
  "{" +:+ JSON.quoted "code" +:+ ":-1000," +:+ JSON.quoted "msg" +:+ ":"
  +:+ JSON.quoted "" +:+ "}".

(** An error body whose [msg] cannot be converted to a string. *)
Definition unconvertible_msg_body : string :=
  "{" +:+ JSON.quoted "code" +:+ ":-1000," +:+ JSON.quoted "msg" +:+ ":{"
  +:+ JSON.quoted "toString" +:+ ":1}}".

(** A client whose clock returns [0]. *)
Definition zero_clock_options : options :=
  mkOptions (Some "key") (Some "secret") (Some (fun _ => VNum 0)) None None.

(** Responses of the market-data endpoints. *)
Definition example_klines_body : string :=
  "[[1,2,3,4,5,6,7,8,9,10,11,12]]".

Definition example_depth_body : string :=
  "{" +:+ JSON.quoted "lastUpdateId" +:+ ":7," +:+ JSON.quoted "asks"
  +:+ ":[[1,2]]," +:+ JSON.quoted "bids" +:+ ":[[3,4],[5,6]]}".

Definition example_aggTrades_body : string :=
  "[{" +:+ JSON.quoted "a" +:+ ":1," +:+ JSON.quoted "p" +:+ ":2,"
  +:+ JSON.quoted "q" +:+ ":3," +:+ JSON.quoted "f" +:+ ":4,"
  +:+ JSON.quoted "l" +:+ ":5," +:+ JSON.quoted "T" +:+ ":6,"
  +:+ JSON.quoted "m" +:+ ":true," +:+ JSON.quoted "M" +:+ ":true}]".

Definition example_ticker_body : string :=
  "[{" +:+ JSON.quoted "symbol" +:+ ":" +:+ JSON.quoted "ETHBTC" +:+ ","
  +:+ JSON.quoted "price" +:+ ":1},{"
  +:+ JSON.quoted "symbol" +:+ ":" +:+ JSON.quoted "LTCBTC" +:+ ","
  +:+ JSON.quoted "price" +:+ ":2},{"
  +:+ JSON.quoted "symbol" +:+ ":" +:+ JSON.quoted "ETHBTC" +:+ ","
  +:+ JSON.quoted "price" +:+ ":3}]".

Definition example_market : list event -> Request -> fetch_reply :=
  fun _ r =>
    Replied (mkResponse 200 "OK"
      (if includes (url r) "/v1/klines" then example_klines_body
       else if includes (url r) "/v1/depth" then example_depth_body
       else if includes (url r) "/v1/aggTrades" then example_aggTrades_body
       else if includes (url r) "/v1/ticker" then example_ticker_body
       else if includes (url r) "/v1/time" then example_time_body
       else "{}")).

(** A server whose every response is an empty object. *)
Definition example_empty_network : list event -> Request -> fetch_reply :=
  fun _ _ => Replied (mkResponse 200 "OK" "{}").

(** A store whose object [0] is the caller's payload. *)
Definition store_of (payload : obj) : state :=
  mkState {[ 0%nat := payload ]} [].

Section Collaborators.

(** [JSON.parse]; [None] when it throws. *)
Variable JSON_parse : string -> option value.

(** What the network answers to a request, given the run so far. *)
Variable network : list event -> Request -> fetch_reply.

(** [Date.now()] *)
Variable Date_now : list event -> Z.

Definition defaultGetTime : list event -> value :=
  fun h => VNum (Date_now h).

Definition fetch (r : Request) : Call Response :=
  let* _ := log (EvRequest r) in
  let* h := history in
  let reply := network h r in
  let* _ := log (EvResponse r reply) in
  match reply with
  | Replied res => ret res
  | Failed reason => reject (ExnFetch reason)
  end.

(** The body of the [try] block of [sendResult]; [None] when it
    throws. *)
Definition api_error_of (res : Response) (text : string) : option Error :=
  match JSON_parse text with
  | None => None
  | Some json =>
      match get_prop json "msg" with
      | None => None
      | Some msg =>
          match js_String (if truthy msg then msg
                           else VStr (status_line res)) with
          | None => None
          | Some text =>
              let error := newError text in
              match get_prop json "code" with
              | None => None
              | Some c =>
                  Some (mkError (message error) (Some c)
                          (response error) (responseText error))
              end
          end
      end
  end.

Definition transport_error_of (res : Response) (text : string) : Error :=
  let error := newError (status_line res +:+ " " +:+ text) in
  mkError (message error) (code error) (Some res) (Some text).

Definition sendResult (call : Call Response) : Call value :=
  then_ call (fun res =>
    if ok res then
      match JSON_parse (body res) with
      | Some v => ret v
      | None => reject (ExnSyntaxError (body res))
      end
    else
      let text := body res in
      throw (ExnError (match api_error_of res text with
                       | Some error => error
                       | None => transport_error_of res text
                       end))).

(** [publicCall], on a payload that the Query Encoder renders. *)
Definition publicCall (base apiPathBase : string) (a : call_args) : Call value :=
  let method := default "GET" (method a) in
  let headers := default [] (headers a) in
  let* q := deref (data a) in
  sendResult
    (fetch (mkRequest (base +:+ "/" +:+ apiPathBase +:+ path a +:+ makeQueryString q)
              method true headers (agent a))).

(** [publicCall] as it completes: the URL is built before the request
    is made, and what the Query Encoder throws then is thrown by the
    call. *)
Definition publicCall_completion (base apiPathBase : string) (a : call_args)
  : Call value :=
  let method := default "GET" (method a) in
  let headers := default [] (headers a) in
  let* q := deref (data a) in
  match makeQueryString_completion q with
  | inl e => throw e
  | inr query =>
      sendResult
        (fetch (mkRequest (base +:+ "/" +:+ apiPathBase +:+ path a +:+ query)
                  method true headers (agent a)))
  end.

Definition keyCall (apiKey : option string) (pubCall : call_args -> Call value)
    (a : call_args) : Call value :=
  let method := default "GET" (method a) in
  if missing apiKey then
    throw (ExnError (newError "You need to pass an API key to make this call."))
  else
    pubCall (mkArgs (path a) (data a) (Some method)
               (Some [("X-MBX-APIKEY", default "" apiKey)])
               VUndefined VUndefined VUndefined (agent a)).

(** The arguments of [pubCall({ path: '/v1/time', agent })]. *)
Definition time_args (ag : Agent) : call_args :=
  mkArgs "/v1/time" DUndefined None None VUndefined VUndefined VUndefined ag.

(** [r.serverTime] *)
Definition serverTime (r : value) : Call value :=
  match get_prop r "serverTime" with
  | Some t => ret t
  | None => throw ExnTypeError
  end.

(** The timestamp of a signed call (the conditional that starts the
    promise chain of [privateCall]). *)
Definition privateCall_timestamp (getTime : list event -> value)
    (pubCall : call_args -> Call value) (ag : Agent) (d : option obj)
  : Call value :=
  if match d with
     | Some o => truthy (obj_get "useServerTime" o)
     | None => false
     end
  then then_ (pubCall (time_args ag)) serverTime
  else
    let* h := history in
    let t := getTime h in
    let* _ := log (EvGetTime t) in
    ret t.

(** [crypto.createHmac('sha256', apiSecret).update(...).digest('hex')]
    on [{ ...data, timestamp }]. *)
Definition sign (apiSecret : string) (d : option obj) (timestamp : value)
  : Call string :=
  let msg := substr1 (makeQueryString
                        (Some (obj_set "timestamp" timestamp (spread d)))) in
  let signature := hmac_sha256_hex apiSecret msg in
  let* _ := log (EvHmac apiSecret msg signature) in
  ret signature.

(** The callback [timestamp => { ... }] of [privateCall]. *)
Definition privateCall_then (apiKey apiSecret base apiPathBase : string)
    (a : call_args) (data : data_arg) (method : string) (timestamp : value)
  : Call value :=
  let* _ := match data with
            | DObj l => modify l (obj_delete "useServerTime")
            | _ => ret tt
            end in
  let* d := deref data in
  let* signature := sign apiSecret d timestamp in
  let newData :=
    if truthy (noExtra a) then d
    else Some (obj_set "signature" (VStr signature)
                 (obj_set "timestamp" timestamp (spread d))) in
  sendResult
    (fetch
       (mkRequest
          (base
           +:+ (if includes (path a) "/wapi" || includes (path a) "/sapi"
                then "" else "/" +:+ apiPathBase)
           +:+ path a
           +:+ (if truthy (noData a) then "" else makeQueryString newData))
          method true [("X-MBX-APIKEY", apiKey)] (agent a))).

Definition privateCall (apiKey apiSecret : option string) (base apiPathBase : string)
    (getTime : option (list event -> value))
    (pubCall : call_args -> Call value) (a : call_args) : Call value :=
  let getTime := default defaultGetTime getTime in
  let* data := match data a with
               | DUndefined => let* l := alloc [] in ret (DObj l)
               | d => ret d
               end in
  let method := default "GET" (method a) in
  if missing apiKey || missing apiSecret then
    throw (ExnError (newError
      "You need to pass an API key and secret to make authenticated calls."))
  else
    let* d := deref data in
    then_ (privateCall_timestamp getTime pubCall (agent a) d)
      (privateCall_then (default "" apiKey) (default "" apiSecret)
         base apiPathBase a data method).

(** [list.includes(v)] for a list of string literals. *)
Definition includes_value (l : list string) (v : value) : bool :=
  match v with
  | VStr s => existsb (String.eqb s) l
  | _ => false
  end.

(** [payload = {}] *)
Definition default_payload (payload : data_arg) : Call data_arg :=
  match payload with
  | DUndefined => let* l := alloc [] in ret (DObj l)
  | d => ret d
  end.

(** Reading a property of [payload], which throws on [null]. *)
Definition payload_obj (payload : data_arg) : Call obj :=
  let* p := deref payload in
  match p with
  | Some o => ret o
  | None => throw ExnTypeError
  end.

Definition order (privCall : call_args -> Call value) (payload : data_arg)
    (url : string) (ag : Agent) : Call value :=
  let* payload := default_payload payload in
  let* p := payload_obj payload in
  let* newPayload :=
    if includes_value ["LIMIT"; "STOP_LOSS_LIMIT"; "TAKE_PROFIT_LIMIT"] (obj_get "type" p)
       || negb (truthy (obj_get "type" p))
    then let* l := alloc (spread_into [("timeInForce", VStr "GTC")] p) in ret (DObj l)
    else ret payload in
  let* _ := checkParams "order" newPayload ["symbol"; "side"; "quantity"] in
  let* np := deref newPayload in
  let* l := alloc (spread_into [("type", VStr "LIMIT")] (default [] np)) in
  privCall (mkArgs url (DObj l) (Some "POST") None VUndefined VUndefined VUndefined ag).

Definition futuresOrder (privCall : call_args -> Call value) (payload : data_arg)
    (url : string) (ag : Agent) : Call value :=
  let* payload := default_payload payload in
  let* p := payload_obj payload in
  let* newPayload :=
    if includes_value ["LIMIT"; "STOP"; "TAKE_PROFIT"] (obj_get "type" p)
       || negb (truthy (obj_get "type" p))
    then let* l := alloc (spread_into [("timeInForce", VStr "GTC")] p) in ret (DObj l)
    else ret payload in
  let* _ := if negb (truthy (obj_get "type" p))
            then match payload with
                 | DObj l => modify l (obj_set "type" (VStr "LIMIT"))
                 | _ => ret tt
                 end
            else ret tt in
  let* p := payload_obj payload in
  let type := obj_get "type" p in
  if truthy type && includes_value ["MARKET"] type && truthy (obj_get "timeInForce" p)
  then throw (ExnError (newError "timeInForce parameter cannot be send with type MARKET"))
  else
    let* _ := checkParams "futuresOrder" newPayload
                (["symbol"; "side"; "type"; "quantity"]
                 ++ (if truthy type && includes_value ["LIMIT"] type
                     then ["price"; "timeInForce"] else [])
                 ++ (if truthy type && includes_value ["STOP"; "TAKE_PROFIT"] type
                     then ["price"; "stopPrice"] else [])
                 ++ (if truthy type && includes_value ["STOP_MARKET"; "TAKE_PROFIT_MARKET"] type
                     then ["stopPrice"] else [])) in
    privCall (mkArgs url newPayload (Some "POST") None VUndefined VUndefined VUndefined ag).

(** The fields the futures order wrapper requires of an order of a
    given, truthy, type. *)
Definition futures_required (type : value) : list string :=
  ["symbol"; "side"; "type"; "quantity"]
  ++ (if includes_value ["LIMIT"] type then ["price"; "timeInForce"] else [])
  ++ (if includes_value ["STOP"; "TAKE_PROFIT"] type
      then ["price"; "stopPrice"] else [])
  ++ (if includes_value ["STOP_MARKET"; "TAKE_PROFIT_MARKET"] type
      then ["stopPrice"] else []).

(** *** Responses made friendlier

    The callbacks below read the properties [lastUpdateId], [asks],
    [bids], [a], [p], [q], [f], [l], [T], [m], [symbol], [price],
    [brackets] and [tradeFee] of a response, none of which is inherited,
    so [get_prop] reads them. *)

Definition candleFields : list string :=
  ["openTime"; "open"; "high"; "low"; "close"; "volume"; "closeTime";
   "quoteAssetVolume"; "trades"; "buyBaseAssetVolume"; "buyQuoteAssetVolume"].

(** A callback that returns a value, or throws a [TypeError]. *)
Definition returns (r : option value) : Call value :=
  match r with
  | Some v => ret v
  | None => throw ExnTypeError
  end.

(** [lodash.zipobject] on an array of values: the names are assigned in
    turn, each the value at its position, [undefined] past the end. *)
Fixpoint zipObject (props : list string) (values : list value) (result : obj) : obj :=
  match props with
  | [] => result
  | k :: props' =>
      zipObject props' (tl values) (obj_assign k (hd VUndefined values) result)
  end.

(** The first [n] values of a list, with [undefined] for those it
    lacks. *)
Fixpoint take_padded (n : nat) (values : list value) : list value :=
  match n with
  | O => []
  | S n' => hd VUndefined values :: take_padded n' (tl values)
  end.

(** [lodash.zipobject] on a second argument that is not an array. *)
Variable zip_other : list string -> value -> list (string * value).

Definition zip (props : list string) (values : value) : obj :=
  match values with
  | VArr vs => zipObject props vs []
  | _ => zip_other props values
  end.

Fixpoint map_values (f : value -> option value) (l : list value)
  : option (list value) :=
  match l with
  | [] => Some []
  | x :: r =>
      match f x, map_values f r with
      | Some y, Some ys => Some (y :: ys)
      | _, _ => None
      end
  end.

(** [a.map(f)]; [None] is the [TypeError] of a receiver that is not an
    array, or of [f]. *)
Definition array_map (f : value -> option value) (a : value) : option value :=
  match a with
  | VArr l =>
      match map_values f l with
      | Some l' => Some (VArr l')
      | None => None
      end
  | _ => None
  end.

Definition candles (pubCall : call_args -> Call value) (payload : data_arg)
    (ag : Agent) : Call value :=
  then_ (pubCall (mkArgs "/v1/klines" payload None None
                    VUndefined VUndefined VUndefined ag))
    (fun candles =>
       returns (array_map (fun candle => Some (VObj (zip candleFields candle)))
                  candles)).

(** The callback [({ lastUpdateId, asks, bids }) => ...] of [book]. *)
Definition book_then (r : value) : option value :=
  match get_prop r "lastUpdateId", get_prop r "asks", get_prop r "bids" with
  | Some lastUpdateId, Some asks, Some bids =>
      match array_map (fun a => Some (VObj (zip ["price"; "qty"] a))) asks with
      | Some asks' =>
          match array_map (fun b => Some (VObj (zip ["price"; "qty"] b))) bids with
          | Some bids' =>
              Some (VObj (obj_literal [("lastUpdateId", lastUpdateId);
                                       ("asks", asks'); ("bids", bids')]))
          | None => None
          end
      | None => None
      end
  | _, _, _ => None
  end.

Definition book (pubCall : call_args -> Call value) (payload : data_arg)
    (ag : Agent) : Call value :=
  then_ (pubCall (mkArgs "/v1/depth" payload None None
                    VUndefined VUndefined VUndefined ag))
    (fun r => returns (book_then r)).

(** The callback [trade => ({ aggId: trade.a, ... })] of [aggTrades]. *)
Definition aggTrade (trade : value) : option value :=
  match get_prop trade "a", get_prop trade "p", get_prop trade "q",
        get_prop trade "f", get_prop trade "l", get_prop trade "T",
        get_prop trade "m" with
  | Some a, Some p, Some q, Some f, Some l, Some T, Some m =>
      Some (VObj (obj_literal [("aggId", a); ("price", p); ("qty", q);
                               ("firstTradeId", f); ("lastTradeId", l);
                               ("time", T); ("isBuyerMaker", m)]))
  | _, _, _, _, _, _, _ => None
  end.

Definition aggTrades (pubCall : call_args -> Call value) (payload : data_arg)
    (ag : Agent) : Call value :=
  then_ (pubCall (mkArgs "/v1/aggTrades" payload None None
                    VUndefined VUndefined VUndefined ag))
    (fun trades => returns (array_map aggTrade trades)).

(** [r.reduce((out, cur) => ((out[cur.symbol] = pick(cur)), out), {})] on
    the elements of [r]; [None] is the [TypeError] of an element that is
    [null] or [undefined], or whose [symbol] cannot be converted to a
    property name. *)
Fixpoint index_by_symbol (pick : value -> option value) (r : list value)
    (out : obj) : option obj :=
  match r with
  | [] => Some out
  | cur :: rest =>
      match get_prop cur "symbol", pick cur with
      | Some symbol, Some v =>
          match js_String symbol with
          | Some name => index_by_symbol pick rest (obj_assign name v out)
          | None => None
          end
      | _, _ => None
      end
  end.

Definition reduce_by_symbol (pick : value -> option value) (r : value)
  : option value :=
  match r with
  | VArr l =>
      match index_by_symbol pick l [] with
      | Some out => Some (VObj out)
      | None => None
      end
  | _ => None
  end.

(** The name an element of a response is filed under, and whether an
    element can be read at all. *)
Definition symbol_of (cur : value) : string :=
  to_string (default VUndefined (get_prop cur "symbol")).

Definition readable (cur : value) : bool :=
  match cur with
  | VUndefined | VNull => false
  | _ => true
  end.

(** An element of a response can be filed when it can be read and its
    symbol converts to a property name. *)
Definition filed (cur : value) : bool :=
  readable cur && convertible (default VUndefined (get_prop cur "symbol")).

(** *** The client built by the default export *)

Section Client.

Variable opts : options.

(** [opts.httpBase || BASE] *)
Definition base : string :=
  if missing (httpBase opts) then BASE else default "" (httpBase opts).
Definition futureBase : string :=
  if missing (httpFutureBase opts) then FUTURE_BASE else default "" (httpFutureBase opts).

Definition pubCall : call_args -> Call value := publicCall base API_PATH_BASE.
Definition privCall : call_args -> Call value :=
  privateCall (apiKey opts) (apiSecret opts) base API_PATH_BASE (getTime opts) pubCall.
Definition kCall : call_args -> Call value := keyCall (apiKey opts) pubCall.
Definition futuresPubCall : call_args -> Call value :=
  publicCall futureBase FUTURES_API_PATH_BASE.
Definition futuresPrivCall : call_args -> Call value :=
  privateCall (apiKey opts) (apiSecret opts) futureBase FUTURES_API_PATH_BASE
    (getTime opts) futuresPubCall.
Definition futuresKCall : call_args -> Call value := keyCall (apiKey opts) futuresPubCall.

Definition client_order (payload : data_arg) (ag : Agent) : Call value :=
  order privCall payload "/v3/order" ag.

Definition client_futuresOrder (payload : data_arg) (ag : Agent) : Call value :=
  futuresOrder futuresPrivCall payload "/v1/order" ag.

Definition keepDataStream (payload : data_arg) (ag : Agent) : Call value :=
  privCall (mkArgs "/v1/userDataStream" payload (Some "PUT") None
              (VBool false) VUndefined (VBool true) ag).

Definition closeDataStream (payload : data_arg) (ag : Agent) : Call value :=
  privCall (mkArgs "/v1/userDataStream" payload (Some "DELETE") None
              (VBool false) VUndefined (VBool true) ag).

Definition futuresKeepUserDataStream (payload : data_arg) (ag : Agent) : Call value :=
  futuresPrivCall (mkArgs "/v1/listenKey" payload (Some "PUT") None
                     (VBool false) VUndefined (VBool true) ag).

Definition futuresCloseUserDataStream (payload : data_arg) (ag : Agent) : Call value :=
  futuresPrivCall (mkArgs "/v1/listenKey" payload (Some "DELETE") None
                     (VBool false) VUndefined (VBool true) ag).

(** Other operations of the catalog. *)

Definition ping (ag : Agent) : Call value :=
  then_ (pubCall (mkArgs "/v1/ping" DUndefined None None
                    VUndefined VUndefined VUndefined ag))
    (fun _ => ret (VBool true)).

Definition time (ag : Agent) : Call value :=
  then_ (pubCall (time_args ag)) serverTime.

Definition client_book (payload : data_arg) (ag : Agent) : Call value :=
  let* _ := checkParams "book" payload ["symbol"] in
  book pubCall payload ag.

Definition trades (payload : data_arg) (ag : Agent) : Call value :=
  let* _ := checkParams "trades" payload ["symbol"] in
  pubCall (mkArgs "/v1/trades" payload None None VUndefined VUndefined VUndefined ag).

Definition tradesHistory (payload : data_arg) (ag : Agent) : Call value :=
  let* _ := checkParams "tradesHistory" payload ["symbol"] in
  kCall (mkArgs "/v1/historicalTrades" payload None None
           VUndefined VUndefined VUndefined ag).

Definition client_aggTrades (payload : data_arg) (ag : Agent) : Call value :=
  let* _ := checkParams "aggTrades" payload ["symbol"] in
  aggTrades pubCall payload ag.

Definition client_candles (payload : data_arg) (ag : Agent) : Call value :=
  let* _ := checkParams "candles" payload ["symbol"; "interval"] in
  candles pubCall payload ag.

Definition prices (ag : Agent) : Call value :=
  then_ (pubCall (mkArgs "/v1/ticker/allPrices" DUndefined None None
                    VUndefined VUndefined VUndefined ag))
    (fun r => returns (reduce_by_symbol (fun cur => get_prop cur "price") r)).

Definition allBookTickers (ag : Agent) : Call value :=
  then_ (pubCall (mkArgs "/v1/ticker/allBookTickers" DUndefined None None
                    VUndefined VUndefined VUndefined ag))
    (fun r => returns (reduce_by_symbol (fun cur => Some cur) r)).

Definition withdraw (payload : data_arg) (ag : Agent) : Call value :=
  privCall (mkArgs "/wapi/v3/withdraw.html" payload (Some "POST") None
              VUndefined VUndefined VUndefined ag).

Definition tradeFee (payload : data_arg) (ag : Agent) : Call value :=
  then_ (privCall (mkArgs "/wapi/v3/tradeFee.html" payload (Some "GET") None
                     VUndefined VUndefined VUndefined ag))
    (fun res => returns (get_prop res "tradeFee")).

Definition getDataStream (ag : Agent) : Call value :=
  privCall (mkArgs "/v1/userDataStream" DNull (Some "POST") None
              (VBool true) VUndefined VUndefined ag).

Definition futuresChangePositionMode (payload : data_arg) (ag : Agent)
  : Call value :=
  let* _ := checkParams "futuresChangePositionMode" payload ["dualSidePosition"] in
  let* p := deref payload in
  let* l := alloc (obj_set "dualSidePosition"
                     (VStr (if truthy (obj_get "dualSidePosition" (default [] p))
                            then "true" else "false"))
                     (spread p)) in
  futuresPrivCall (mkArgs "/v1/positionSide/dual" (DObj l) (Some "POST") None
                     VUndefined VUndefined VUndefined ag).

Definition futuresPrice (payload : data_arg) (ag : Agent) : Call value :=
  then_ (futuresPubCall (mkArgs "/v1/ticker/price" payload (Some "GET") None
                           VUndefined VUndefined VUndefined ag))
    (fun r =>
       match r with
       | VArr _ =>
           let* p := payload_obj payload in
           if truthy (obj_get "reduce" p)
           then returns (reduce_by_symbol (fun cur => get_prop cur "price") r)
           else ret r
       | _ => ret r
       end).

Definition futuresBookTicker (payload : data_arg) (ag : Agent) : Call value :=
  then_ (futuresPubCall (mkArgs "/v1/ticker/bookTicker" payload (Some "GET") None
                           VUndefined VUndefined VUndefined ag))
    (fun r =>
       let* p := payload_obj payload in
       if truthy (obj_get "reduce" p)
       then match r with
            | VArr _ => returns (reduce_by_symbol (fun cur => Some cur) r)
            | _ => ret r
            end
       else ret r).

Definition futuresLeverageBracket (payload : data_arg) (ag : Agent) : Call value :=
  then_ (futuresPubCall (mkArgs "/v1/leverageBracket" payload (Some "GET") None
                           VUndefined VUndefined VUndefined ag))
    (fun r =>
       match r with
       | VArr _ =>
           let* p := payload_obj payload in
           if truthy (obj_get "reduce" p)
           then returns (reduce_by_symbol (fun cur => get_prop cur "brackets") r)
           else ret r
       | _ => returns (get_prop r "brackets")
       end).

Definition futuresAccountTransfer (payload : data_arg) (ag : Agent) : Call value :=
  let* _ := checkParams "futuresAccountTransfer" payload ["asset"; "amount"; "type"] in
  privCall (mkArgs "/sapi/v1/futures/transfer " payload (Some "POST") None
              VUndefined VUndefined VUndefined ag).

Definition futuresGetUserDataStream (payload : data_arg) (ag : Agent) : Call value :=
  futuresPrivCall (mkArgs "/v1/listenKey" payload (Some "POST") None
                     (VBool true) VUndefined VUndefined ag).

End Client.

(** The time the server-time endpoint returned, if it did. *)
Definition server_time_of (reply : fetch_reply) : option value :=
  match reply with
  | Replied res =>
      if ok res then
        match JSON_parse (body res) with
        | Some r => get_prop r "serverTime"
        | None => None
        end
      else None
  | Failed _ => None
  end.

(** The request of the server-time endpoint. *)
Definition time_request (base apiPathBase : string) (ag : Agent) : Request :=
  mkRequest (base +:+ "/" +:+ apiPathBase +:+ "/v1/time") "GET" true [] ag.

(** The request a signed call makes for a payload and a timestamp. *)
Definition signed_request (k s base apiPathBase : string) (a : call_args)
    (payload : obj) (ts : value) : Request :=
  mkRequest
    (final_url base apiPathBase (path a) (noData a)
       (final_params (noExtra a) payload ts
          (hmac_sha256_hex s (signed_message payload ts))))
    (default "GET" (method a)) true [("X-MBX-APIKEY", k)] (agent a).

(** The events of the callback of a signed call. *)
Definition signed_events (k s base apiPathBase : string) (a : call_args)
    (payload : obj) (ts : value) (reply : fetch_reply) : list event :=
  [EvHmac s (signed_message payload ts)
     (hmac_sha256_hex s (signed_message payload ts));
   EvRequest (signed_request k s base apiPathBase a payload ts);
   EvResponse (signed_request k s base apiPathBase a payload ts) reply].

(** What a signed call without the no-data and no-extra flags comes to,
    given how its timestamp settles. *)
Definition signed_as (k s : string) (l : loc) (o : obj) (ag : Agent)
    (st : state) (url m : string) (timestamp run : outcome value * state)
  : Prop :=
  let payload := obj_delete "useServerTime" o in
  match timestamp with
  | (Fulfilled ts, st1) =>
      let signature := hmac_sha256_hex s (signed_message payload ts) in
      let params :=
        obj_set "signature" (VStr signature) (obj_set "timestamp" ts payload) in
      let query := String.concat "&" (query_pairs params) in
      run = sendResult
              (fetch (mkRequest (url +:+ "?" +:+ query) m true
                        [("X-MBX-APIKEY", k)] ag))
              (mkState (<[l := payload]> (heap st))
                 (trace st1 ++ [EvHmac s (signed_message payload ts) signature]))
      /\ exists pairs : list (string * string),
           parse_query query = Some pairs
           /\ In ("signature", signature) pairs
           /\ (In "timestamp" (map fst pairs) <-> truthy ts = true)
           /\ (truthy ts = true -> In ("timestamp", to_string ts) pairs)
  | (Rejected e, st1) => run = (Rejected e, st1)
  | (Thrown _, _) => False
  end.

(** The same arguments with another [noExtraData]. *)
Definition with_noExtraData (x : value) (a : call_args) : call_args :=
  mkArgs (path a) (data a) (method a) (headers a) (noData a) (noExtra a) x (agent a).

(** How a request ends, given the reply of the network. *)
Definition settled (reply : fetch_reply) : outcome value :=
  match reply with
  | Replied res =>
      if ok res then
        match JSON_parse (body res) with
        | Some v => Fulfilled v
        | None => Rejected (ExnSyntaxError (body res))
        end
      else
        Rejected (ExnError (match api_error_of res (body res) with
                            | Some error => error
                            | None => transport_error_of res (body res)
                            end))
  | Failed reason => Rejected (ExnFetch reason)
  end.

(** The request of a public call whose payload is [q]. *)
Definition public_request (base apiPathBase : string) (a : call_args)
    (q : option obj) : Request :=
  mkRequest (base +:+ "/" +:+ apiPathBase +:+ path a +:+ makeQueryString q)
    (default "GET" (method a)) true (default [] (headers a)) (agent a).

(** The object behind an argument in a store. *)
Definition payload_in (h : gmap loc obj) (d : data_arg) : option obj :=
  match d with
  | DObj l => Some (default [] (h !! l))
  | _ => None
  end.

(** What a promise that settled as [out] becomes after [.then(f)] for a
    callback that returns or throws. *)
Definition and_then (f : value -> option value) (out : outcome value)
  : outcome value :=
  match out with
  | Fulfilled v =>
      match f v with
      | Some v' => Fulfilled v'
      | None => Rejected ExnTypeError
      end
  | other => other
  end.

End Collaborators.

(** * Properties *)

(** ** Objects *)

Lemma obj_has_In (k : string) (o : obj) :
  obj_has k o = true <-> In k (Object_keys o).
Proof.
  induction o as [|[k' v] r IH]; simpl.
  - split; [discriminate | tauto].
  - rewrite orb_true_iff, IH, String.eqb_eq. tauto.
Qed.

Lemma existsb_eqb_In (k : string) (ks : list string) :
  existsb (String.eqb k) ks = true <-> In k ks.
Proof.
  rewrite existsb_exists. split.
  - intros (x & Hx & E). apply String.eqb_eq in E. now subst.
  - intros H. exists k. split; [assumption | apply String.eqb_refl].
Qed.

Lemma distinct_cons (k : string) (ks : list string) :
  distinct (k :: ks) = true <-> ~ In k ks /\ distinct ks = true.
Proof.
  simpl. rewrite andb_true_iff, negb_true_iff, <- existsb_eqb_In.
  destruct (existsb (String.eqb k) ks); intuition congruence.
Qed.

Lemma distinct_app_r (xs ys : list string) :
  distinct (xs ++ ys) = true -> distinct ys = true.
Proof.
  induction xs as [|x xs IH]; [trivial|].
  rewrite <- app_comm_cons, distinct_cons. tauto.
Qed.

Lemma distinct_middle (xs ys : list string) (k : string) :
  distinct (xs ++ k :: ys) = true -> ~ In k xs.
Proof.
  induction xs as [|x xs IH]; [tauto|].
  rewrite <- app_comm_cons, distinct_cons. intros [Hx Hd] [->|Hin].
  - apply Hx, in_or_app. right. now left.
  - now apply IH.
Qed.

Lemma obj_get_distinct (o : obj) (k : string) (v : value) :
  distinct (Object_keys o) = true -> In (k, v) o -> obj_get k o = v.
Proof.
  induction o as [|[k' v'] r IH]; simpl; [tauto|].
  fold (Object_keys r). intros Hd [E|Hin].
  - inversion E; subst. now rewrite String.eqb_refl.
  - apply (distinct_cons k' (Object_keys r)) in Hd as [Hn Hd].
    destruct (String.eqb_spec k' k) as [->|_].
    + exfalso. apply Hn. change k with (fst (k, v)). now apply in_map.
    + now apply IH.
Qed.

(** Filtering and rendering the keys by look-up is filtering and
    rendering the entries themselves. *)
Lemma keys_by_lookup (o l : obj) :
  (forall kv, In kv l -> obj_get (fst kv) o = snd kv) ->
  map (fun k => encodeURIComponent k +:+ "="
                +:+ encodeURIComponent (to_string (obj_get k o)))
    (List.filter (fun k => truthy (obj_get k o)) (Object_keys l))
  = query_pairs l.
Proof.
  unfold query_pairs, render_pair.
  induction l as [|[k v] r IH]; intros H; [reflexivity|].
  assert (Hk : obj_get k o = v) by exact (H (k, v) (or_introl eq_refl)).
  assert (Hr : forall kv, In kv r -> obj_get (fst kv) o = snd kv)
    by (intros kv Hin; apply H; now right).
  simpl. rewrite Hk. destruct (truthy v); simpl.
  - rewrite Hk. f_equal. now apply IH.
  - now apply IH.
Qed.

Lemma makeQueryString_pairs (o : obj) :
  distinct (Object_keys o) = true ->
  makeQueryString (Some o) = "?" +:+ String.concat "&" (query_pairs o).
Proof.
  intros Hd. unfold makeQueryString. do 2 f_equal.
  apply keys_by_lookup. intros [k v] Hin. now apply obj_get_distinct.
Qed.

(** *** Assignment *)

Lemma obj_has_app (k : string) (o1 o2 : obj) :
  obj_has k (o1 ++ o2) = obj_has k o1 || obj_has k o2.
Proof.
  induction o1 as [|[k' v] r IH]; simpl; [reflexivity|].
  now rewrite IH, orb_assoc.
Qed.

Lemma obj_has_false_get (k : string) (o : obj) :
  obj_has k o = false -> obj_get k o = VUndefined.
Proof.
  induction o as [|[k' v] r IH]; simpl; [reflexivity|].
  destruct (k' =? k); simpl; [discriminate | exact IH].
Qed.

(** A name that is not inherited is read off the own properties. *)
Lemma obj_member_own (k : string) (o : obj) :
  obj_get k Object_prototype = VUndefined -> obj_member k o = obj_get k o.
Proof.
  intros H. unfold obj_member. destruct (obj_has k o) eqn:E; [reflexivity|].
  now rewrite H, obj_has_false_get.
Qed.

Lemma obj_set_fresh_named (k : string) (v : value) (o : obj) :
  is_index k = false -> obj_has k o = false -> obj_set k v o = o ++ [(k, v)].
Proof.
  unfold obj_set, is_index. intros Hi ->.
  destruct (array_index k); [discriminate | reflexivity].
Qed.

Lemma Object_keys_replace (k : string) (v : value) (o : obj) :
  Object_keys (obj_replace k v o) = Object_keys o.
Proof.
  induction o as [|[k' v'] r IH]; simpl; [reflexivity|].
  destruct (k' =? k); simpl; [reflexivity|]. f_equal. exact IH.
Qed.

Lemma obj_get_replace (k k' : string) (v : value) (o : obj) :
  obj_get k' (obj_replace k v o)
  = if (k =? k') && obj_has k o then v else obj_get k' o.
Proof.
  induction o as [|[k0 v0] r IH]; simpl.
  - now rewrite andb_false_r.
  - destruct (String.eqb_spec k0 k) as [->|Hne]; simpl.
    + destruct (String.eqb_spec k k'); reflexivity.
    + rewrite IH. destruct (String.eqb_spec k0 k') as [->|Hne'].
      * destruct (String.eqb_spec k k'); [congruence | reflexivity].
      * reflexivity.
Qed.

Lemma obj_get_app (k : string) (o1 o2 : obj) :
  obj_get k (o1 ++ o2) = if obj_has k o1 then obj_get k o1 else obj_get k o2.
Proof.
  induction o1 as [|[k' v] r IH]; simpl; [reflexivity|].
  destruct (k' =? k); simpl; [reflexivity | exact IH].
Qed.

(** Reading back a named property after an assignment. *)
Lemma obj_get_set_named (k k' : string) (v : value) (o : obj) :
  is_index k = false ->
  obj_get k' (obj_set k v o) = if k =? k' then v else obj_get k' o.
Proof.
  intros Hi. unfold obj_set. destruct (obj_has k o) eqn:Hh.
  - rewrite obj_get_replace, Hh, andb_true_r. reflexivity.
  - unfold is_index in Hi. destruct (array_index k); [discriminate|].
    rewrite obj_get_app. simpl.
    destruct (String.eqb_spec k k') as [->|Hne].
    + now rewrite Hh.
    + destruct (obj_has k' o) eqn:Hh'; [reflexivity|].
      now rewrite obj_has_false_get.
Qed.

Lemma obj_has_set_named (k k' : string) (v : value) (o : obj) :
  is_index k = false ->
  obj_has k' (obj_set k v o) = (k =? k') || obj_has k' o.
Proof.
  intros Hi. unfold obj_set. destruct (obj_has k o) eqn:Hh.
  - destruct (obj_has k' (obj_replace k v o)) eqn:E.
    + apply obj_has_In in E. rewrite Object_keys_replace in E.
      apply obj_has_In in E. rewrite E. now rewrite orb_true_r.
    + destruct (obj_has k' o) eqn:E'.
      * apply obj_has_In in E'. rewrite <- (Object_keys_replace k v) in E'.
        apply obj_has_In in E'. congruence.
      * rewrite orb_false_r. destruct (String.eqb_spec k k') as [->|_]; [|reflexivity].
        rewrite Hh in E'. discriminate.
  - unfold is_index in Hi. destruct (array_index k); [discriminate|].
    rewrite obj_has_app. simpl. rewrite orb_false_r. apply orb_comm.
Qed.

Lemma distinct_snoc (ks : list string) (k : string) :
  distinct ks = true -> ~ In k ks -> distinct (ks ++ [k]) = true.
Proof.
  induction ks as [|x r IH]; intros Hd Hn; [reflexivity|].
  rewrite <- app_comm_cons. apply distinct_cons in Hd as [Hx Hd].
  apply distinct_cons. split.
  - intros Hin. apply in_app_or in Hin as [Hin|[->|[]]]; [tauto|].
    apply Hn. now left.
  - apply IH; [assumption|]. intros Hin. apply Hn. now right.
Qed.

Lemma distinct_set_named (k : string) (v : value) (o : obj) :
  is_index k = false ->
  distinct (Object_keys o) = true ->
  distinct (Object_keys (obj_set k v o)) = true.
Proof.
  intros Hi Hd. unfold obj_set. destruct (obj_has k o) eqn:Hh.
  - now rewrite Object_keys_replace.
  - unfold is_index in Hi. destruct (array_index k); [discriminate|].
    unfold Object_keys. rewrite map_app. apply distinct_snoc; [assumption|].
    intros Hin. apply (proj2 (obj_has_In k o)) in Hin.
    rewrite Hh in Hin. discriminate.
Qed.

Lemma In_set_named (k : string) (v : value) (o : obj) :
  is_index k = false -> In (k, v) (obj_set k v o).
Proof.
  intros Hi. unfold obj_set. destruct (obj_has k o) eqn:Hh.
  - induction o as [|[k' v'] r IH]; simpl in *; [discriminate|].
    destruct (String.eqb_spec k' k) as [->|Hne]; simpl in *.
    + now left.
    + right. now apply IH.
  - unfold is_index in Hi. destruct (array_index k); [discriminate|].
    apply in_or_app. right. now left.
Qed.

Lemma obj_get_add_index (n : N) (k k' : string) (v : value) (o : obj) :
  obj_has k o = false ->
  obj_get k' (obj_add_index n k v o) = if k =? k' then v else obj_get k' o.
Proof.
  induction o as [|[k0 v0] r IH]; simpl; [reflexivity|].
  intros H. apply orb_false_iff in H as [Hk0 Hr].
  destruct (array_index k0) as [m|]; [destruct (m <? n)%N|]; simpl;
    try reflexivity.
  rewrite (IH Hr). destruct (String.eqb_spec k0 k') as [->|_]; [|reflexivity].
  now rewrite String.eqb_sym, Hk0.
Qed.

(** Reading back after an assignment. *)
Lemma obj_get_set (k k' : string) (v : value) (o : obj) :
  obj_get k' (obj_set k v o) = if k =? k' then v else obj_get k' o.
Proof.
  unfold obj_set. destruct (obj_has k o) eqn:Hh.
  - rewrite obj_get_replace, Hh, andb_true_r. reflexivity.
  - destruct (array_index k) as [n|].
    + now apply obj_get_add_index.
    + rewrite obj_get_app. simpl.
      destruct (String.eqb_spec k k') as [->|Hne].
      * now rewrite Hh.
      * destruct (obj_has k' o) eqn:Hh'; [reflexivity|].
        now rewrite obj_has_false_get.
Qed.

(** Reading a copy [{ ...acc, ...src }]. *)
Lemma obj_get_spread_into (k : string) (src acc : obj) :
  distinct (Object_keys src) = true ->
  obj_get k (spread_into acc src)
  = if obj_has k src then obj_get k src else obj_get k acc.
Proof.
  revert acc. induction src as [|[k0 v0] r IH]; intros acc Hd; [reflexivity|].
  change (Object_keys ((k0, v0) :: r)) with (k0 :: Object_keys r) in Hd.
  apply distinct_cons in Hd as [Hn Hd].
  change (spread_into acc ((k0, v0) :: r))
    with (spread_into (obj_set k0 v0 acc) r).
  rewrite (IH _ Hd), obj_get_set. simpl.
  destruct (String.eqb_spec k0 k) as [->|_]; simpl; [|reflexivity].
  destruct (obj_has k r) eqn:E; [|reflexivity].
  apply obj_has_In in E. contradiction.
Qed.

(** *** Property order and copies *)

Lemma ordered_from_lower (lb n : N) (acc r : obj) (k : string) (v : value) :
  ordered_from lb (acc ++ (k, v) :: r) = true ->
  array_index k = Some n -> (lb <= n)%N.
Proof.
  revert lb. induction acc as [|[k' v'] acc IH]; intros lb; simpl.
  - intros H E. rewrite E in H. apply andb_true_iff in H as [H _].
    now apply N.leb_le.
  - destruct (array_index k') as [m|] eqn:Em.
    + intros H E. apply andb_true_iff in H as [Hm H].
      apply N.leb_le in Hm. specialize (IH _ H E). lia.
    + intros H E. rewrite forallb_app in H.
      apply andb_true_iff in H as [_ H]. simpl in H.
      unfold is_index in H. rewrite E in H. discriminate.
Qed.

Lemma ordered_from_prefix (lb n : N) (acc r : obj) (k : string) (v : value) :
  ordered_from lb (acc ++ (k, v) :: r) = true ->
  array_index k = Some n ->
  Forall (fun kv => exists m, array_index (fst kv) = Some m /\ (m < n)%N) acc.
Proof.
  revert lb. induction acc as [|[k' v'] acc IH]; intros lb; simpl.
  - constructor.
  - destruct (array_index k') as [m|] eqn:Em.
    + intros H E. apply andb_true_iff in H as [_ H]. constructor.
      * exists m. split; [exact Em|].
        pose proof (ordered_from_lower _ _ _ _ _ _ H E). lia.
      * now apply (IH (m + 1)%N).
    + intros H E. rewrite forallb_app in H.
      apply andb_true_iff in H as [_ H]. simpl in H.
      unfold is_index in H. rewrite E in H. discriminate.
Qed.

Lemma obj_add_index_last (n : N) (k : string) (v : value) (acc : obj) :
  Forall (fun kv => exists m, array_index (fst kv) = Some m /\ (m < n)%N) acc ->
  obj_add_index n k v acc = acc ++ [(k, v)].
Proof.
  induction 1 as [|[k' v'] acc (m & Em & Hm) _ IH]; simpl; [reflexivity|].
  simpl in Em. rewrite Em. apply N.ltb_lt in Hm. rewrite Hm. now rewrite IH.
Qed.

(** Assigning the next property of a well-formed object to the ones
    before it puts it last. *)
Lemma obj_set_next (acc r : obj) (k : string) (v : value) :
  distinct (Object_keys (acc ++ (k, v) :: r)) = true ->
  ordered_from 0 (acc ++ (k, v) :: r) = true ->
  obj_set k v acc = acc ++ [(k, v)].
Proof.
  intros Hd Ho. unfold obj_set.
  assert (Hh : obj_has k acc = false).
  { destruct (obj_has k acc) eqn:E; [|reflexivity].
    apply obj_has_In in E. unfold Object_keys in Hd. rewrite map_app in Hd.
    now apply distinct_middle in Hd. }
  rewrite Hh. destruct (array_index k) as [n|] eqn:E; [|reflexivity].
  apply obj_add_index_last. exact (ordered_from_prefix _ _ _ _ _ _ Ho E).
Qed.

Lemma spread_into_app (src acc : obj) :
  distinct (Object_keys (acc ++ src)) = true ->
  ordered_from 0 (acc ++ src) = true ->
  spread_into acc src = acc ++ src.
Proof.
  revert acc. induction src as [|[k v] r IH]; intros acc Hd Ho.
  - now rewrite app_nil_r.
  - unfold spread_into. simpl. rewrite (obj_set_next acc r k v Hd Ho).
    change (spread_into (acc ++ [(k, v)]) r = acc ++ (k, v) :: r).
    replace (acc ++ (k, v) :: r) with ((acc ++ [(k, v)]) ++ r) in *
      by now rewrite <- app_assoc.
    now apply IH.
Qed.

(** Copying a well-formed object gives the same properties in the same
    order. *)
Lemma spread_wf (o : obj) : wf_obj o = true -> spread (Some o) = o.
Proof.
  unfold wf_obj. intros H. apply andb_true_iff in H as [Hd Ho].
  now apply (spread_into_app o []).
Qed.

(** An object literal of named properties keeps them as written. *)
Lemma ordered_from_named (lb : N) (o : obj) :
  forallb (fun kv => negb (is_index (fst kv))) o = true ->
  ordered_from lb o = true.
Proof.
  destruct o as [|[k v] r]; simpl; [reflexivity|].
  unfold is_index at 1. intros H. apply andb_true_iff in H as [Hk Hr].
  destruct (array_index k); [discriminate | exact Hr].
Qed.

Lemma obj_literal_named (entries : list (string * value)) :
  distinct (map fst entries) = true ->
  forallb (fun kv => negb (is_index (fst kv))) entries = true ->
  obj_literal entries = entries.
Proof.
  intros Hd Hn. apply (spread_into_app entries []); [exact Hd|].
  now apply ordered_from_named.
Qed.

(** *** Deletion *)

Lemma obj_delete_absent (k : string) (o : obj) :
  obj_has k o = false -> obj_delete k o = o.
Proof.
  induction o as [|[k' v] r IH]; simpl; [reflexivity|].
  intros H. apply orb_false_iff in H as [Hk Hr]. rewrite Hk. now rewrite IH.
Qed.

Lemma Object_keys_delete (k x : string) (o : obj) :
  In x (Object_keys (obj_delete k o)) -> In x (Object_keys o).
Proof.
  induction o as [|[k' v] r IH]; simpl; [tauto|].
  destruct (k' =? k); simpl; tauto.
Qed.

Lemma distinct_delete (k : string) (o : obj) :
  distinct (Object_keys o) = true ->
  distinct (Object_keys (obj_delete k o)) = true.
Proof.
  induction o as [|[k' v] r IH]; [trivial|].
  change (Object_keys ((k', v) :: r)) with (k' :: Object_keys r).
  intros H. apply distinct_cons in H as [Hn Hd]. simpl.
  destruct (k' =? k); [exact Hd|].
  change (distinct (k' :: Object_keys (obj_delete k r)) = true).
  apply distinct_cons. split; [|now apply IH].
  intros Hin. apply Hn. exact (Object_keys_delete _ _ _ Hin).
Qed.

Lemma obj_has_delete (k : string) (o : obj) :
  distinct (Object_keys o) = true -> obj_has k (obj_delete k o) = false.
Proof.
  induction o as [|[k' v] r IH]; [trivial|].
  change (Object_keys ((k', v) :: r)) with (k' :: Object_keys r).
  intros H. apply distinct_cons in H as [Hn Hd]. simpl.
  destruct (String.eqb_spec k' k) as [->|Hne].
  - destruct (obj_has k r) eqn:E; [|reflexivity].
    apply obj_has_In in E. contradiction.
  - simpl. apply String.eqb_neq in Hne. rewrite Hne. now apply IH.
Qed.

Lemma obj_get_delete_other (k k' : string) (o : obj) :
  k <> k' -> obj_get k' (obj_delete k o) = obj_get k' o.
Proof.
  intros Hne. induction o as [|[k0 v] r IH]; simpl; [reflexivity|].
  destruct (String.eqb_spec k0 k) as [->|_]; simpl.
  - apply String.eqb_neq in Hne. now rewrite Hne.
  - now rewrite IH.
Qed.

Lemma forallb_delete (p : string * value -> bool) (k : string) (o : obj) :
  forallb p o = true -> forallb p (obj_delete k o) = true.
Proof.
  induction o as [|[k' v] r IH]; simpl; [trivial|].
  intros H. apply andb_true_iff in H as [Hp Hr].
  destruct (k' =? k); simpl; [exact Hr|]. now rewrite Hp, IH.
Qed.

Lemma ordered_from_weaken (lb lb' : N) (o : obj) :
  (lb' <= lb)%N -> ordered_from lb o = true -> ordered_from lb' o = true.
Proof.
  destruct o as [|[k v] r]; simpl; [trivial|].
  destruct (array_index k); [|trivial].
  intros Hle H. apply andb_true_iff in H as [Hn Hr].
  apply N.leb_le in Hn. apply andb_true_iff. split; [|exact Hr].
  apply N.leb_le. lia.
Qed.

Lemma ordered_from_delete (k : string) (lb : N) (o : obj) :
  ordered_from lb o = true -> ordered_from lb (obj_delete k o) = true.
Proof.
  revert lb. induction o as [|[k' v] r IH]; intros lb; [trivial|].
  simpl. destruct (array_index k') as [n|] eqn:E.
  - intros H. apply andb_true_iff in H as [Hn Hr].
    destruct (k' =? k).
    + apply N.leb_le in Hn. apply (ordered_from_weaken (n + 1)); [lia | exact Hr].
    + simpl. rewrite E, Hn. now apply IH.
  - intros H. destruct (k' =? k).
    + now apply ordered_from_named.
    + simpl. rewrite E. now apply forallb_delete.
Qed.

Lemma wf_obj_delete (k : string) (o : obj) :
  wf_obj o = true -> wf_obj (obj_delete k o) = true.
Proof.
  unfold wf_obj. intros H. apply andb_true_iff in H as [Hd Ho].
  apply andb_true_iff. split.
  - now apply distinct_delete.
  - now apply ordered_from_delete.
Qed.

(** *** Array indices

    The value of a decimal numeral determines it, so two array indices
    with one value are one name. *)

Lemma digits_value_split (s : string) (acc v : N) :
  digits_value s acc = Some v ->
  exists w, digits_value s 0 = Some w
            /\ v = (acc * 10 ^ N.of_nat (String.length s) + w)%N
            /\ (w < 10 ^ N.of_nat (String.length s))%N.
Proof.
  revert acc v. induction s as [|c r IH]; intros acc v; simpl digits_value.
  - intros [= <-]. exists 0%N. cbn. repeat split; lia.
  - destruct (is_digit c) eqn:Hc; [|discriminate].
    intros H. destruct (IH _ _ H) as (w & Hw & Hv & Hlt).
    replace (10 * 0 + (N_of_ascii c - 48))%N with (N_of_ascii c - 48)%N by lia.
    destruct (digits_value r (N_of_ascii c - 48)) as [u|] eqn:Hu.
    + destruct (IH _ _ Hu) as (w' & Hw' & Hu' & _).
      rewrite Hw in Hw'. injection Hw' as <-.
      exists u. split; [reflexivity|].
      unfold is_digit in Hc. apply andb_true_iff in Hc as [H1 H2].
      apply N.leb_le in H1, H2.
      change (String.length (String c r)) with (S (String.length r)).
      rewrite Nat2N.inj_succ, N.pow_succ_r'. nia.
    + exfalso. clear - Hw Hu IH.
      (* digits_value r acc succeeds for every acc when it does for 0 *)
      assert (G : forall a, digits_value r a <> None).
      { clear Hu. revert Hw. generalize 0%N at 1. generalize w. clear.
        induction r as [|c r IH]; intros w a H b; simpl in *; [discriminate|].
        destruct (is_digit c); [|discriminate]. eapply IH. exact H. }
      exact (G _ Hu).
Qed.

Lemma is_digit_inj (c1 c2 : ascii) :
  is_digit c1 = true -> is_digit c2 = true ->
  (N_of_ascii c1 - 48 = N_of_ascii c2 - 48)%N -> c1 = c2.
Proof.
  unfold is_digit. intros H1 H2 E.
  apply andb_true_iff in H1 as [H1 _]. apply andb_true_iff in H2 as [H2 _].
  apply N.leb_le in H1, H2.
  rewrite <- (ascii_N_embedding c1), <- (ascii_N_embedding c2).
  f_equal. lia.
Qed.

Lemma digits_value_head (c : ascii) (r : string) (n : N) :
  digits_value (String c r) 0 = Some n ->
  is_digit c = true
  /\ exists w, digits_value r 0 = Some w
               /\ n = ((N_of_ascii c - 48) * 10 ^ N.of_nat (String.length r) + w)%N
               /\ (w < 10 ^ N.of_nat (String.length r))%N.
Proof.
  simpl. destruct (is_digit c) eqn:Hc; [|discriminate].
  intros H. split; [reflexivity|].
  destruct (digits_value_split _ _ _ H) as (w & Hw & Hn & Hlt).
  exists w. split; [exact Hw|]. split; [|exact Hlt].
  rewrite Hn. replace (10 * 0 + (N_of_ascii c - 48))%N with (N_of_ascii c - 48)%N by lia.
  reflexivity.
Qed.

(** Digit strings of one length with one value are equal. *)
Lemma digits_value_inj (s1 s2 : string) (n : N) :
  String.length s1 = String.length s2 ->
  digits_value s1 0 = Some n -> digits_value s2 0 = Some n -> s1 = s2.
Proof.
  revert s2 n. induction s1 as [|c1 r1 IH]; intros [|c2 r2] n Hlen H1 H2;
    try discriminate; [reflexivity|].
  injection Hlen as Hlen.
  apply digits_value_head in H1 as (Hc1 & w1 & Hw1 & Hn1 & Hlt1).
  apply digits_value_head in H2 as (Hc2 & w2 & Hw2 & Hn2 & Hlt2).
  rewrite Hlen in *.
  set (P := (10 ^ N.of_nat (String.length r2))%N) in *.
  assert (E : (N_of_ascii c1 - 48 = N_of_ascii c2 - 48)%N /\ w1 = w2).
  { apply (N.div_mod_unique P); [exact Hlt1 | exact Hlt2 |].
    rewrite !(N.mul_comm P). congruence. }
  destruct E as [Ed Ew]. subst w2.
  f_equal.
  - now apply is_digit_inj.
  - now apply (IH r2 w1).
Qed.

Lemma array_index_spec (k : string) (n : N) :
  array_index k = Some n ->
  digits_value k 0 = Some n
  /\ match k with
     | "" => False
     | String c r => r = "" \/ Ascii.eqb c "0" = false
     end.
Proof.
  unfold array_index. destruct k as [|c r]; [discriminate|].
  destruct (Ascii.eqb c "0" && negb (r =? "")) eqn:Hz; [discriminate|].
  destruct (digits_value (String c r) 0) as [m|]; [|discriminate].
  destruct (m <=? 4294967294)%N; [|discriminate].
  intros [= ->]. split; [reflexivity|].
  apply andb_false_iff in Hz as [Hz|Hz]; [now right|].
  left. apply negb_false_iff in Hz. now apply String.eqb_eq.
Qed.

(** A digit string of length [L + 1] that does not start with [0] is at
    least [10 ^ L]. *)
Lemma digits_value_lower (c : ascii) (r : string) (n : N) :
  digits_value (String c r) 0 = Some n ->
  Ascii.eqb c "0" = false ->
  (10 ^ N.of_nat (String.length r) <= n)%N.
Proof.
  intros H Hz. apply digits_value_head in H as (Hc & w & _ & Hn & _).
  assert (Hd : (1 <= N_of_ascii c - 48)%N).
  { unfold is_digit in Hc. apply andb_true_iff in Hc as [H1 _].
    apply N.leb_le in H1.
    destruct (N.eq_dec (N_of_ascii c) 48%N) as [E|Hne]; [|lia].
    exfalso. apply Ascii.eqb_neq in Hz. apply Hz.
    rewrite <- (ascii_N_embedding c), E. reflexivity. }
  nia.
Qed.

Lemma digits_value_upper (s : string) (n : N) :
  digits_value s 0 = Some n -> (n < 10 ^ N.of_nat (String.length s))%N.
Proof.
  intros H. destruct (digits_value_split _ _ _ H) as (w & Hw & Hn & Hlt).
  rewrite Hn. lia.
Qed.

Lemma canonical_length (k1 k2 : string) (n : N) :
  array_index k1 = Some n -> array_index k2 = Some n ->
  (String.length k1 <= String.length k2)%nat.
Proof.
  intros H1 H2.
  apply array_index_spec in H1 as (V1 & C1).
  apply array_index_spec in H2 as (V2 & C2).
  destruct k1 as [|c1 r1]; [contradiction|].
  destruct k2 as [|c2 r2]; [contradiction|].
  destruct C1 as [->|Hz1]; [simpl; lia|].
  pose proof (digits_value_lower _ _ _ V1 Hz1) as Hlo.
  pose proof (digits_value_upper _ _ V2) as Hup.
  destruct (Nat.le_gt_cases (String.length (String c1 r1))
              (String.length (String c2 r2))) as [Hle|Hgt]; [exact Hle|].
  exfalso. simpl in Hgt.
  assert (Hpow : (10 ^ N.of_nat (String.length (String c2 r2))
                  <= 10 ^ N.of_nat (String.length r1))%N).
  { apply N.pow_le_mono_r; [lia|]. simpl. lia. }
  lia.
Qed.

(** Two array indices with one value are one name. *)
Lemma array_index_inj (k1 k2 : string) (n : N) :
  array_index k1 = Some n -> array_index k2 = Some n -> k1 = k2.
Proof.
  intros H1 H2.
  pose proof (canonical_length _ _ _ H1 H2) as L12.
  pose proof (canonical_length _ _ _ H2 H1) as L21.
  apply array_index_spec in H1 as (V1 & _).
  apply array_index_spec in H2 as (V2 & _).
  apply (digits_value_inj k1 k2 n); [lia | assumption | assumption].
Qed.

Lemma Object_keys_add_index (n : N) (k x : string) (v : value) (o : obj) :
  In x (Object_keys (obj_add_index n k v o)) -> x = k \/ In x (Object_keys o).
Proof.
  induction o as [|[k' v'] r IH]; simpl.
  - intros [<-|[]]. now left.
  - destruct (array_index k') as [m|]; [destruct (m <? n)%N|]; simpl;
      intros [<-|H]; auto.
    destruct (IH H); auto.
Qed.

Lemma distinct_add_index (n : N) (k : string) (v : value) (o : obj) :
  distinct (Object_keys o) = true ->
  ~ In k (Object_keys o) ->
  distinct (Object_keys (obj_add_index n k v o)) = true.
Proof.
  induction o as [|[k' v'] r IH]; intros Hd Hn; [reflexivity|].
  change (Object_keys ((k', v') :: r)) with (k' :: Object_keys r) in Hd, Hn.
  pose proof Hd as Hd0.
  apply distinct_cons in Hd as [Hk' Hr].
  assert (Hhere : distinct (Object_keys ((k, v) :: (k', v') :: r)) = true).
  { change (distinct (k :: k' :: Object_keys r) = true).
    apply distinct_cons. split; assumption. }
  simpl obj_add_index.
  destruct (array_index k') as [m|]; [destruct (m <? n)%N|]; try exact Hhere.
  change (distinct (k' :: Object_keys (obj_add_index n k v r)) = true).
  apply distinct_cons. split.
  - intros Hin. apply Object_keys_add_index in Hin as [->|Hin].
    + apply Hn. now left.
    + contradiction.
  - apply IH; [exact Hr|]. intros Hin. apply Hn. now right.
Qed.

Lemma ordered_from_add_index (lb n : N) (k : string) (v : value)
    (o : obj) :
  array_index k = Some n ->
  (lb <= n)%N ->
  ~ In k (Object_keys o) ->
  ordered_from lb o = true ->
  ordered_from lb (obj_add_index n k v o) = true.
Proof.
  intros Hk. revert lb. induction o as [|[k' v'] r IH]; intros lb Hlb Hn Ho.
  - simpl. rewrite Hk. apply andb_true_iff. split; [now apply N.leb_le | reflexivity].
  - simpl in Ho |- *. destruct (array_index k') as [m|] eqn:Em.
    + apply andb_true_iff in Ho as [Hm Hr]. apply N.leb_le in Hm.
      destruct (m <? n)%N eqn:Hlt.
      * simpl. rewrite Em. apply andb_true_iff. split; [now apply N.leb_le|].
        apply N.ltb_lt in Hlt. apply IH; [lia | | exact Hr].
        intros Hin. apply Hn. now right.
      * simpl. rewrite Hk, Em. apply N.ltb_ge in Hlt.
        assert (m <> n).
        { intros ->. apply Hn. left. simpl. exact (array_index_inj _ _ _ Em Hk). }
        repeat (apply andb_true_iff; split); try apply N.leb_le; try lia.
        exact Hr.
    + simpl. rewrite Hk, Em. apply andb_true_iff. split; [now apply N.leb_le|].
      exact Ho.
Qed.

Lemma ordered_from_replace (lb : N) (k : string) (v : value) (o : obj) :
  ordered_from lb (obj_replace k v o) = ordered_from lb o.
Proof.
  revert lb. induction o as [|[k' v'] r IH]; intros lb; simpl; [reflexivity|].
  destruct (k' =? k)%string; simpl; [reflexivity|].
  destruct (array_index k'); [now rewrite IH|].
  clear IH. induction r as [|[k0 v0] r IH]; simpl; [reflexivity|].
  destruct (k0 =? k)%string; simpl; [reflexivity | now rewrite IH].
Qed.

Lemma ordered_from_snoc_named (lb : N) (k : string) (v : value)
    (o : obj) :
  array_index k = None ->
  ordered_from lb o = true ->
  ordered_from lb (o ++ [(k, v)]) = true.
Proof.
  intros Hk. revert lb. induction o as [|[k' v'] r IH]; intros lb; simpl.
  - now rewrite Hk.
  - destruct (array_index k').
    + intros H. apply andb_true_iff in H as [H1 H2].
      apply andb_true_iff. split; [exact H1 | now apply IH].
    + intros H. rewrite forallb_app, H. simpl. unfold is_index. now rewrite Hk.
Qed.

(** *** Well-formed objects stay well formed *)

(** Assignment keeps objects well formed. *)
Lemma wf_obj_set (k : string) (v : value) (o : obj) :
  wf_obj o = true -> wf_obj (obj_set k v o) = true.
Proof.
  unfold wf_obj. intros H. apply andb_true_iff in H as [Hd Ho].
  unfold obj_set. destruct (obj_has k o) eqn:Hh.
  - now rewrite Object_keys_replace, ordered_from_replace, Hd, Ho.
  - assert (Hn : ~ In k (Object_keys o)).
    { intros Hin. apply obj_has_In in Hin. congruence. }
    destruct (array_index k) as [n|] eqn:Hk; apply andb_true_iff; split.
    + now apply distinct_add_index.
    + apply ordered_from_add_index; try assumption. lia.
    + unfold Object_keys. rewrite map_app. now apply distinct_snoc.
    + now apply ordered_from_snoc_named.
Qed.

Lemma wf_spread_into (src acc : obj) :
  wf_obj acc = true -> wf_obj (spread_into acc src) = true.
Proof.
  revert acc. induction src as [|[k v] r IH]; intros acc H; [exact H|].
  apply (IH (obj_set k v acc)). now apply wf_obj_set.
Qed.

(** Every object literal is well formed. *)
Lemma wf_obj_literal (entries : obj) :
  wf_obj (obj_literal entries) = true.
Proof. now apply wf_spread_into. Qed.

(** The rendering of any object literal, in the order of its properties. *)
Lemma makeQueryString_literal (entries : obj) :
  makeQueryString (Some (obj_literal entries))
  = "?" +:+ String.concat "&" (query_pairs (obj_literal entries)).
Proof.
  apply makeQueryString_pairs.
  pose proof (wf_obj_literal entries) as H. unfold wf_obj in H.
  now apply andb_true_iff in H as [H _].
Qed.

Lemma In_obj_set (k k' : string) (v v' : value) (o : obj) :
  In (k', v') (obj_set k v o) -> (k', v') = (k, v) \/ In (k', v') o.
Proof.
  unfold obj_set. destruct (obj_has k o).
  - induction o as [|[k0 v0] r IH]; simpl; [tauto|].
    destruct (String.eqb_spec k0 k) as [->|_]; simpl; intros [E|H].
    + left. now symmetry.
    + right. now right.
    + right. now left.
    + destruct (IH H) as [E|Hin]; [now left | right; now right].
  - destruct (array_index k) as [n|].
    + induction o as [|[k0 v0] r IH]; simpl.
      * intros [E|[]]. now left.
      * destruct (array_index k0) as [m|]; [destruct (m <? n)%N|]; simpl;
          intros [E|H]; auto.
        destruct (IH H); auto.
    + intros H. apply in_app_or in H as [H|[E|[]]]; auto.
Qed.

Lemma In_spread_into (kv : string * value) (src acc : obj) :
  In kv (spread_into acc src) -> In kv acc \/ In kv src.
Proof.
  revert acc. induction src as [|[k v] r IH]; intros acc H; [now left|].
  destruct (IH (obj_set k v acc) H) as [Hin|Hin].
  - destruct kv as [k' v']. apply In_obj_set in Hin as [E|Hin].
    + right. left. congruence.
    + now left.
  - right. now right.
Qed.

(** ** The digest *)

Lemma round_length (s : list Z) (kw : Z * Z) :
  length (SHA256.round s kw) = length s.
Proof.
  unfold SHA256.round.
  do 9 (destruct s as [|? s]; [reflexivity|]); reflexivity.
Qed.

Lemma rounds_length (kws : list (Z * Z)) (s : list Z) :
  length (fold_left SHA256.round kws s) = length s.
Proof.
  revert s. induction kws as [|kw r IH]; intros s; simpl; [reflexivity|].
  now rewrite IH, round_length.
Qed.

Lemma zip_add_length (xs ys : list Z) :
  length xs = length ys -> length (SHA256.zip_add xs ys) = length xs.
Proof.
  revert ys. induction xs as [|x xs IH]; intros [|y ys]; simpl;
    try discriminate; [reflexivity|].
  intros H. f_equal. apply IH. now injection H.
Qed.

Lemma compress_length (h block : list Z) :
  length (SHA256.compress h block) = length h.
Proof.
  unfold SHA256.compress. apply zip_add_length. now rewrite rounds_length.
Qed.

Lemma sha256_length (msg : list Z) : length (SHA256.sha256 msg) = 32%nat.
Proof.
  unfold SHA256.sha256.
  set (bs := SHA256.blocks _ _). clearbody bs.
  assert (H : length (fold_left SHA256.compress bs SHA256.H0) = 8%nat).
  { generalize SHA256.H0 (eq_refl : length SHA256.H0 = 8%nat).
    induction bs as [|b r IH]; intros h Hh; simpl; [exact Hh|].
    apply IH. now rewrite compress_length. }
  destruct (fold_left SHA256.compress bs SHA256.H0) as [|a l]; [discriminate|].
  do 7 (destruct l as [|? l]; [discriminate|]).
  destruct l; [reflexivity | discriminate].
Qed.

Lemma hex_length (bs : list Z) :
  String.length (SHA256.hex bs) = (2 * length bs)%nat.
Proof.
  unfold SHA256.hex. induction bs as [|b r IH]; simpl; [reflexivity|].
  simpl in IH. rewrite IH. lia.
Qed.

(** A signature is 64 hexadecimal digits; in particular it is not the
    empty string. *)
Lemma hmac_sha256_hex_length (key msg : string) :
  String.length (hmac_sha256_hex key msg) = 64%nat.
Proof.
  unfold hmac_sha256_hex, SHA256.hmac. now rewrite hex_length, sha256_length.
Qed.

Lemma signature_truthy (key msg : string) :
  truthy (VStr (hmac_sha256_hex key msg)) = true.
Proof.
  pose proof (hmac_sha256_hex_length key msg) as H. simpl.
  destruct (hmac_sha256_hex key msg); [discriminate | reflexivity].
Qed.

(** ** Running a call *)

Lemma bind_fulfilled {A B} (m : Call A) (f : A -> Call B) (a : A) (st st' : state) :
  m st = (Fulfilled a, st') -> bind m f st = f a st'.
Proof. intros H. unfold bind. cbv beta. now rewrite H. Qed.

Lemma then_fulfilled {A B} (m : Call A) (f : A -> Call B) (a : A) (st st' : state) :
  m st = (Fulfilled a, st') ->
  then_ m f st = match f a st' with
                 | (Thrown e, st'') => (Rejected e, st'')
                 | r => r
                 end.
Proof. intros H. unfold then_. cbv beta. now rewrite H. Qed.

Lemma read_at (l : loc) (o : obj) (st : state) :
  heap st !! l = Some o -> read l st = (Fulfilled o, st).
Proof. intros H. unfold read. cbv beta. now rewrite H. Qed.

Lemma deref_at (l : loc) (o : obj) (st : state) :
  heap st !! l = Some o -> deref (DObj l) st = (Fulfilled (Some o), st).
Proof.
  intros H. unfold deref. now rewrite (bind_fulfilled _ _ _ _ _ (read_at l o st H)).
Qed.

Lemma modify_at (l : loc) (f : obj -> obj) (o : obj) (st : state) :
  heap st !! l = Some o ->
  modify l f st = (Fulfilled tt, mkState (<[l := f o]> (heap st)) (trace st)).
Proof. intros H. unfold modify. cbv beta. now rewrite H. Qed.

Lemma alloc_run (o0 : obj) (st : state) :
  alloc o0 st
  = (Fulfilled (fresh (dom (heap st))),
     mkState (<[fresh (dom (heap st)) := o0]> (heap st)) (trace st)).
Proof. reflexivity. Qed.

Lemma fresh_not_allocated (st : state) (l : loc) (o : obj) :
  heap st !! l = Some o -> fresh (dom (heap st)) <> l.
Proof.
  intros H E. pose proof (is_fresh (dom (heap st))) as Hf.
  rewrite E in Hf. apply Hf. apply elem_of_dom. now exists o.
Qed.

Lemma payload_obj_at (l : loc) (o : obj) (st : state) :
  heap st !! l = Some o -> payload_obj (DObj l) st = (Fulfilled o, st).
Proof.
  intros H. unfold payload_obj.
  now rewrite (bind_fulfilled _ _ _ _ _ (deref_at l o st H)).
Qed.

(** ** The Query Encoder *)

Lemma query_pairs_all_falsy (entries : list (string * value)) :
  forallb (fun kv => negb (truthy (snd kv))) entries = true ->
  query_pairs entries = [].
Proof.
  unfold query_pairs. induction entries as [|[k v] r IH]; simpl; [reflexivity|].
  intros H. apply andb_true_iff in H as [Hv Hr].
  apply negb_true_iff in Hv. rewrite Hv. now apply IH.
Qed.

Lemma query_pairs_literal_all_falsy (entries : list (string * value)) :
  forallb (fun kv => negb (truthy (snd kv))) entries = true ->
  query_pairs (obj_literal entries) = [].
Proof.
  intros H. apply query_pairs_all_falsy. apply forallb_forall.
  intros kv Hin. apply In_spread_into in Hin as [[]|Hin].
  exact (proj1 (forallb_forall _ _) H kv Hin).
Qed.

(** The Query Encoder with its exceptions, on the entries themselves: it
    throws at the first entry that does not render. *)
Lemma keys_by_lookup_completion (o l : obj) :
  (forall kv, In kv l -> obj_get (fst kv) o = snd kv) ->
  map_completion (render_key o)
    (List.filter (fun k => truthy (obj_get k o)) (Object_keys l))
  = match List.find (fun kv => negb (renders kv)) l with
    | Some kv => inl (thrown_at kv)
    | None => inr (query_pairs l)
    end.
Proof.
  unfold query_pairs, render_pair.
  induction l as [|[k v] r IH]; intros H; [reflexivity|].
  assert (Hk : obj_get k o = v) by exact (H (k, v) (or_introl eq_refl)).
  assert (Hr : forall kv, In kv r -> obj_get (fst kv) o = snd kv)
    by (intros kv Hin; apply H; now right).
  specialize (IH Hr).
  cbn [Object_keys map List.filter List.find fst snd]. rewrite Hk.
  fold (Object_keys r). unfold renders at 1. cbn [fst snd].
  destruct (truthy v); cbn [negb orb]; [|exact IH].
  cbn [map_completion]. unfold render_key at 1, encodeURIComponent_completion.
  unfold js_String, thrown_at. rewrite Hk. cbn [convertible to_string fst snd].
  destruct (well_formed k) eqn:Hwk;
    [|cbn [andb negb fst snd]; rewrite Hwk; reflexivity].
  destruct (convertible v) eqn:Hc;
    [|cbn [andb negb fst snd]; rewrite Hwk, Hc; reflexivity].
  destruct (well_formed (to_string v));
    [|cbn [andb negb fst snd]; rewrite Hwk, Hc; reflexivity].
  cbn [andb negb map]. rewrite IH.
  now destruct (List.find (fun kv => negb (renders kv)) r).
Qed.

Lemma find_absent {A} (f : A -> bool) (l : list A) :
  (forall x, In x l -> f x = false) -> List.find f l = None.
Proof.
  induction l as [|x l IH]; intros H; [reflexivity|].
  cbn [List.find]. rewrite (H x (or_introl eq_refl)).
  apply IH. intros y Hy. apply H. now right.
Qed.

Lemma makeQueryString_completion_pairs (o : obj) :
  distinct (Object_keys o) = true ->
  makeQueryString_completion (Some o)
  = match List.find (fun kv => negb (renders kv)) o with
    | Some kv => inl (thrown_at kv)
    | None => inr ("?" +:+ String.concat "&" (query_pairs o))
    end.
Proof.
  intros Hd. unfold makeQueryString_completion.
  rewrite (keys_by_lookup_completion o o).
  - now destruct (List.find (fun kv => negb (renders kv)) o).
  - intros [k v] Hin. now apply obj_get_distinct.
Qed.

Lemma map_completion_returns {A B} (f : A -> exn + B) (g : A -> B)
    (l : list A) (ys : list B) :
  (forall x y, f x = inr y -> y = g x) ->
  map_completion f l = inr ys -> ys = map g l.
Proof.
  intros Hf. revert ys. induction l as [|x l IH]; intros ys H.
  - now injection H as <-.
  - cbn [map_completion] in H. destruct (f x) as [e|y] eqn:Ex; [discriminate|].
    destruct (map_completion f l) as [e|ys']; [discriminate|].
    injection H as <-. cbn [map]. now rewrite (Hf x y Ex), (IH ys' eq_refl).
Qed.

(** What the Query Encoder returns, when it returns, is the rendering
    the callers put in the URL. *)
Lemma makeQueryString_completion_returns (q : option obj) (s : string) :
  makeQueryString_completion q = inr s -> s = makeQueryString q.
Proof.
  destruct q as [o|]; cbn [makeQueryString_completion makeQueryString].
  - destruct (map_completion _ _) as [e|pairs] eqn:E; [discriminate|].
    intros [= <-]. do 2 f_equal.
    refine (map_completion_returns _ _ _ _ _ E). intros k y H.
    unfold render_key, encodeURIComponent_completion, js_String in H.
    cbn [convertible to_string] in H.
    destruct (well_formed k); [|discriminate].
    destruct (convertible (obj_get k o)); [|discriminate].
    destruct (well_formed (to_string (obj_get k o))); [|discriminate].
    now injection H as <-.
  - now intros [= <-].
Qed.

(** C4 (as amended).  A mapping is written as its entries, whose values
    hold no function.  The Query Encoder goes through the properties of
    the mapping whose value is truthy, and only those, in the order
    [Object.keys] gives: array-index names first, in ascending order, then
    the other names; for a mapping written with pairwise distinct names
    none of which is an array index this is the order in which it was
    written.  It throws at the first of them that does not render: a
    [URIError] when the key or the value as a string holds a lone
    surrogate, a [TypeError] when the value cannot be converted to a
    string.  When there is none it returns the properties percent-encoded
    as [key=value], joined by [&] after a leading [?], and that is the
    string the callers put in the URL.  A mapping with no truthy value,
    the empty mapping among them, gives the lone [?]; an absent mapping
    gives the empty string. *)
Theorem makeQueryString_entries (entries : list (string * value)) :
  forallb (fun kv => function_free (snd kv)) entries = true ->
  let q := obj_literal entries in
  makeQueryString_completion (Some q)
  = match List.find (fun kv => negb (renders kv)) q with
    | Some kv => inl (thrown_at kv)
    | None => inr ("?" +:+ String.concat "&" (query_pairs q))
    end
  /\ (forall s : string,
        makeQueryString_completion (Some q) = inr s ->
        s = makeQueryString (Some q))
  /\ wf_obj q = true
  /\ (distinct (map fst entries) = true ->
      forallb (fun kv => negb (is_index (fst kv))) entries = true ->
      q = entries)
  /\ (forallb (fun kv => negb (truthy (snd kv))) entries = true ->
      makeQueryString_completion (Some q) = inr "?")
  /\ makeQueryString_completion None = inr "".
Proof.
  intros _ q.
  assert (Hd : distinct (Object_keys q) = true).
  { pose proof (wf_obj_literal entries) as H. unfold wf_obj in H.
    now apply andb_true_iff in H as [H _]. }
  pose proof (makeQueryString_completion_pairs q Hd) as E.
  split; [exact E|]. split; [|split; [apply wf_obj_literal|]].
  - intros s Hs. rewrite E in Hs.
    destruct (List.find (fun kv => negb (renders kv)) q); [discriminate|].
    injection Hs as <-. symmetry. now apply makeQueryString_pairs.
  - split; [apply obj_literal_named|]. split; [|reflexivity].
    intros Hf. rewrite E. unfold q.
    rewrite (query_pairs_literal_all_falsy entries Hf).
    assert (Hn : List.find (fun kv => negb (renders kv)) (obj_literal entries)
                 = None).
    { apply find_absent. intros kv Hin.
      apply In_spread_into in Hin as [[]|Hin].
      apply (proj1 (forallb_forall _ _) Hf) in Hin.
      unfold renders. now rewrite Hin. }
    now rewrite Hn.
Qed.

(** *** A query string can be read back *)

Lemma string_app_cons (x : ascii) (a b : string) :
  String x a +:+ b = String x (a +:+ b).
Proof. reflexivity. Qed.

Lemma string_app_assoc (a b c : string) : (a +:+ b) +:+ c = a +:+ (b +:+ c).
Proof.
  induction a as [|x a IH]; [reflexivity|].
  now rewrite !string_app_cons, IH.
Qed.

Lemma string_app_nil_r (a : string) : a +:+ "" = a.
Proof.
  induction a as [|x a IH]; [reflexivity|].
  now rewrite string_app_cons, IH.
Qed.

Ltac each_character c :=
  destruct c as [[] [] [] [] [] [] [] []]; reflexivity.

Lemma percent_decode_character (c : ascii) (t : string) :
  percent_decode ((if unreserved c then String c "" else percent_escape c) +:+ t)
  = match percent_decode t with
    | Some t' => Some (String c t')
    | None => None
    end.
Proof. each_character c. Qed.

Lemma percent_decode_encoded (s : string) :
  percent_decode (encodeURIComponent s) = Some s.
Proof.
  induction s as [|c r IH]; [reflexivity|].
  cbn [encodeURIComponent]. now rewrite percent_decode_character, IH.
Qed.

Lemma avoids_app (sep : ascii) (a b : string) :
  avoids sep (a +:+ b) = avoids sep a && avoids sep b.
Proof.
  induction a as [|x a IH]; [reflexivity|].
  rewrite string_app_cons. cbn [avoids]. now rewrite IH, andb_assoc.
Qed.

Lemma avoids_character (c : ascii) :
  avoids "=" (if unreserved c then String c "" else percent_escape c) = true
  /\ avoids "&" (if unreserved c then String c "" else percent_escape c) = true.
Proof. destruct c as [[] [] [] [] [] [] [] []]; split; reflexivity. Qed.

Lemma avoids_encoded (s : string) :
  avoids "=" (encodeURIComponent s) = true
  /\ avoids "&" (encodeURIComponent s) = true.
Proof.
  induction s as [|c r [IH1 IH2]]; [now split|].
  cbn [encodeURIComponent]. rewrite !avoids_app, IH1, IH2.
  destruct (avoids_character c) as [-> ->]. now split.
Qed.

Lemma cut_avoids (sep : ascii) (a t : string) :
  avoids sep a = true -> cut sep (a +:+ String sep t) = Some (a, t).
Proof.
  induction a as [|x a IH]; intros H.
  - change ("" +:+ String sep t) with (String sep t). cbn [cut].
    now rewrite Ascii.eqb_refl.
  - cbn [avoids] in H. apply andb_true_iff in H as [Hx Ha].
    apply negb_true_iff in Hx.
    rewrite string_app_cons. cbn [cut]. now rewrite Hx, (IH Ha).
Qed.

Lemma split_on_avoids (sep : ascii) (a t : string) :
  avoids sep a = true ->
  split_on sep (a +:+ t) = (a +:+ hd "" (split_on sep t)) :: tl (split_on sep t).
Proof.
  induction a as [|x a IH]; intros H.
  - change ("" +:+ t) with t.
    destruct t as [|y t]; [reflexivity|]. cbn [split_on].
    destruct (Ascii.eqb y sep); [reflexivity|].
    now destruct (split_on sep t).
  - cbn [avoids] in H. apply andb_true_iff in H as [Hx Ha].
    apply negb_true_iff in Hx.
    rewrite !string_app_cons. cbn [split_on]. now rewrite Hx, (IH Ha).
Qed.

Lemma render_pair_avoids (kv : string * value) :
  avoids "&" (render_pair kv) = true.
Proof.
  unfold render_pair. rewrite !avoids_app.
  rewrite (proj2 (avoids_encoded (fst kv))).
  now rewrite (proj2 (avoids_encoded (to_string (snd kv)))).
Qed.

Lemma split_on_pairs (kv : string * value) (l : list (string * value)) :
  split_on "&" (String.concat "&" (map render_pair (kv :: l)))
  = map render_pair (kv :: l).
Proof.
  revert kv. induction l as [|kv' l IH]; intros kv.
  - cbn [map String.concat].
    rewrite <- (string_app_nil_r (render_pair kv)) at 1.
    rewrite (split_on_avoids _ _ _ (render_pair_avoids kv)).
    cbn [split_on hd tl]. now rewrite string_app_nil_r.
  - change (String.concat "&" (map render_pair (kv :: kv' :: l)))
      with (render_pair kv
            +:+ String "&" (String.concat "&" (map render_pair (kv' :: l)))).
    rewrite (split_on_avoids _ _ _ (render_pair_avoids kv)).
    change (split_on "&" (String "&" (String.concat "&" (map render_pair (kv' :: l)))))
      with ("" :: split_on "&" (String.concat "&" (map render_pair (kv' :: l)))).
    cbn [hd tl]. rewrite IH, string_app_nil_r. reflexivity.
Qed.

Lemma parse_pair_rendered (kv : string * value) :
  parse_pair (render_pair kv) = Some (fst kv, to_string (snd kv)).
Proof.
  unfold parse_pair, render_pair.
  change ("=" +:+ encodeURIComponent (to_string (snd kv)))
    with (String "=" (encodeURIComponent (to_string (snd kv)))).
  rewrite (cut_avoids _ _ _ (proj1 (avoids_encoded (fst kv)))).
  now rewrite !percent_decode_encoded.
Qed.

Lemma parse_pairs_rendered (l : list (string * value)) :
  parse_pairs (map render_pair l)
  = Some (map (fun kv => (fst kv, to_string (snd kv))) l).
Proof.
  induction l as [|kv l IH]; [reflexivity|].
  cbn [map parse_pairs]. now rewrite parse_pair_rendered, IH.
Qed.

Lemma render_pair_not_empty (kv : string * value) (t : string) :
  (render_pair kv +:+ t =? "") = false.
Proof.
  unfold render_pair. destruct (encodeURIComponent (fst kv)); reflexivity.
Qed.

Lemma parse_query_pairs (l : list (string * value)) :
  parse_query (String.concat "&" (map render_pair l))
  = Some (map (fun kv => (fst kv, to_string (snd kv))) l).
Proof.
  destruct l as [|kv l]; [reflexivity|].
  unfold parse_query.
  assert (E : (String.concat "&" (map render_pair (kv :: l)) =? "") = false).
  { destruct l as [|kv' l].
    - cbn [map String.concat]. rewrite <- (string_app_nil_r (render_pair kv)).
      apply render_pair_not_empty.
    - apply render_pair_not_empty. }
  rewrite E, split_on_pairs. apply parse_pairs_rendered.
Qed.

(** X1.  Reading back the query string of a mapping gives the entries of
    the mapping whose value is truthy, in the mapping's order, each name
    with its value as a string: percent-encoding loses nothing, and no
    name or value can be taken for a separator. *)
Theorem makeQueryString_read_back (o : obj) :
  distinct (Object_keys o) = true ->
  parse_query (substr1 (makeQueryString (Some o)))
  = Some (map (fun kv => (fst kv, to_string (snd kv)))
            (List.filter (fun kv => truthy (snd kv)) o)).
Proof.
  intros Hd. rewrite (makeQueryString_pairs o Hd).
  change (substr1 ("?" +:+ String.concat "&" (query_pairs o)))
    with (String.concat "&" (query_pairs o)).
  apply parse_query_pairs.
Qed.

Lemma query_pairs_app (xs ys : list (string * value)) :
  query_pairs (xs ++ ys) = query_pairs xs ++ query_pairs ys.
Proof. unfold query_pairs. now rewrite List.filter_app, map_app. Qed.


(** ** The Parameter Validator *)

Lemma missing_value (v : value) :
  negb (truthy v) && isNaN v = absent_or_NaN v.
Proof.
  destruct v as [| |b|n|m e| |s|l|o|f]; simpl; try reflexivity.
  - now rewrite andb_false_r.
  - now rewrite andb_false_r.
  - now rewrite andb_false_r.
  - destruct s; reflexivity.
Qed.

Lemma check_required_find (name : string) (o : obj) (requires : list string) :
  check_required name o requires
  = match List.find (fun r => absent_or_NaN (obj_member r o)) requires with
    | Some r =>
        Some (ExnError (newError
                ("Method " +:+ name +:+ " requires " +:+ r +:+ " parameter.")))
    | None => None
    end.
Proof.
  induction requires as [|r rest IH]; simpl; [reflexivity|].
  rewrite missing_value. destruct (absent_or_NaN (obj_member r o)); [reflexivity|].
  exact IH.
Qed.

Lemma checkParams_at (name : string) (l : loc) (o : obj)
    (requires : list string) (st : state) :
  heap st !! l = Some o ->
  checkParams name (DObj l) requires st
  = match check_required name o requires with
    | Some e => (Thrown e, st)
    | None => (Fulfilled true, st)
    end.
Proof.
  intros H. unfold checkParams.
  rewrite (bind_fulfilled _ _ _ _ _ (deref_at l o st H)).
  destruct (check_required name o requires); reflexivity.
Qed.

(** C5 (as amended).  On a payload object the Parameter Validator throws
    a Configuration Error naming the method and the first required field
    whose value, own or inherited, is [undefined] (an absent field) or
    [NaN]; every other value counts as present, numeric zero and also the
    empty string, [null] and [false]; with no such field it returns
    [true].  It changes nothing. *)
Theorem checkParams_first_missing (name : string) (l : loc) (o : obj)
    (requires : list string) (st : state) :
  heap st !! l = Some o ->
  checkParams name (DObj l) requires st
  = match List.find (fun r => absent_or_NaN (obj_member r o)) requires with
    | Some r =>
        (Thrown (ExnError (newError
           ("Method " +:+ name +:+ " requires " +:+ r +:+ " parameter."))), st)
    | None => (Fulfilled true, st)
    end.
Proof.
  intros H. rewrite (checkParams_at name l o requires st H), check_required_find.
  destruct (List.find _ requires); reflexivity.
Qed.

Lemma checkParams_no_payload (name : string) (requires : list string) (st : state) :
  checkParams name DUndefined requires st
  = (Thrown (ExnError (newError "You need to pass a payload object.")), st)
  /\ checkParams name DNull requires st
     = (Thrown (ExnError (newError "You need to pass a payload object.")), st).
Proof. split; reflexivity. Qed.

Lemma In_set_other_named (k k' : string) (v v' : value) (o : obj) :
  is_index k = false -> k <> k' -> In (k', v') o -> In (k', v') (obj_set k v o).
Proof.
  intros Hi Hne Hin. unfold obj_set. destruct (obj_has k o).
  - induction o as [|[k0 v0] r IH]; simpl in *; [tauto|].
    destruct (String.eqb_spec k0 k) as [->|_]; simpl.
    + destruct Hin as [E|Hin]; [congruence | now right].
    + destruct Hin as [E|Hin]; [now left | right; now apply IH].
  - unfold is_index in Hi. destruct (array_index k); [discriminate|].
    apply in_or_app. now left.
Qed.

Lemma query_pairs_In (k : string) (v : value) (o : obj) :
  In (k, v) o -> truthy v = true -> In (render_pair (k, v)) (query_pairs o).
Proof.
  intros Hin Ht. unfold query_pairs. apply in_map.
  apply filter_In. now split.
Qed.

(** ** The reference parser

    What [JSON.parse] returns holds no function. *)

Ltac break_match H :=
  repeat match type of H with
         | context [match ?x with _ => _ end] =>
             destruct x eqn:?; try discriminate H
         end.

Lemma function_free_set (k : string) (v : value) (o : obj) :
  function_free v = true ->
  forallb (fun kv => function_free (snd kv)) o = true ->
  forallb (fun kv => function_free (snd kv)) (obj_set k v o) = true.
Proof.
  intros Hv Ho. apply forallb_forall. intros [k' v'] Hin.
  apply In_obj_set in Hin as [E|Hin].
  - injection E as -> ->. exact Hv.
  - exact (proj1 (forallb_forall _ _) Ho _ Hin).
Qed.

Lemma number_function_free (s rest : string) (v : value) :
  JSON.number s = Some (v, rest) -> function_free v = true.
Proof.
  assert (U : forall b s, JSON.unsigned_number b s = Some (v, rest) ->
              function_free v = true).
  { intros b t H. unfold JSON.unsigned_number in H.
    break_match H; injection H as <- _; reflexivity. }
  unfold JSON.number. intros H. break_match H; eapply U; eassumption.
Qed.

Lemma literal_function_free (lit s rest : string) (v0 v : value) :
  function_free v0 = true ->
  JSON.literal lit v0 s = Some (v, rest) -> function_free v = true.
Proof.
  intros H0 H. unfold JSON.literal in H.
  destruct (starts_with lit s); [|discriminate]. now injection H as <- _.
Qed.

Lemma parse_function_free (fuel : nat) :
  (forall s v rest, JSON.parse_value fuel s = Some (v, rest) -> function_free v = true)
  /\ (forall s l rest, JSON.parse_elements fuel s = Some (l, rest) ->
        forallb function_free l = true)
  /\ (forall s acc o rest,
        JSON.parse_members fuel s acc = Some (o, rest) ->
        forallb (fun kv => function_free (snd kv)) acc = true ->
        forallb (fun kv => function_free (snd kv)) o = true).
Proof.
  induction fuel as [|fuel (IHv & IHe & IHm)]; [repeat split; discriminate|].
  split; [|split].
  - intros s v rest H. cbn [JSON.parse_value] in H.
    destruct (JSON.skip_ws s) as [|c r] eqn:Es; [discriminate|].
    break_match H;
      try (injection H as <- _; first [reflexivity | eapply IHe; eassumption
                                       | eapply IHm; [eassumption | reflexivity]]);
      try (eapply literal_function_free; [|eassumption]; reflexivity);
      try (eapply number_function_free; eassumption).
  - intros s l rest H. cbn [JSON.parse_elements] in H.
    destruct (JSON.parse_value fuel s) as [[v r]|] eqn:Ev; [|discriminate].
    apply IHv in Ev.
    break_match H; injection H as <- _; cbn [forallb]; rewrite Ev; cbn [andb];
      first [reflexivity | eapply IHe; eassumption].
  - intros s acc o rest H Hacc. cbn [JSON.parse_members] in H.
    break_match H.
    all: try (injection H as <- _).
    all: try (apply function_free_set; [eapply IHv; eassumption | exact Hacc]).
    all: try (eapply IHm; [eassumption|]; apply function_free_set;
              [eapply IHv; eassumption | exact Hacc]).
Qed.

Lemma JSON_parse_function_free (text : string) (v : value) :
  JSON.parse text = Some v -> function_free v = true.
Proof.
  unfold JSON.parse. intros H.
  destruct (JSON.parse_value _ text) as [[v' rest]|] eqn:E; [|discriminate].
  destruct (JSON.skip_ws rest =? ""); [|discriminate].
  injection H as <-. eapply (proj1 (parse_function_free _)); eassumption.
Qed.

(** What a server reads in the query string of a signed request: the
    signature always, the timestamp when it is truthy and only then. *)
Lemma signed_query_read_back (payload : obj) (ts : value) (signature : string) :
  distinct (Object_keys payload) = true ->
  truthy (VStr signature) = true ->
  let params :=
    obj_set "signature" (VStr signature) (obj_set "timestamp" ts payload) in
  exists pairs : list (string * string),
    parse_query (String.concat "&" (query_pairs params)) = Some pairs
    /\ In ("signature", signature) pairs
    /\ (In "timestamp" (map fst pairs) <-> truthy ts = true)
    /\ (truthy ts = true -> In ("timestamp", to_string ts) pairs).
Proof.
  intros Hd Hsig params.
  assert (Hdist : distinct (Object_keys params) = true)
    by (unfold params; now do 2 (apply distinct_set_named; [reflexivity|])).
  assert (Hget : obj_get "timestamp" params = ts).
  { unfold params. rewrite !obj_get_set_named by reflexivity.
    now rewrite String.eqb_refl. }
  assert (Hin : In ("timestamp", ts) params).
  { unfold params. apply In_set_other_named; [reflexivity | discriminate |].
    now apply In_set_named. }
  assert (Hsent : truthy ts = true ->
            In ("timestamp", to_string ts)
              (map (fun kv => (fst kv, to_string (snd kv)))
                 (List.filter (fun kv => truthy (snd kv)) params))).
  { intros Ht. apply in_map_iff. exists ("timestamp", ts).
    split; [reflexivity|]. apply filter_In. now split. }
  eexists. split; [apply parse_query_pairs|]. split; [|split].
  - apply in_map_iff. exists ("signature", VStr signature).
    split; [reflexivity|]. apply filter_In. split; [|exact Hsig].
    unfold params. now apply In_set_named.
  - split.
    + intros H. apply in_map_iff in H as ([k t] & Ek & H). cbn in Ek. subst k.
      apply in_map_iff in H as ([k v] & E & H). injection E as -> _.
      apply filter_In in H as [H Hv]. cbn in Hv.
      rewrite (obj_get_distinct params "timestamp" v Hdist H) in Hget.
      now subst v.
    + intros Ht. apply in_map_iff. exists ("timestamp", to_string ts).
      split; [reflexivity | now apply Hsent].
  - exact Hsent.
Qed.

(** ** The callers

    From here on the callers are those of the module, applied to an
    arbitrary [JSON.parse], network and clock. *)

Section Callers.

Context (JSON_parse : string -> option value)
        (network : list event -> Request -> fetch_reply)
        (Date_now : list event -> Z).

Local Abbreviation defaultGetTime := (defaultGetTime Date_now).
Local Abbreviation fetch := (fetch network).
Local Abbreviation api_error_of := (api_error_of JSON_parse).
Local Abbreviation sendResult := (sendResult JSON_parse).
Local Abbreviation signed_as := (signed_as JSON_parse network).
Local Abbreviation server_time_of := (server_time_of JSON_parse).
Local Abbreviation publicCall := (publicCall JSON_parse network).
Local Abbreviation privateCall_then := (privateCall_then JSON_parse network).
Local Abbreviation privateCall := (privateCall JSON_parse network Date_now).
Local Abbreviation privCall := (privCall JSON_parse network Date_now).
Local Abbreviation futuresPrivCall := (futuresPrivCall JSON_parse network Date_now).
Local Abbreviation client_futuresOrder :=
  (client_futuresOrder JSON_parse network Date_now).
Local Abbreviation keepDataStream := (keepDataStream JSON_parse network Date_now).
Local Abbreviation closeDataStream := (closeDataStream JSON_parse network Date_now).
Local Abbreviation futuresKeepUserDataStream :=
  (futuresKeepUserDataStream JSON_parse network Date_now).
Local Abbreviation futuresCloseUserDataStream :=
  (futuresCloseUserDataStream JSON_parse network Date_now).

(** *** The Result Unwrapper *)

Lemma sendResult_state (call : Call Response) (st : state) :
  snd (sendResult call st) = snd (call st).
Proof.
  unfold sendResult, then_. destruct (call st) as [[e|e|res] st']; try reflexivity.
  destruct (ok res); simpl.
  - destruct (JSON_parse (body res)); reflexivity.
  - reflexivity.
Qed.

Lemma sendResult_failed (call : Call Response) (res : Response) (st st' : state) :
  call st = (Fulfilled res, st') ->
  ok res = false ->
  sendResult call st
  = (Rejected (ExnError (match api_error_of res (body res) with
                         | Some error => error
                         | None => transport_error_of res (body res)
                         end)), st').
Proof.
  intros Hc Hok. unfold sendResult, then_. rewrite Hc, Hok. reflexivity.
Qed.

(** C3 (as amended).  A failed response makes the Result Unwrapper reject
    with exactly one of the two errors.  The body is parsed by
    [JSON.parse], whose values hold no function.  A body that parses as
    JSON other than [null], with a [msg] that is falsy or converts to a
    string, gives an API Error: its message is the parsed [msg] as a
    string when [msg] is truthy and the status line otherwise, and the
    parsed [code] is attached.  Every other body gives a Transport Error,
    whose message is the status line followed by the body text, with the
    response and the body text attached: a body that does not parse, the
    body [null], and a body whose truthy [msg] cannot be converted to a
    string. *)
Theorem sendResult_failure_classified (call : Call Response) (res : Response)
    (st st' : state) :
  call st = (Fulfilled res, st') ->
  ok res = false ->
  (forall json, JSON_parse (body res) = Some json -> function_free json = true) ->
  exists e : Error,
    sendResult call st = (Rejected (ExnError e), st')
    /\ xorb (is_api_error (ExnError e)) (is_transport_error (ExnError e)) = true
    /\ let transport :=
         e = mkError (status_line res +:+ " " +:+ body res) None
               (Some res) (Some (body res))
         /\ is_transport_error (ExnError e) = true in
       match JSON_parse (body res) with
       | Some json =>
           match get_prop json "msg" with
           | Some msg =>
               if truthy msg && negb (convertible msg) then transport
               else
                 exists c : value,
                   get_prop json "code" = Some c
                   /\ e = mkError (if truthy msg then to_string msg
                                   else status_line res)
                          (Some c) None None
                   /\ is_api_error (ExnError e) = true
           | None => transport
           end
       | None => transport
       end.
Proof.
  intros Hc Hok _. eexists.
  split; [exact (sendResult_failed call res st st' Hc Hok)|].
  unfold api_error_of, js_String.
  destruct (JSON_parse (body res)) as [json|]; [|now repeat split].
  destruct (get_prop json "msg") as [msg|] eqn:Hmsg.
  - assert (Hcode : exists c, get_prop json "code" = Some c).
    { destruct json; try discriminate Hmsg; now eexists. }
    destruct Hcode as [c ->].
    destruct (truthy msg); simpl.
    + destruct (convertible msg); simpl; [|now repeat split].
      split; [reflexivity|]. now exists c.
    + split; [reflexivity|]. now exists c.
  - now repeat split.
Qed.

(** *** Requests *)

Lemma fetch_run (r : Request) (st : state) :
  fetch r st
  = (match network (trace st ++ [EvRequest r]) r with
     | Replied res => Fulfilled res
     | Failed reason => Rejected (ExnFetch reason)
     end,
     mkState (heap st)
       (trace st ++ [EvRequest r;
                     EvResponse r (network (trace st ++ [EvRequest r]) r)])).
Proof.
  unfold fetch, bind, log, history, ret, reject. simpl.
  rewrite <- app_assoc. simpl.
  destruct (network (trace st ++ [EvRequest r]) r); reflexivity.
Qed.

Lemma sendResult_fetch_state (r : Request) (st : state) :
  snd (sendResult (fetch r) st)
  = mkState (heap st)
      (trace st ++ [EvRequest r;
                    EvResponse r (network (trace st ++ [EvRequest r]) r)]).
Proof. now rewrite sendResult_state, fetch_run. Qed.

(** The Result Unwrapper applied to a request settles: it does not throw. *)
Lemma sendResult_fetch_settles (r : Request) (st : state) :
  match sendResult (fetch r) st with
  | (Thrown e, st') => (Rejected e, st')
  | x => x
  end = sendResult (fetch r) st.
Proof.
  unfold sendResult, then_. rewrite fetch_run.
  destruct (network (trace st ++ [EvRequest r]) r) as [res|reason]; [|reflexivity].
  destruct (ok res); simpl; [|reflexivity].
  destruct (JSON_parse (body res)); reflexivity.
Qed.

Lemma then_state {A B} (m : Call A) (f : A -> Call B) (st : state) :
  snd (then_ m f st)
  = match m st with
    | (Fulfilled a, st') => snd (f a st')
    | (_, st') => st'
    end.
Proof.
  unfold then_. destruct (m st) as [[e|e|a] st']; try reflexivity.
  destruct (f a st') as [[e|e|b] st'']; reflexivity.
Qed.

(** *** The Public Caller and the Key Caller *)

Lemma publicCall_no_data (base apiPathBase : string) (a : call_args) (st : state) :
  data a = DUndefined \/ data a = DNull ->
  publicCall base apiPathBase a st
  = sendResult
      (fetch (mkRequest (base +:+ "/" +:+ apiPathBase +:+ path a +:+ "")
                (default "GET" (method a)) true (default [] (headers a)) (agent a)))
      st.
Proof. unfold publicCall. intros [-> | ->]; reflexivity. Qed.

Lemma publicCall_time (base apiPathBase : string) (ag : Agent) (st : state) :
  publicCall base apiPathBase (time_args ag) st
  = sendResult (fetch (time_request base apiPathBase ag)) st.
Proof. reflexivity. Qed.

(** *** The Signed Caller *)

Lemma sign_run (secret : string) (d : option obj) (ts : value) (st : state) :
  sign secret d ts st
  = (Fulfilled (hmac_sha256_hex secret
                  (substr1 (makeQueryString
                              (Some (obj_set "timestamp" ts (spread d)))))),
     mkState (heap st)
       (trace st
        ++ [EvHmac secret
              (substr1 (makeQueryString
                          (Some (obj_set "timestamp" ts (spread d)))))
              (hmac_sha256_hex secret
                 (substr1 (makeQueryString
                             (Some (obj_set "timestamp" ts (spread d))))))])).
Proof. reflexivity. Qed.

Lemma substr1_query (o : obj) :
  substr1 (makeQueryString (Some o))
  = strip_leading_question (makeQueryString (Some o)).
Proof. reflexivity. Qed.

(** The callback of a signed call on a payload object of the store. *)
Lemma privateCall_then_run (k s base apiPathBase : string) (a : call_args)
    (l : loc) (o : obj) (m : string) (ts : value) (st : state) :
  heap st !! l = Some o ->
  wf_obj o = true ->
  let payload := obj_delete "useServerTime" o in
  let signature := hmac_sha256_hex s (signed_message payload ts) in
  privateCall_then k s base apiPathBase a (DObj l) m ts st
  = sendResult
      (fetch (mkRequest
                (final_url base apiPathBase (path a) (noData a)
                   (final_params (noExtra a) payload ts signature))
                m true [("X-MBX-APIKEY", k)] (agent a)))
      (mkState (<[l := payload]> (heap st))
         (trace st ++ [EvHmac s (signed_message payload ts) signature])).
Proof.
  intros Hl Hwf payload signature. unfold privateCall_then.
  rewrite (bind_fulfilled _ _ _ _ _ (modify_at l _ o st Hl)).
  fold payload.
  assert (Hl' : heap (mkState (<[l := payload]> (heap st)) (trace st)) !! l
                = Some payload) by apply lookup_insert_eq.
  rewrite (bind_fulfilled _ _ _ _ _ (deref_at l payload _ Hl')).
  assert (Hwf' : wf_obj payload = true) by now apply wf_obj_delete.
  rewrite (bind_fulfilled _ _ _ _ _ (sign_run s _ ts _)).
  rewrite (spread_wf payload Hwf'), substr1_query.
  unfold final_url, final_params, signed_message in *. fold signature.
  destruct (truthy (noExtra a)); reflexivity.
Qed.

(** The callback of a signed call on [null]. *)
Lemma privateCall_then_null (k s base apiPathBase : string) (a : call_args)
    (m : string) (ts : value) (st : state) :
  let signature := hmac_sha256_hex s (signed_message [] ts) in
  privateCall_then k s base apiPathBase a DNull m ts st
  = sendResult
      (fetch (mkRequest
                (base
                 +:+ (if includes (path a) "/wapi" || includes (path a) "/sapi"
                      then "" else "/" +:+ apiPathBase)
                 +:+ path a
                 +:+ (if truthy (noData a) then ""
                      else if truthy (noExtra a) then makeQueryString None
                      else makeQueryString
                             (Some [("timestamp", ts); ("signature", VStr signature)])))
                m true [("X-MBX-APIKEY", k)] (agent a)))
      (mkState (heap st) (trace st ++ [EvHmac s (signed_message [] ts) signature])).
Proof.
  intros signature. unfold privateCall_then, signature, signed_message. cbn.
  destruct (truthy (noData a)), (truthy (noExtra a)); reflexivity.
Qed.



(** **** Missing credentials *)

Lemma alloc_keeps (o0 : obj) (st : state) (l : loc) (o : obj) :
  heap st !! l = Some o -> heap (snd (alloc o0 st)) !! l = Some o.
Proof.
  intros H. unfold alloc. cbn [snd heap].
  rewrite lookup_insert_ne; [exact H|].
  intros E. pose proof (is_fresh (dom (heap st))) as Hf.
  rewrite E in Hf. apply Hf. apply elem_of_dom. now exists o.
Qed.

Lemma privateCall_throws (apiKey apiSecret : option string)
    (base apiPathBase : string) (getTime : option (list event -> value))
    (pubCall : call_args -> Call value) (a : call_args) (st : state) :
  missing apiKey || missing apiSecret = true ->
  privateCall apiKey apiSecret base apiPathBase getTime pubCall a st
  = (Thrown (ExnError (newError
       "You need to pass an API key and secret to make authenticated calls.")),
     match data a with
     | DUndefined => snd (alloc [] st)
     | _ => st
     end).
Proof.
  intros H. unfold privateCall, bind, alloc, ret, throw.
  destruct (data a); cbv beta iota; now rewrite H.
Qed.

(** C7.  Without an API key the Key Caller throws a Configuration Error
    and leaves the state as it was; with one it hands the call to the
    Public Caller with the [X-MBX-APIKEY] header set.  Without an API key
    or without a secret the Signed Caller throws a Configuration Error.
    Both errors are thrown, not rejections of a promise, and no event, so
    no request, precedes them. *)
Theorem credentials_checked_first (apiKey apiSecret : option string)
    (base apiPathBase : string) (getTime : option (list event -> value))
    (pubCall : call_args -> Call value) (a : call_args) (st : state) :
  (missing apiKey = true ->
   keyCall apiKey pubCall a st
   = (Thrown (ExnError (newError
        "You need to pass an API key to make this call.")), st))
  /\ (missing apiKey = false ->
      keyCall apiKey pubCall a st
      = pubCall (mkArgs (path a) (data a) (Some (default "GET" (method a)))
                   (Some [("X-MBX-APIKEY", default "" apiKey)])
                   VUndefined VUndefined VUndefined (agent a)) st)
  /\ (missing apiKey || missing apiSecret = true ->
      fst (privateCall apiKey apiSecret base apiPathBase getTime pubCall a st)
      = Thrown (ExnError (newError
          "You need to pass an API key and secret to make authenticated calls."))
      /\ trace (snd (privateCall apiKey apiSecret base apiPathBase getTime
                       pubCall a st)) = trace st
      /\ forall (l : loc) (o : obj),
           heap st !! l = Some o ->
           heap (snd (privateCall apiKey apiSecret base apiPathBase getTime
                        pubCall a st)) !! l = Some o)
  /\ is_configuration_error (ExnError (newError
        "You need to pass an API key to make this call.")) = true
  /\ is_configuration_error (ExnError (newError
        "You need to pass an API key and secret to make authenticated calls."))
     = true.
Proof.
  repeat split.
  - intros H. unfold keyCall. now rewrite H.
  - intros H. unfold keyCall. now rewrite H.
  - now rewrite privateCall_throws.
  - rewrite privateCall_throws by assumption. now destruct (data a).
  - intros l o Hl. rewrite privateCall_throws by assumption. cbn [snd].
    destruct (data a); try exact Hl. now apply alloc_keeps.
Qed.

(** **** The timestamp *)

Lemma timestamp_clock (getTime : list event -> value)
    (pubCall : call_args -> Call value) (ag : Agent) (d : option obj) (st : state) :
  match d with
  | Some o => truthy (obj_get "useServerTime" o)
  | None => false
  end = false ->
  privateCall_timestamp getTime pubCall ag d st
  = (Fulfilled (getTime (trace st)),
     mkState (heap st) (trace st ++ [EvGetTime (getTime (trace st))])).
Proof. intros H. unfold privateCall_timestamp. now rewrite H. Qed.

Lemma timestamp_server (getTime : list event -> value) (base apiPathBase : string)
    (ag : Agent) (o : obj) (st : state) :
  truthy (obj_get "useServerTime" o) = true ->
  let treq := time_request base apiPathBase ag in
  let reply := network (trace st ++ [EvRequest treq]) treq in
  exists out : outcome value,
    privateCall_timestamp getTime (publicCall base apiPathBase) ag (Some o) st
    = (out, mkState (heap st)
              (trace st ++ [EvRequest treq; EvResponse treq reply]))
    /\ match server_time_of reply with
       | Some ts => out = Fulfilled ts
       | None => exists e, out = Rejected e
       end.
Proof.
  intros H treq reply. unfold privateCall_timestamp. rewrite H.
  unfold then_ at 1. rewrite publicCall_time. fold treq.
  unfold sendResult, then_. rewrite fetch_run. fold reply.
  unfold server_time_of, serverTime.
  destruct reply as [res|reason]; [|eexists; split; [reflexivity | now eexists]].
  destruct (ok res); cbn.
  - destruct (JSON_parse (body res)) as [r|]; cbn.
    + destruct (get_prop r "serverTime"); cbn;
        eexists; (split; [reflexivity|]); [reflexivity | now eexists].
    + eexists; split; [reflexivity | now eexists].
  - eexists; split; [reflexivity | now eexists].
Qed.

(** A signed call with credentials on a payload object of the store. *)
Lemma privateCall_run (apiKey apiSecret : option string) (base apiPathBase : string)
    (getTime : option (list event -> value)) (pubCall : call_args -> Call value)
    (a : call_args) (l : loc) (o : obj) (st : state) :
  missing apiKey = false ->
  missing apiSecret = false ->
  data a = DObj l ->
  heap st !! l = Some o ->
  privateCall apiKey apiSecret base apiPathBase getTime pubCall a st
  = then_ (privateCall_timestamp (default defaultGetTime getTime) pubCall
             (agent a) (Some o))
      (privateCall_then (default "" apiKey) (default "" apiSecret)
         base apiPathBase a (DObj l) (default "GET" (method a))) st.
Proof.
  intros Hk Hs Hd Hl. unfold privateCall. rewrite Hd, Hk, Hs.
  unfold bind at 1. cbn [ret orb].
  now rewrite (bind_fulfilled _ _ _ _ _ (deref_at l o st Hl)).
Qed.

Lemma privateCall_then_state (k s base apiPathBase : string) (a : call_args)
    (l : loc) (o : obj) (ts : value) (st : state) :
  heap st !! l = Some o ->
  wf_obj o = true ->
  exists reply : fetch_reply,
    snd (privateCall_then k s base apiPathBase a (DObj l)
           (default "GET" (method a)) ts st)
    = mkState (<[l := obj_delete "useServerTime" o]> (heap st))
        (trace st
         ++ signed_events k s base apiPathBase a
              (obj_delete "useServerTime" o) ts reply).
Proof.
  intros Hl Hwf.
  rewrite (privateCall_then_run k s base apiPathBase a l o _ ts st Hl Hwf).
  rewrite sendResult_fetch_state. cbn [trace heap].
  eexists. rewrite <- app_assoc. reflexivity.
Qed.



(** **** The caller's object *)

Lemma timestamp_heap (getTime : list event -> value) (base apiPathBase : string)
    (ag : Agent) (d : option obj) (st st1 : state) (out : outcome value) :
  privateCall_timestamp getTime (publicCall base apiPathBase) ag d st = (out, st1) ->
  heap st1 = heap st.
Proof.
  destruct (match d with
            | Some o => truthy (obj_get "useServerTime" o)
            | None => false
            end) eqn:Hflag.
  - destruct d as [o|]; [|discriminate].
    destruct (timestamp_server getTime base apiPathBase ag o st Hflag)
      as (out' & E & _).
    rewrite E. intros [= _ <-]. reflexivity.
  - rewrite timestamp_clock by exact Hflag. intros [= _ <-]. reflexivity.
Qed.

(** The timestamp of a signed call is resolved or rejected; with a falsy
    [useServerTime] it is resolved. *)
Lemma timestamp_settles (getTime : list event -> value) (base apiPathBase : string)
    (ag : Agent) (o : obj) (st st1 : state) (out : outcome value) :
  privateCall_timestamp getTime (publicCall base apiPathBase) ag (Some o) st
  = (out, st1) ->
  match out with
  | Fulfilled _ => True
  | Rejected _ => truthy (obj_get "useServerTime" o) = true
  | Thrown _ => False
  end.
Proof.
  destruct (truthy (obj_get "useServerTime" o)) eqn:Hflag.
  - destruct (timestamp_server getTime base apiPathBase ag o st Hflag)
      as (out' & E & Hout).
    rewrite E. intros [= <- _].
    destruct (server_time_of _); [now subst out'|].
    now destruct Hout as (e & ->).
  - rewrite timestamp_clock by exact Hflag. now intros [= <- _].
Qed.

(** A signed call whose timestamp is rejected ends there. *)
Lemma privateCall_unresolved (apiKey apiSecret : option string)
    (base apiPathBase : string) (getTime : option (list event -> value))
    (pubCall : call_args -> Call value) (a : call_args) (l : loc) (o : obj)
    (st st1 : state) (e : exn) :
  missing apiKey = false ->
  missing apiSecret = false ->
  data a = DObj l ->
  heap st !! l = Some o ->
  privateCall_timestamp (default defaultGetTime getTime) pubCall (agent a)
    (Some o) st = (Rejected e, st1) ->
  privateCall apiKey apiSecret base apiPathBase getTime pubCall a st
  = (Rejected e, st1).
Proof.
  intros Hk Hs Hd Hl Hts.
  rewrite (privateCall_run _ _ _ _ _ _ a l o st Hk Hs Hd Hl).
  unfold then_. now rewrite Hts.
Qed.


(** **** The data-stream operations *)

Lemma privateCall_ignores_noExtraData (apiKey apiSecret : option string)
    (base apiPathBase : string) (getTime : option (list event -> value))
    (pubCall : call_args -> Call value) (a : call_args) (x : value) :
  privateCall apiKey apiSecret base apiPathBase getTime pubCall
    (with_noExtraData x a)
  = privateCall apiKey apiSecret base apiPathBase getTime pubCall a.
Proof. reflexivity. Qed.

(** A signed call without the no-data and no-extra flags, once its
    timestamp is resolved. *)
Lemma privateCall_signed (apiKey apiSecret : option string)
    (base apiPathBase : string) (getTime : option (list event -> value))
    (a : call_args) (l : loc) (o : obj) (st st1 : state) (ts : value) :
  missing apiKey = false ->
  missing apiSecret = false ->
  data a = DObj l ->
  heap st !! l = Some o ->
  wf_obj o = true ->
  truthy (noData a) = false ->
  truthy (noExtra a) = false ->
  includes (path a) "/wapi" || includes (path a) "/sapi" = false ->
  privateCall_timestamp (default defaultGetTime getTime)
    (publicCall base apiPathBase) (agent a) (Some o) st = (Fulfilled ts, st1) ->
  let payload := obj_delete "useServerTime" o in
  let signature :=
    hmac_sha256_hex (default "" apiSecret) (signed_message payload ts) in
  let params :=
    obj_set "signature" (VStr signature) (obj_set "timestamp" ts payload) in
  privateCall apiKey apiSecret base apiPathBase getTime
    (publicCall base apiPathBase) a st
  = sendResult
      (fetch (mkRequest
                (base +:+ ("/" +:+ apiPathBase) +:+ path a
                 +:+ "?" +:+ String.concat "&" (query_pairs params))
                (default "GET" (method a)) true
                [("X-MBX-APIKEY", default "" apiKey)] (agent a)))
      (mkState (<[l := payload]> (heap st))
         (trace st1
          ++ [EvHmac (default "" apiSecret) (signed_message payload ts) signature])).
Proof.
  intros Hk Hs Hd Hl Hwf Hnd Hne Hp Hts payload signature params.
  assert (Hdist : distinct (Object_keys params) = true).
  { unfold params. do 2 (apply distinct_set_named; [reflexivity|]).
    apply distinct_delete. unfold wf_obj in Hwf.
    now apply andb_true_iff in Hwf as [Hdist _]. }
  rewrite (privateCall_run _ _ _ _ _ _ a l o st Hk Hs Hd Hl).
  rewrite (then_fulfilled _ _ _ _ _ Hts).
  pose proof (timestamp_heap _ _ _ _ _ _ _ _ Hts) as Hh.
  assert (Hl1 : heap st1 !! l = Some o) by now rewrite Hh.
  rewrite (privateCall_then_run _ _ base apiPathBase a l o _ ts st1 Hl1 Hwf).
  rewrite sendResult_fetch_settles. rewrite Hh.
  unfold final_url, final_params. rewrite Hnd, Hne, Hp.
  fold payload signature params.
  now rewrite (makeQueryString_pairs params Hdist).
Qed.

Lemma privateCall_signed_as (apiKey apiSecret : option string)
    (base apiPathBase : string) (getTime : option (list event -> value))
    (a : call_args) (l : loc) (o : obj) (st : state) :
  missing apiKey = false ->
  missing apiSecret = false ->
  data a = DObj l ->
  heap st !! l = Some o ->
  wf_obj o = true ->
  truthy (noData a) = false ->
  truthy (noExtra a) = false ->
  includes (path a) "/wapi" || includes (path a) "/sapi" = false ->
  signed_as (default "" apiKey) (default "" apiSecret) l o (agent a) st
    (base +:+ ("/" +:+ apiPathBase) +:+ path a) (default "GET" (method a))
    (privateCall_timestamp (default defaultGetTime getTime)
       (publicCall base apiPathBase) (agent a) (Some o) st)
    (privateCall apiKey apiSecret base apiPathBase getTime
       (publicCall base apiPathBase) a st).
Proof.
  intros Hk Hs Hd Hl Hwf Hnd Hne Hp. unfold signed_as.
  destruct (privateCall_timestamp (default defaultGetTime getTime)
              (publicCall base apiPathBase) (agent a) (Some o) st)
    as [out st1] eqn:Hts.
  pose proof (timestamp_settles _ _ _ _ _ _ _ _ Hts) as Hout.
  destruct out as [e|e|ts]; [exact Hout| |].
  - exact (privateCall_unresolved _ _ _ _ _ _ a l o st st1 e Hk Hs Hd Hl Hts).
  - split.
    + rewrite (privateCall_signed apiKey apiSecret base apiPathBase getTime
                 a l o st st1 ts Hk Hs Hd Hl Hwf Hnd Hne Hp Hts).
      now rewrite <- !string_app_assoc.
    + apply signed_query_read_back; [|apply signature_truthy].
      apply distinct_delete. unfold wf_obj in Hwf.
      now apply andb_true_iff in Hwf as [Hdist _].
Qed.


(** *** The order wrappers *)

(** X23.  The futures order wrapper on any payload object without a
    [type] that has a symbol and a side: the copy it validates never gets
    the default type, and validation stops at [type].  Nothing is sent,
    and the caller's object is left with the default type. *)
Lemma futuresOrder_without_type (call : call_args -> Call value) (l : loc) (o : obj)
    (url : string) (ag : Agent) (st : state) :
  heap st !! l = Some o ->
  distinct (Object_keys o) = true ->
  obj_get "type" o = VUndefined ->
  absent_or_NaN (obj_get "symbol" o) = false ->
  absent_or_NaN (obj_get "side" o) = false ->
  fst (futuresOrder call (DObj l) url ag st)
  = Thrown (ExnError (newError "Method futuresOrder requires type parameter."))
  /\ trace (snd (futuresOrder call (DObj l) url ag st)) = trace st
  /\ heap (snd (futuresOrder call (DObj l) url ag st)) !! l
     = Some (obj_set "type" (VStr "LIMIT") o).
Proof.
  intros Hl Hd Htype Hsym Hside.
  set (copy := spread_into [("timeInForce", VStr "GTC")] o).
  set (l' := fresh (dom (heap st))).
  assert (Hne : l' <> l) by exact (fresh_not_allocated st l o Hl).
  set (st2 := mkState (<[l := obj_set "type" (VStr "LIMIT") o]>
                         (<[l' := copy]> (heap st))) (trace st)).
  assert (Hl2 : heap st2 !! l = Some (obj_set "type" (VStr "LIMIT") o))
    by apply lookup_insert_eq.
  assert (Hl2' : heap st2 !! l' = Some copy).
  { unfold st2. cbn [heap]. rewrite lookup_insert_ne by congruence.
    apply lookup_insert_eq. }
  assert (Hrun : futuresOrder call (DObj l) url ag st
                 = (Thrown (ExnError (newError
                      "Method futuresOrder requires type parameter.")), st2)).
  { unfold futuresOrder.
    rewrite (bind_fulfilled (default_payload (DObj l)) _ (DObj l) st st eq_refl).
    rewrite (bind_fulfilled _ _ _ _ _ (payload_obj_at l o st Hl)).
    rewrite Htype. cbn [includes_value truthy negb orb].
    unfold bind at 1. unfold bind at 1. rewrite alloc_run. fold l' copy.
    cbv beta iota. unfold ret at 1. cbv beta iota.
    assert (Hl1 : heap (mkState (<[l' := copy]> (heap st)) (trace st)) !! l
                  = Some o).
    { cbn [heap]. now rewrite lookup_insert_ne by congruence. }
    rewrite (bind_fulfilled _ _ _ _ _ (modify_at l _ o _ Hl1)).
    cbn [heap trace]. fold st2.
    rewrite (bind_fulfilled _ _ _ _ _ (payload_obj_at l _ st2 Hl2)).
    rewrite (obj_get_set_named "type" "type" _ o eq_refl).
    cbn [String.eqb Ascii.eqb Bool.eqb truthy negb andb includes_value existsb orb].
    unfold bind. rewrite (checkParams_at _ l' copy _ st2 Hl2').
    assert (Hc : check_required "futuresOrder" copy
                   (["symbol"; "side"; "type"; "quantity"]
                    ++ ["price"; "timeInForce"] ++ [] ++ [])
                 = Some (ExnError (newError
                     "Method futuresOrder requires type parameter."))).
    { rewrite check_required_find. unfold copy. cbn [List.find app].
      rewrite !obj_member_own by reflexivity.
      rewrite !(obj_get_spread_into _ o _ Hd).
      assert (Hkeep : forall k, absent_or_NaN (obj_get k o) = false ->
                absent_or_NaN (if obj_has k o then obj_get k o
                               else obj_get k [("timeInForce", VStr "GTC")])
                = false).
      { intros k H. destruct (obj_has k o) eqn:E; [exact H|].
        rewrite (obj_has_false_get k o E) in H. discriminate. }
      rewrite (Hkeep "symbol" Hsym), (Hkeep "side" Hside).
      rewrite Htype. now destruct (obj_has "type" o). }
    simpl in Hc |- *. now rewrite Hc. }
  rewrite Hrun. cbn [fst snd]. repeat split. exact Hl2.
Qed.

(** C8.  The futures order wrapper on [{symbol, side, quantity}] without
    a [type].  The copy that is validated and sent is made before the
    default type is set, and the default is set on the caller's object:
    the copy has [timeInForce] and no [type], and validation stops at
    [type], whether or not a [price] is given.  No request is made. *)
Theorem futuresOrder_default_type_misses_copy (opts : options) (ag : Agent) :
  let payload :=
    [("symbol", VStr "BTCUSDT"); ("side", VStr "BUY"); ("quantity", VNum 1)] in
  let run := client_futuresOrder opts (DObj 0%nat) ag (store_of payload) in
  let priced :=
    client_futuresOrder opts (DObj 0%nat) ag
      (store_of (payload ++ [("price", VNum 9000)])) in
  fst run
  = Thrown (ExnError (newError "Method futuresOrder requires type parameter."))
  /\ heap (snd run) !! 0%nat = Some (payload ++ [("type", VStr "LIMIT")])
  /\ heap (snd run) !! 1%nat = Some (("timeInForce", VStr "GTC") :: payload)
  /\ trace (snd run) = []
  /\ fst priced
     = Thrown (ExnError (newError "Method futuresOrder requires type parameter.")).
Proof.
  intros payload run priced. subst run priced payload.
  unfold client_futuresOrder, futuresOrder.
  repeat split; vm_compute; reflexivity.
Qed.

End Callers.

(** * Further properties *)

(** ** Required fields *)

Lemma find_ext {A} (f g : A -> bool) (l : list A) :
  (forall x, In x l -> f x = g x) -> List.find f l = List.find g l.
Proof.
  induction l as [|x l IH]; intros H; [reflexivity|]. cbn [List.find].
  rewrite (H x (or_introl eq_refl)). destruct (g x); [reflexivity|].
  apply IH. intros y Hy. apply H. now right.
Qed.

(** For names that a plain object does not inherit, the Parameter
    Validator looks at own properties only. *)
Lemma check_required_own (name : string) (p : obj) (requires : list string) :
  (forall r, In r requires -> obj_get r Object_prototype = VUndefined) ->
  check_required name p requires
  = match List.find (fun r => absent_or_NaN (obj_get r p)) requires with
    | Some r =>
        Some (ExnError (newError
                ("Method " +:+ name +:+ " requires " +:+ r +:+ " parameter.")))
    | None => None
    end.
Proof.
  intros H. rewrite check_required_find.
  rewrite (find_ext (fun r => absent_or_NaN (obj_member r p))
             (fun r => absent_or_NaN (obj_get r p)) requires); [reflexivity|].
  intros r Hr. now rewrite (obj_member_own r p (H r Hr)).
Qed.

Lemma futures_required_own (type : value) (r : string) :
  In r (futures_required type) -> obj_get r Object_prototype = VUndefined.
Proof.
  unfold futures_required.
  destruct (includes_value ["LIMIT"] type),
           (includes_value ["STOP"; "TAKE_PROFIT"] type),
           (includes_value ["STOP_MARKET"; "TAKE_PROFIT_MARKET"] type);
    cbn [app In]; intros H;
    repeat (destruct H as [<-|H]; [reflexivity|]); destruct H.
Qed.

(** ** Names zipped with values *)

Lemma zipObject_app (props : list string) (values : list value) (acc : obj) :
  distinct (Object_keys acc ++ props) = true ->
  forallb (fun k => negb (is_index k) && negb (k =? "__proto__")) props = true ->
  zipObject props values acc
  = acc ++ combine props (take_padded (length props) values).
Proof.
  revert values acc.
  induction props as [|k props IH]; intros values acc Hd Hn.
  - cbn. now rewrite app_nil_r.
  - cbn [forallb] in Hn. apply andb_true_iff in Hn as [Hk Hn].
    apply andb_true_iff in Hk as [Hi Hp].
    apply negb_true_iff in Hi, Hp.
    cbn [zipObject length take_padded combine]. unfold obj_assign. rewrite Hp.
    assert (Hno : obj_has k acc = false).
    { destruct (obj_has k acc) eqn:E; [|reflexivity].
      apply obj_has_In in E. now apply (distinct_middle _ _ _ Hd) in E. }
    rewrite (obj_set_fresh_named k _ acc Hi Hno).
    rewrite IH; [now rewrite <- app_assoc | | exact Hn].
    unfold Object_keys. rewrite map_app. cbn [map fst].
    now rewrite <- app_assoc.
Qed.

Lemma zipObject_named (props : list string) (values : list value) :
  distinct props = true ->
  forallb (fun k => negb (is_index k) && negb (k =? "__proto__")) props = true ->
  zipObject props values [] = combine props (take_padded (length props) values).
Proof. intros Hd Hn. now rewrite zipObject_app. Qed.

Lemma take_padded_exact (values more : list value) :
  take_padded (length values) (values ++ more) = values.
Proof.
  induction values as [|v values IH]; [reflexivity|].
  cbn. now rewrite IH.
Qed.

Lemma map_values_total (g : value -> value) (l : list value) :
  map_values (fun x => Some (g x)) l = Some (map g l).
Proof.
  induction l as [|x l IH]; [reflexivity|]. cbn [map_values map].
  now rewrite IH.
Qed.

(** ** Responses indexed by symbol *)

Lemma find_app {A} (f : A -> bool) (xs ys : list A) :
  List.find f (xs ++ ys)
  = match List.find f xs with
    | Some x => Some x
    | None => List.find f ys
    end.
Proof.
  induction xs as [|x xs IH]; [reflexivity|]. cbn [app List.find].
  now destruct (f x).
Qed.

Lemma obj_get_assign (k k' : string) (v : value) (o : obj) :
  k' <> "__proto__" ->
  obj_get k' (obj_assign k v o) = if k =? k' then v else obj_get k' o.
Proof.
  intros Hp. unfold obj_assign.
  destruct (String.eqb_spec k "__proto__") as [->|_]; [|apply obj_get_set].
  destruct (String.eqb_spec "__proto__" k') as [E|_]; [congruence | reflexivity].
Qed.

Lemma wf_obj_assign (k : string) (v : value) (o : obj) :
  wf_obj o = true -> wf_obj (obj_assign k v o) = true.
Proof.
  intros H. unfold obj_assign. destruct (k =? "__proto__"); [exact H|].
  now apply wf_obj_set.
Qed.

Lemma readable_get_prop (cur : value) (k : string) :
  readable cur = true -> exists v, get_prop cur k = Some v.
Proof. destruct cur; try discriminate; intros _; eexists; reflexivity. Qed.

Lemma unreadable_get_prop (cur : value) (k : string) :
  readable cur = false -> get_prop cur k = None.
Proof. now destruct cur. Qed.

Lemma obj_has_replace (k k' : string) (v : value) (o : obj) :
  obj_has k' (obj_replace k v o) = obj_has k' o.
Proof.
  induction o as [|[k0 v0] r IH]; [reflexivity|]. cbn [obj_replace].
  destruct (k0 =? k); cbn [obj_has]; [reflexivity | now rewrite IH].
Qed.

Lemma obj_has_add_index (n : N) (k k' : string) (v : value) (o : obj) :
  obj_has k' (obj_add_index n k v o) = (k =? k') || obj_has k' o.
Proof.
  induction o as [|[k0 v0] r IH]; [cbn; now rewrite orb_false_r|].
  cbn [obj_add_index]. destruct (array_index k0) as [m|]; [|reflexivity].
  destruct (m <? n)%N; [|reflexivity].
  cbn [obj_has]. rewrite IH.
  now destruct (k0 =? k'), (k =? k').
Qed.

Lemma obj_has_set (k k' : string) (v : value) (o : obj) :
  obj_has k' (obj_set k v o) = (k =? k') || obj_has k' o.
Proof.
  unfold obj_set. destruct (obj_has k o) eqn:E.
  - rewrite obj_has_replace.
    destruct (String.eqb_spec k k') as [<-|_]; [now rewrite E | reflexivity].
  - destruct (array_index k) as [n|]; [apply obj_has_add_index|].
    rewrite obj_has_app. cbn [obj_has]. rewrite orb_false_r. apply orb_comm.
Qed.

Lemma obj_has_assign (k k' : string) (v : value) (o : obj) :
  k' <> "__proto__" ->
  obj_has k' (obj_assign k v o) = (k =? k') || obj_has k' o.
Proof.
  intros Hp. unfold obj_assign.
  destruct (String.eqb_spec k "__proto__") as [->|_]; [|apply obj_has_set].
  destruct (String.eqb_spec "__proto__" k') as [E|_]; [congruence | reflexivity].
Qed.

(** Filing the elements of a response under their symbols: a later
    element replaces an earlier one of the same symbol. *)
Lemma index_by_symbol_last (pick : value -> option value) (r : list value)
    (out res : obj) (s : string) :
  index_by_symbol pick r out = Some res ->
  s <> "__proto__" ->
  obj_get s res
  = match List.find (fun cur => symbol_of cur =? s) (rev r) with
    | Some cur => default VUndefined (pick cur)
    | None => obj_get s out
    end.
Proof.
  intros H Hs. revert out H.
  induction r as [|cur r IH]; intros out H.
  - injection H as <-. reflexivity.
  - cbn [index_by_symbol] in H.
    destruct (get_prop cur "symbol") as [sym|] eqn:Esym; [|discriminate].
    destruct (pick cur) as [v|] eqn:Ev; [|discriminate].
    unfold js_String in H. destruct (convertible sym); [|discriminate].
    rewrite (IH _ H). cbn [rev]. rewrite find_app.
    destruct (List.find _ (rev r)); [reflexivity|].
    cbn [List.find]. unfold symbol_of. rewrite Esym. cbn [default from_option id].
    rewrite (obj_get_assign _ _ _ _ Hs).
    destruct (to_string sym =? s); [now rewrite Ev | reflexivity].
Qed.

(** The result has a property of its own for the symbols of the
    elements, and for no other name. *)
Lemma index_by_symbol_has (pick : value -> option value) (r : list value)
    (out res : obj) (s : string) :
  index_by_symbol pick r out = Some res ->
  s <> "__proto__" ->
  obj_has s res = existsb (fun cur => symbol_of cur =? s) r || obj_has s out.
Proof.
  intros H Hs. revert out H.
  induction r as [|cur r IH]; intros out H.
  - injection H as <-. reflexivity.
  - cbn [index_by_symbol] in H.
    destruct (get_prop cur "symbol") as [sym|] eqn:Esym; [|discriminate].
    destruct (pick cur) as [v|] eqn:Ev; [|discriminate].
    unfold js_String in H. destruct (convertible sym); [|discriminate].
    rewrite (IH _ H), (obj_has_assign _ _ _ _ Hs).
    cbn [existsb]. unfold symbol_of at 2. rewrite Esym.
    cbn [default from_option id].
    now destruct (to_string sym =? s), (existsb _ r).
Qed.

Lemma index_by_symbol_own (pick : value -> option value) (r : list value)
    (out res : obj) :
  index_by_symbol pick r out = Some res ->
  obj_has "__proto__" out = false -> obj_has "__proto__" res = false.
Proof.
  revert out. induction r as [|cur r IH]; intros out H Ho.
  - now injection H as <-.
  - cbn [index_by_symbol] in H.
    destruct (get_prop cur "symbol") as [sym|]; [|discriminate].
    destruct (pick cur) as [v|]; [|discriminate].
    destruct (js_String sym) as [name|]; [|discriminate].
    apply (IH _ H). unfold obj_assign.
    destruct (String.eqb_spec name "__proto__") as [->|Hne]; [exact Ho|].
    rewrite obj_has_set, Ho, orb_false_r. now apply String.eqb_neq.
Qed.

Lemma index_by_symbol_wf (pick : value -> option value) (r : list value)
    (out res : obj) :
  index_by_symbol pick r out = Some res -> wf_obj out = true -> wf_obj res = true.
Proof.
  revert out. induction r as [|cur r IH]; intros out H Hwf.
  - now injection H as <-.
  - cbn [index_by_symbol] in H.
    destruct (get_prop cur "symbol") as [sym|]; [|discriminate].
    destruct (pick cur) as [v|]; [|discriminate].
    destruct (js_String sym) as [name|]; [|discriminate].
    apply (IH _ H). now apply wf_obj_assign.
Qed.

(** The reduction goes through exactly when every element can be
    filed. *)
Lemma index_by_symbol_filed (pick : value -> option value) (r : list value)
    (out : obj) :
  (forall cur, readable cur = true -> exists v, pick cur = Some v) ->
  is_some (index_by_symbol pick r out) = forallb filed r.
Proof.
  intros Hp. revert out. induction r as [|cur r IH]; intros out; [reflexivity|].
  cbn [index_by_symbol forallb]. unfold filed at 1.
  destruct (readable cur) eqn:E.
  - destruct (readable_get_prop cur "symbol" E) as (sym & ->).
    destruct (Hp cur E) as (v & ->). cbn [default from_option id andb].
    unfold js_String. destruct (convertible sym); [apply IH | reflexivity].
  - now rewrite (unreadable_get_prop cur "symbol" E).
Qed.

(** ** The signature in the query string *)

Lemma all_of_cons (p : ascii -> bool) (c : ascii) (r : string) :
  all_of p (String c r) = p c && all_of p r.
Proof. unfold all_of. cbn [drop_while]. now destruct (p c). Qed.

Lemma encodeURIComponent_unreserved (s : string) :
  all_of unreserved s = true -> encodeURIComponent s = s.
Proof.
  induction s as [|c r IH]; [reflexivity|].
  rewrite all_of_cons. intros H. apply andb_true_iff in H as [Hc Hr].
  cbn [encodeURIComponent]. now rewrite Hc, (IH Hr).
Qed.

Lemma hex_lower_digit (d : Z) :
  (0 <= d < 16)%Z ->
  unreserved (SHA256.hex_lower d) = true
  /\ is_hex_digit (SHA256.hex_lower d) = true.
Proof.
  intros H.
  assert (E : In d [0; 1; 2; 3; 4; 5; 6; 7; 8; 9; 10; 11; 12; 13; 14; 15]%Z).
  { cbn [In]. lia. }
  cbn [In] in E.
  repeat (destruct E as [<-|E]; [now split|]). destruct E.
Qed.

Lemma be_bytes_range (n : nat) (x : Z) :
  Forall (fun b => (0 <= b < 256)%Z) (SHA256.be_bytes n x).
Proof.
  unfold SHA256.be_bytes. apply List.Forall_forall. intros b Hb.
  apply in_map_iff in Hb as (i & <- & _). now apply Z.mod_pos_bound.
Qed.

Lemma sha256_range (msg : list Z) :
  Forall (fun b => (0 <= b < 256)%Z) (SHA256.sha256 msg).
Proof.
  unfold SHA256.sha256. apply List.Forall_forall. intros b Hb.
  apply in_flat_map in Hb as (w & _ & Hb).
  exact (proj1 (List.Forall_forall _ _) (be_bytes_range 4 w) b Hb).
Qed.

Lemma hex_digits (bs : list Z) :
  Forall (fun b => (0 <= b < 256)%Z) bs ->
  all_of unreserved (SHA256.hex bs) = true
  /\ all_of is_hex_digit (SHA256.hex bs) = true.
Proof.
  unfold SHA256.hex. induction 1 as [|b bs Hb _ [IH1 IH2]]; [now split|].
  cbn [flat_map app string_of_list_ascii]. rewrite !all_of_cons, IH1, IH2.
  assert (H1 : (0 <= b / 16 < 16)%Z).
  { split; [apply Z.div_pos; lia | apply Z.div_lt_upper_bound; lia]. }
  assert (H2 : (0 <= b mod 16 < 16)%Z) by now apply Z.mod_pos_bound.
  destruct (hex_lower_digit _ H1) as [-> ->].
  destruct (hex_lower_digit _ H2) as [-> ->]. now split.
Qed.

(** X21.  The signature of a signed call is sixty-four hexadecimal
    digits, whatever the secret and the message, so the Query Encoder
    sends it as it is: its pair is [signature=] followed by the digest. *)
Theorem signature_sent_verbatim (secret msg : string) :
  String.length (hmac_sha256_hex secret msg) = 64%nat
  /\ all_of is_hex_digit (hmac_sha256_hex secret msg) = true
  /\ encodeURIComponent (hmac_sha256_hex secret msg) = hmac_sha256_hex secret msg
  /\ render_pair ("signature", VStr (hmac_sha256_hex secret msg))
     = "signature=" +:+ hmac_sha256_hex secret msg.
Proof.
  assert (H : all_of unreserved (hmac_sha256_hex secret msg) = true
              /\ all_of is_hex_digit (hmac_sha256_hex secret msg) = true).
  { unfold hmac_sha256_hex, SHA256.hmac. apply hex_digits, sha256_range. }
  destruct H as [Hu Hh].
  split; [apply hmac_sha256_hex_length|]. split; [exact Hh|].
  split; [now apply encodeURIComponent_unreserved|].
  unfold render_pair. cbn [fst snd to_string].
  now rewrite (encodeURIComponent_unreserved _ Hu).
Qed.

(** ** Validated, then dropped *)

(** X22.  The Parameter Validator and the Query Encoder disagree about
    zero, the empty string, [null] and [false]: a required field with
    such a value passes validation, and is then missing from the query
    string of the request, whose pairs read back without that name. *)
Theorem required_falsy_field_is_dropped (name r : string) (o : obj) :
  distinct (Object_keys o) = true ->
  obj_get r Object_prototype = VUndefined ->
  absent_or_NaN (obj_get r o) = false ->
  truthy (obj_get r o) = false ->
  check_required name o [r] = None
  /\ exists pairs : list (string * string),
       parse_query (substr1 (makeQueryString (Some o))) = Some pairs
       /\ ~ In r (map fst pairs).
Proof.
  intros Hd Hown Ha Ht. split.
  - rewrite check_required_find. cbn [List.find].
    now rewrite (obj_member_own r o Hown), Ha.
  - eexists. split.
    + rewrite (makeQueryString_pairs o Hd).
      change (substr1 ("?" +:+ String.concat "&" (query_pairs o)))
        with (String.concat "&" (query_pairs o)).
      apply parse_query_pairs.
    + rewrite map_map. cbn [fst]. intros Hin.
      apply in_map_iff in Hin as ([k v] & Ek & Hin). cbn in Ek. subst k.
      apply filter_In in Hin as [Hin Hv]. cbn in Hv.
      rewrite (obj_get_distinct o r v Hd Hin) in Ht. congruence.
Qed.

(** ** A timestamp that is not sent *)

(** With a falsy timestamp, the message that is signed and the
    parameters that are sent have no timestamp. *)
Lemma falsy_timestamp_left_out (payload : obj) (ts : value) (signature : string) :
  distinct (Object_keys payload) = true ->
  obj_has "timestamp" payload = false ->
  obj_has "signature" payload = false ->
  truthy ts = false ->
  truthy (VStr signature) = true ->
  signed_message payload ts = String.concat "&" (query_pairs payload)
  /\ query_pairs (final_params VUndefined payload ts signature)
     = query_pairs payload ++ [render_pair ("signature", VStr signature)].
Proof.
  intros Hd Ht Hs Hts Hsig.
  assert (E : obj_set "timestamp" ts payload = payload ++ [("timestamp", ts)])
    by now apply obj_set_fresh_named.
  split.
  - unfold signed_message. rewrite makeQueryString_pairs.
    + rewrite E, query_pairs_app. unfold query_pairs at 2. cbn [List.filter snd].
      rewrite Hts. cbn [map]. now rewrite app_nil_r.
    + now apply distinct_set_named.
  - unfold final_params. cbn [truthy]. rewrite E.
    rewrite obj_set_fresh_named;
      [|reflexivity | rewrite obj_has_app, Hs; reflexivity].
    rewrite !query_pairs_app. unfold query_pairs at 2 3.
    cbn [List.filter snd]. rewrite Hts, Hsig. cbn [map].
    now rewrite app_nil_r.
Qed.

(** ** The operations of the client

    As before, for an arbitrary [JSON.parse], network and clock, and for
    whatever [lodash.zipobject] makes of a value that is not an array. *)

Section Operations.

Context (JSON_parse : string -> option value)
        (network : list event -> Request -> fetch_reply)
        (Date_now : list event -> Z)
        (zip_other : list string -> value -> list (string * value)).

Local Abbreviation defaultGetTime := (defaultGetTime Date_now).
Local Abbreviation fetch := (fetch network).
Local Abbreviation api_error_of := (api_error_of JSON_parse).
Local Abbreviation sendResult := (sendResult JSON_parse).
Local Abbreviation settled := (settled JSON_parse).
Local Abbreviation server_time_of := (server_time_of JSON_parse).
Local Abbreviation publicCall := (publicCall JSON_parse network).
Local Abbreviation publicCall_completion :=
  (publicCall_completion JSON_parse network).
Local Abbreviation privateCall_then := (privateCall_then JSON_parse network).
Local Abbreviation privateCall := (privateCall JSON_parse network Date_now).
Local Abbreviation pubCall := (pubCall JSON_parse network).
Local Abbreviation kCall := (kCall JSON_parse network).
Local Abbreviation privCall := (privCall JSON_parse network Date_now).
Local Abbreviation futuresPubCall := (futuresPubCall JSON_parse network).
Local Abbreviation futuresPrivCall := (futuresPrivCall JSON_parse network Date_now).
Local Abbreviation zip := (zip zip_other).

(** *** Public calls *)

Lemma settled_not_thrown (reply : fetch_reply) (st : state) :
  match settled reply with
  | Thrown e => (Rejected e, st)
  | out => (out, st)
  end = (settled reply, st).
Proof.
  destruct reply as [res|reason]; [|reflexivity]. unfold settled.
  destruct (ok res); [|reflexivity].
  destruct (JSON_parse (body res)); reflexivity.
Qed.

Lemma sendResult_fetch_run (r : Request) (st : state) :
  sendResult (fetch r) st
  = (settled (network (trace st ++ [EvRequest r]) r),
     mkState (heap st)
       (trace st ++ [EvRequest r;
                     EvResponse r (network (trace st ++ [EvRequest r]) r)])).
Proof.
  unfold sendResult, then_. rewrite fetch_run.
  destruct (network (trace st ++ [EvRequest r]) r) as [res|reason]; [|reflexivity].
  unfold settled. destruct (ok res); cbn; [|reflexivity].
  destruct (JSON_parse (body res)); reflexivity.
Qed.

Lemma deref_run (d : data_arg) (st : state) :
  deref d st = (Fulfilled (payload_in (heap st) d), st).
Proof. destruct d; reflexivity. Qed.

Lemma publicCall_run (base apiPathBase : string) (a : call_args) (st : state) :
  let req := public_request base apiPathBase a (payload_in (heap st) (data a)) in
  let reply := network (trace st ++ [EvRequest req]) req in
  publicCall base apiPathBase a st
  = (settled reply,
     mkState (heap st) (trace st ++ [EvRequest req; EvResponse req reply])).
Proof.
  intros req reply. unfold publicCall.
  rewrite (bind_fulfilled _ _ _ _ _ (deref_run (data a) st)).
  apply sendResult_fetch_run.
Qed.

(** X2.  A public call builds the URL of its request first: when the
    Query Encoder throws on the payload, the call throws the same
    exception, and nothing else happens.  When the Query Encoder returns,
    the call makes exactly one request and records its reply; it leaves
    the store as it was and settles as the Result Unwrapper decides from
    the reply.  The request goes to the base, a slash, the path prefix
    and the path, by [GET] and without headers unless the call says
    otherwise; without a payload the URL ends there, and with a payload
    object the Query Encoder's rendering of it follows. *)
Theorem publicCall_one_request (base apiPathBase : string) (a : call_args)
    (st : state) :
  let q := payload_in (heap st) (data a) in
  let req := public_request base apiPathBase a q in
  let reply := network (trace st ++ [EvRequest req]) req in
  (forall e : exn,
     makeQueryString_completion q = inl e ->
     publicCall_completion base apiPathBase a st = (Thrown e, st))
  /\ (forall s : string,
        makeQueryString_completion q = inr s ->
        s = makeQueryString q
        /\ publicCall_completion base apiPathBase a st
           = publicCall base apiPathBase a st)
  /\ publicCall base apiPathBase a st
     = (settled reply,
        mkState (heap st) (trace st ++ [EvRequest req; EvResponse req reply]))
  /\ req_method req = default "GET" (method a)
  /\ req_headers req = default [] (headers a)
  /\ (data a = DUndefined \/ data a = DNull ->
      makeQueryString_completion q = inr ""
      /\ url req = base +:+ "/" +:+ apiPathBase +:+ path a +:+ "")
  /\ (forall (l : loc) (o : obj),
        data a = DObj l -> heap st !! l = Some o ->
        distinct (Object_keys o) = true ->
        makeQueryString_completion q
        = match List.find (fun kv => negb (renders kv)) o with
          | Some kv => inl (thrown_at kv)
          | None => inr ("?" +:+ String.concat "&" (query_pairs o))
          end
        /\ url req = base +:+ "/" +:+ apiPathBase +:+ path a
                     +:+ "?" +:+ String.concat "&" (query_pairs o)).
Proof.
  intros q req reply.
  split; [|split; [|split; [apply publicCall_run|]]].
  - intros e He. unfold publicCall_completion.
    rewrite (bind_fulfilled _ _ _ _ _ (deref_run (data a) st)).
    fold q. now rewrite He.
  - intros s Hs. split; [now apply makeQueryString_completion_returns|].
    unfold publicCall_completion, publicCall.
    rewrite !(bind_fulfilled _ _ _ _ _ (deref_run (data a) st)).
    fold q. rewrite Hs.
    now rewrite (makeQueryString_completion_returns q s Hs).
  - split; [reflexivity|]. split; [reflexivity|]. split.
    + intros [H|H]; unfold req, public_request, q; rewrite H; now split.
    + intros l o Hd Hl Hdist. unfold req, public_request, q. rewrite Hd.
      cbn [payload_in url]. rewrite Hl. cbn [default from_option id].
      split; [now apply makeQueryString_completion_pairs|].
      now rewrite (makeQueryString_pairs o Hdist).
Qed.

(** *** Signed calls *)

Lemma privateCall_then_heap (k s base apiPathBase : string) (a : call_args)
    (d : data_arg) (m : string) (ts : value) (st : state) :
  heap (snd (privateCall_then k s base apiPathBase a d m ts st))
  = match d with
    | DObj l =>
        <[l := obj_delete "useServerTime" (default [] (heap st !! l))]> (heap st)
    | _ => heap st
    end.
Proof.
  unfold privateCall_then.
  destruct d as [| |l]; unfold bind at 1; cbn [ret modify]; cbv beta iota;
    rewrite (bind_fulfilled _ _ _ _ _ (deref_run _ _));
    rewrite (bind_fulfilled _ _ _ _ _ (sign_run _ _ _ _));
    now rewrite sendResult_fetch_state.
Qed.

(** A signed call on the clock: the whole run. *)
Lemma privateCall_clock_run (apiKey apiSecret : option string)
    (base apiPathBase : string) (getTime : option (list event -> value))
    (pubCall : call_args -> Call value) (a : call_args) (l : loc) (o : obj)
    (st : state) :
  missing apiKey = false ->
  missing apiSecret = false ->
  data a = DObj l ->
  heap st !! l = Some o ->
  wf_obj o = true ->
  truthy (obj_get "useServerTime" o) = false ->
  let k := default "" apiKey in
  let s := default "" apiSecret in
  let t := default defaultGetTime getTime (trace st) in
  let payload := obj_delete "useServerTime" o in
  let req := signed_request k s base apiPathBase a payload t in
  let before :=
    trace st ++ [EvGetTime t;
                 EvHmac s (signed_message payload t)
                   (hmac_sha256_hex s (signed_message payload t))] in
  let reply := network (before ++ [EvRequest req]) req in
  privateCall apiKey apiSecret base apiPathBase getTime pubCall a st
  = (settled reply,
     mkState (<[l := payload]> (heap st))
       (before ++ [EvRequest req; EvResponse req reply])).
Proof.
  intros Hk Hs Hd Hl Hwf Hflag k s t payload req before reply.
  rewrite (privateCall_run JSON_parse network Date_now _ _ _ _ _ _ a l o st
             Hk Hs Hd Hl).
  rewrite (then_fulfilled _ _ _ _ _
             (timestamp_clock (default defaultGetTime getTime) pubCall
                (agent a) (Some o) st Hflag)).
  fold t.
  rewrite (privateCall_then_run JSON_parse network k s base apiPathBase a l o
             _ t (mkState (heap st) (trace st ++ [EvGetTime t])) Hl Hwf).
  rewrite sendResult_fetch_run. cbn [heap trace].
  fold payload. unfold signed_request in req. fold req.
  replace ((trace st ++ [EvGetTime t])
           ++ [EvHmac s (signed_message payload t)
                 (hmac_sha256_hex s (signed_message payload t))])
    with before by (unfold before; now rewrite <- app_assoc).
  fold reply. apply settled_not_thrown.
Qed.

Lemma signed_heap (getTime : list event -> value) (base apiPathBase k s : string)
    (a : call_args) (d : data_arg) (q : option obj) (m : string) (st : state) :
  let final :=
    snd (then_ (privateCall_timestamp getTime (publicCall base apiPathBase)
                  (agent a) q)
           (privateCall_then k s base apiPathBase a d m) st) in
  heap final = heap st
  \/ heap final
     = match d with
       | DObj l =>
           <[l := obj_delete "useServerTime" (default [] (heap st !! l))]> (heap st)
       | _ => heap st
       end.
Proof.
  intros final. subst final. rewrite then_state.
  destruct (privateCall_timestamp getTime (publicCall base apiPathBase)
              (agent a) q st) as [out st1] eqn:E.
  pose proof (timestamp_heap JSON_parse network _ _ _ _ _ _ _ _ E) as Hh.
  destruct out as [e|e|ts]; [now left | now left | right].
  rewrite privateCall_then_heap. now rewrite Hh.
Qed.

Lemma privateCall_heap (apiKey apiSecret : option string)
    (base apiPathBase : string) (getTime : option (list event -> value))
    (a : call_args) (st : state) :
  let final := snd (privateCall apiKey apiSecret base apiPathBase getTime
                      (publicCall base apiPathBase) a st) in
  match data a with
  | DUndefined =>
      exists o : obj, heap final = <[fresh (dom (heap st)) := o]> (heap st)
  | DNull => heap final = heap st
  | DObj l =>
      heap final = heap st
      \/ heap final
         = <[l := obj_delete "useServerTime" (default [] (heap st !! l))]> (heap st)
  end.
Proof.
  intros final. subst final. unfold privateCall.
  destruct (data a) as [| |l].
  - unfold bind at 1. unfold bind at 1. rewrite alloc_run. cbv beta iota.
    unfold ret at 1. cbv beta iota.
    destruct (missing apiKey || missing apiSecret); [now exists []|].
    rewrite (bind_fulfilled _ _ _ _ _ (deref_run _ _)).
    set (st0 := mkState (<[fresh (dom (heap st)) := []]> (heap st)) (trace st)).
    destruct (signed_heap (default defaultGetTime getTime) base apiPathBase
                (default "" apiKey) (default "" apiSecret) a
                (DObj (fresh (dom (heap st)))) (payload_in (heap st0) (DObj (fresh (dom (heap st)))))
                (default "GET" (method a)) st0) as [E|E]; rewrite E.
    + now exists [].
    + unfold st0. cbn [heap]. rewrite lookup_insert_eq. cbn [default from_option id].
      eexists. now rewrite insert_insert_eq.
  - unfold bind at 1. unfold ret at 1. cbv beta iota.
    destruct (missing apiKey || missing apiSecret); [reflexivity|].
    rewrite (bind_fulfilled _ _ _ _ _ (deref_run _ _)).
    now destruct (signed_heap (default defaultGetTime getTime) base apiPathBase
                    (default "" apiKey) (default "" apiSecret) a DNull
                    (payload_in (heap st) DNull) (default "GET" (method a)) st).
  - unfold bind at 1. unfold ret at 1. cbv beta iota.
    destruct (missing apiKey || missing apiSecret); [now left|].
    rewrite (bind_fulfilled _ _ _ _ _ (deref_run _ _)).
    exact (signed_heap (default defaultGetTime getTime) base apiPathBase
             (default "" apiKey) (default "" apiSecret) a (DObj l)
             (payload_in (heap st) (DObj l)) (default "GET" (method a)) st).
Qed.

Lemma privateCall_keeps (apiKey apiSecret : option string)
    (base apiPathBase : string) (getTime : option (list event -> value))
    (a : call_args) (st : state) (l' : loc) (o' : obj) :
  heap st !! l' = Some o' ->
  data a <> DObj l' ->
  heap (snd (privateCall apiKey apiSecret base apiPathBase getTime
               (publicCall base apiPathBase) a st)) !! l' = Some o'.
Proof.
  intros Hl' Hne.
  pose proof (privateCall_heap apiKey apiSecret base apiPathBase getTime a st)
    as H. cbv zeta in H.
  destruct (data a) as [| |l].
  - destruct H as (o & ->). rewrite lookup_insert_ne; [exact Hl'|].
    exact (fresh_not_allocated st l' o' Hl').
  - now rewrite H.
  - destruct H as [-> | ->]; [exact Hl'|].
    rewrite lookup_insert_ne; [exact Hl' | congruence].
Qed.

(** X3.  Whatever its outcome, a signed call changes the store at its
    payload only, and there it does nothing but delete [useServerTime]:
    every other object is as it was, the payload object is as it was or
    has lost that one name, and when the payload never had the name the
    store is unchanged. *)
Theorem privateCall_changes_payload_only (apiKey apiSecret : option string)
    (base apiPathBase : string) (getTime : option (list event -> value))
    (a : call_args) (st : state) :
  let final := snd (privateCall apiKey apiSecret base apiPathBase getTime
                      (publicCall base apiPathBase) a st) in
  (forall (l' : loc) (o' : obj),
     heap st !! l' = Some o' -> data a <> DObj l' -> heap final !! l' = Some o')
  /\ (forall (l : loc) (o : obj),
        data a = DObj l -> heap st !! l = Some o ->
        heap final !! l = Some o
        \/ heap final !! l = Some (obj_delete "useServerTime" o))
  /\ (forall (l : loc) (o : obj),
        data a = DObj l -> heap st !! l = Some o ->
        obj_has "useServerTime" o = false ->
        heap final = heap st).
Proof.
  intros final.
  pose proof (privateCall_heap apiKey apiSecret base apiPathBase getTime a st)
    as H. cbv zeta in H. fold final in H.
  split; [|split].
  - intros l' o' Hl' Hne. now apply privateCall_keeps.
  - intros l o Hd Hl. rewrite Hd in H. destruct H as [-> | ->]; [now left|].
    right. rewrite Hl. apply lookup_insert_eq.
  - intros l o Hd Hl Hno. rewrite Hd in H. destruct H as [-> | ->]; [reflexivity|].
    rewrite Hl. cbn [default from_option id].
    rewrite (obj_delete_absent _ _ Hno). now apply insert_id.
Qed.

(** *** The order wrapper *)

Lemma required_of_copy (k : string) (pre o : obj) :
  distinct (Object_keys o) = true ->
  obj_get k Object_prototype = VUndefined ->
  obj_has k pre = false ->
  obj_member k (spread_into pre o) = obj_get k o.
Proof.
  intros Hd Hp Hpre. rewrite (obj_member_own _ _ Hp).
  rewrite (obj_get_spread_into _ o _ Hd).
  destruct (obj_has k o) eqn:E; [reflexivity|].
  now rewrite (obj_has_false_get k o E), (obj_has_false_get k pre Hpre).
Qed.

(** The order wrapper on a payload object, up to the signed call. *)
Lemma order_run (call : call_args -> Call value) (l : loc) (o : obj)
    (url : string) (ag : Agent) (st : state) :
  heap st !! l = Some o ->
  distinct (Object_keys o) = true ->
  let limit :=
    includes_value ["LIMIT"; "STOP_LOSS_LIMIT"; "TAKE_PROFIT_LIMIT"] (obj_get "type" o)
    || negb (truthy (obj_get "type" o)) in
  let newPayload :=
    if limit then spread_into [("timeInForce", VStr "GTC")] o else o in
  let st1 := if limit then snd (alloc newPayload st) else st in
  order call (DObj l) url ag st
  = match List.find (fun r => absent_or_NaN (obj_get r o))
            ["symbol"; "side"; "quantity"] with
    | Some r =>
        (Thrown (ExnError (newError
           ("Method order requires " +:+ r +:+ " parameter."))), st1)
    | None =>
        call (mkArgs url (DObj (fresh (dom (heap st1)))) (Some "POST") None
                VUndefined VUndefined VUndefined ag)
          (snd (alloc (spread_into [("type", VStr "LIMIT")] newPayload) st1))
    end.
Proof.
  intros Hl Hd limit newPayload st1. unfold order.
  rewrite (bind_fulfilled (default_payload (DObj l)) _ (DObj l) st st eq_refl).
  rewrite (bind_fulfilled _ _ _ _ _ (payload_obj_at l o st Hl)).
  fold limit.
  assert (Hfind : forall p : obj,
            (forall r, In r ["symbol"; "side"; "quantity"] ->
                       obj_member r p = obj_get r o) ->
            List.find (fun r => absent_or_NaN (obj_member r p))
              ["symbol"; "side"; "quantity"]
            = List.find (fun r => absent_or_NaN (obj_get r o))
                ["symbol"; "side"; "quantity"]).
  { intros p Hp. cbn [List.find].
    rewrite (Hp "symbol" (or_introl eq_refl)).
    rewrite (Hp "side" (or_intror (or_introl eq_refl))).
    rewrite (Hp "quantity" (or_intror (or_intror (or_introl eq_refl)))).
    reflexivity. }
  destruct limit eqn:Hlimit.
  - unfold bind at 1. unfold bind at 1. rewrite alloc_run. cbv beta iota.
    unfold ret at 1. cbv beta iota.
    set (l1 := fresh (dom (heap st))).
    subst newPayload. cbv iota in st1. cbv iota.
    set (copy := spread_into [("timeInForce", VStr "GTC")] o) in *.
    assert (E1 : st1 = mkState (<[l1 := copy]> (heap st)) (trace st)) by reflexivity.
    rewrite <- E1.
    assert (Hl1 : heap st1 !! l1 = Some copy)
      by (rewrite E1; apply lookup_insert_eq).
    unfold bind at 1.
    rewrite (checkParams_at "order" l1 copy _ st1 Hl1), check_required_find.
    rewrite (Hfind copy).
    2:{ intros r Hr. apply required_of_copy; [exact Hd| |];
        cbn in Hr; destruct Hr as [<-|[<-|[<-|[]]]]; reflexivity. }
    destruct (List.find _ _) as [r|]; [reflexivity|].
    rewrite (bind_fulfilled _ _ _ _ _ (deref_at l1 copy st1 Hl1)).
    cbn [default from_option id].
    unfold bind. now rewrite alloc_run.
  - subst newPayload st1. cbv iota. unfold bind at 1. unfold ret at 1.
    cbv beta iota. unfold bind at 1.
    rewrite (checkParams_at "order" l o _ st Hl), check_required_find.
    rewrite (Hfind o).
    2:{ intros r Hr. apply obj_member_own.
        cbn in Hr; destruct Hr as [<-|[<-|[<-|[]]]]; reflexivity. }
    destruct (List.find _ _) as [r|]; [reflexivity|].
    rewrite (bind_fulfilled _ _ _ _ _ (deref_at l o st Hl)).
    cbn [default from_option id].
    unfold bind. now rewrite alloc_run.
Qed.

Lemma obj_has_spread_into (k : string) (src acc : obj) :
  obj_has k (spread_into acc src) = obj_has k src || obj_has k acc.
Proof.
  unfold spread_into. revert acc.
  induction src as [|[k0 v0] r IH]; intros acc; [reflexivity|].
  cbn [fold_left fst snd obj_has]. rewrite IH, obj_has_set.
  now destruct (k0 =? k), (obj_has k r), (obj_has k acc).
Qed.

(** X4.  The order wrapper on a payload object with a symbol, a side and
    a quantity hands the Signed Caller a new object, by [POST], and leaves
    the caller's object alone.  The new object has the properties of the
    payload, a [type] that is [LIMIT] unless the payload has one of its
    own, and, when the payload's type is falsy or one of the three limit
    types, a [timeInForce] that is [GTC] unless the payload has one of
    its own. *)
Theorem order_sends_defaulted_copy (call : call_args -> Call value) (l : loc)
    (o : obj) (url : string) (ag : Agent) (st : state) :
  heap st !! l = Some o ->
  distinct (Object_keys o) = true ->
  absent_or_NaN (obj_get "symbol" o) = false ->
  absent_or_NaN (obj_get "side" o) = false ->
  absent_or_NaN (obj_get "quantity" o) = false ->
  let limit :=
    includes_value ["LIMIT"; "STOP_LOSS_LIMIT"; "TAKE_PROFIT_LIMIT"] (obj_get "type" o)
    || negb (truthy (obj_get "type" o)) in
  exists (l2 : loc) (sent : obj) (st2 : state),
    order call (DObj l) url ag st
    = call (mkArgs url (DObj l2) (Some "POST") None
              VUndefined VUndefined VUndefined ag) st2
    /\ l2 <> l
    /\ heap st2 !! l = Some o
    /\ heap st2 !! l2 = Some sent
    /\ trace st2 = trace st
    /\ wf_obj sent = true
    /\ obj_get "type" sent
       = (if obj_has "type" o then obj_get "type" o else VStr "LIMIT")
    /\ obj_get "timeInForce" sent
       = (if limit && negb (obj_has "timeInForce" o) then VStr "GTC"
          else obj_get "timeInForce" o)
    /\ forall k : string,
         k <> "type" -> k <> "timeInForce" -> obj_get k sent = obj_get k o.
Proof.
  intros Hl Hd Hsym Hside Hq limit.
  pose proof (order_run call l o url ag st Hl Hd) as Hrun.
  cbv zeta in Hrun. fold limit in Hrun.
  cbn [List.find] in Hrun. rewrite Hsym, Hside, Hq in Hrun.
  set (np := if limit then spread_into [("timeInForce", VStr "GTC")] o else o) in *.
  set (st1 := if limit then snd (alloc np st) else st) in *.
  set (sent := spread_into [("type", VStr "LIMIT")] np) in *.
  assert (Hl1 : heap st1 !! l = Some o).
  { unfold st1. destruct limit; [now apply alloc_keeps | exact Hl]. }
  assert (Hnp : distinct (Object_keys np) = true).
  { unfold np. destruct limit; [|exact Hd].
    pose proof (wf_spread_into o [("timeInForce", VStr "GTC")] eq_refl) as W.
    unfold wf_obj in W. now apply andb_true_iff in W as [W _]. }
  assert (Hget : forall k pre q,
            distinct (Object_keys q) = true -> obj_has k pre = false ->
            obj_get k (spread_into pre q) = obj_get k q).
  { intros k pre q Hq' Hpre. rewrite (obj_get_spread_into _ q _ Hq').
    destruct (obj_has k q) eqn:E; [reflexivity|].
    now rewrite (obj_has_false_get k q E), (obj_has_false_get k pre Hpre). }
  exists (fresh (dom (heap st1))), sent, (snd (alloc sent st1)).
  split; [exact Hrun|].
  split; [exact (fresh_not_allocated st1 l o Hl1)|].
  split; [now apply alloc_keeps|].
  split; [apply lookup_insert_eq|].
  split; [unfold st1; now destruct limit|].
  split; [now apply wf_spread_into|].
  split; [|split].
  - unfold sent. rewrite (obj_get_spread_into _ np _ Hnp).
    assert (E : obj_has "type" np = obj_has "type" o).
    { unfold np. destruct limit; [|reflexivity].
      rewrite obj_has_spread_into. cbn. apply orb_false_r. }
    rewrite E. destruct (obj_has "type" o) eqn:Ht; [|reflexivity].
    unfold np. destruct limit; [|reflexivity]. now apply Hget.
  - unfold sent.
    rewrite (Hget "timeInForce" [("type", VStr "LIMIT")] np Hnp eq_refl).
    unfold np. destruct limit; cbn [andb]; [|reflexivity].
    rewrite (obj_get_spread_into _ o _ Hd).
    now destruct (obj_has "timeInForce" o).
  - intros k Ht Hf.
    assert (N1 : obj_has k [("type", VStr "LIMIT")] = false).
    { cbn [obj_has]. rewrite orb_false_r. apply String.eqb_neq. congruence. }
    assert (N2 : obj_has k [("timeInForce", VStr "GTC")] = false).
    { cbn [obj_has]. rewrite orb_false_r. apply String.eqb_neq. congruence. }
    unfold sent. rewrite (Hget _ _ _ Hnp N1).
    unfold np. destruct limit; [|reflexivity]. now apply Hget.
Qed.

Local Abbreviation client_order := (client_order JSON_parse network Date_now).

(** X5.  The spot order operation never changes the caller's payload
    object, whatever the options, the network and the outcome: the
    Signed Caller works on the wrapper's copy, so that even
    [useServerTime] stays on the caller's object. *)
Theorem client_order_keeps_payload (opts : options) (l : loc) (o : obj)
    (ag : Agent) (st : state) :
  heap st !! l = Some o ->
  distinct (Object_keys o) = true ->
  heap (snd (client_order opts (DObj l) ag st)) !! l = Some o.
Proof.
  intros Hl Hd. unfold client_order.
  rewrite (order_run _ l o "/v3/order" ag st Hl Hd).
  set (limit := includes_value _ _ || _).
  set (np := if limit then spread_into [("timeInForce", VStr "GTC")] o else o).
  set (st1 := if limit then snd (alloc np st) else st).
  assert (Hl1 : heap st1 !! l = Some o).
  { unfold st1. destruct limit; [now apply alloc_keeps | exact Hl]. }
  destruct (List.find _ _) as [r|]; [exact Hl1|].
  unfold privCall, pubCall. apply privateCall_keeps.
  - now apply alloc_keeps.
  - cbn [data]. intros [= E]. exact (fresh_not_allocated st1 l o Hl1 E).
Qed.

(** X6.  The order wrapper validates before anything is sent.  On a
    payload object it throws a Configuration Error naming the first of
    [symbol], [side] and [quantity] that is [undefined] or [NaN], with no
    event recorded and the caller's object untouched; a price is not
    asked for.  Without a payload it throws the error for [symbol], and
    on [null] it throws a [TypeError]. *)
Theorem order_validates_first (call : call_args -> Call value) (url : string)
    (ag : Agent) (st : state) :
  (forall (l : loc) (o : obj) (r : string),
     heap st !! l = Some o ->
     distinct (Object_keys o) = true ->
     List.find (fun r => absent_or_NaN (obj_get r o)) ["symbol"; "side"; "quantity"]
     = Some r ->
     fst (order call (DObj l) url ag st)
     = Thrown (ExnError (newError ("Method order requires " +:+ r +:+ " parameter.")))
     /\ trace (snd (order call (DObj l) url ag st)) = trace st
     /\ heap (snd (order call (DObj l) url ag st)) !! l = Some o)
  /\ fst (order call DUndefined url ag st)
     = Thrown (ExnError (newError "Method order requires symbol parameter."))
  /\ trace (snd (order call DUndefined url ag st)) = trace st
  /\ order call DNull url ag st = (Thrown ExnTypeError, st).
Proof.
  split; [|split; [|split]].
  - intros l o r Hl Hd Hfind.
    rewrite (order_run call l o url ag st Hl Hd), Hfind. cbn [fst snd].
    split; [reflexivity|].
    destruct (includes_value _ _ || _); split;
      try reflexivity; try exact Hl; now apply alloc_keeps.
  - change (order call DUndefined url ag st)
      with (order call (DObj (fresh (dom (heap st)))) url ag (snd (alloc [] st))).
    now rewrite (order_run call _ [] url ag _ (lookup_insert_eq _ _ _) eq_refl).
  - change (order call DUndefined url ag st)
      with (order call (DObj (fresh (dom (heap st)))) url ag (snd (alloc [] st))).
    now rewrite (order_run call _ [] url ag _ (lookup_insert_eq _ _ _) eq_refl).
  - reflexivity.
Qed.

(** *** The futures order wrapper *)

(** The futures order wrapper on a payload object that has a type, up to
    the signed call. *)
Lemma futuresOrder_run (call : call_args -> Call value) (l : loc) (o : obj)
    (url : string) (ag : Agent) (st : state) :
  heap st !! l = Some o ->
  truthy (obj_get "type" o) = true ->
  let type := obj_get "type" o in
  let copied := includes_value ["LIMIT"; "STOP"; "TAKE_PROFIT"] type in
  let newPayload :=
    if copied then spread_into [("timeInForce", VStr "GTC")] o else o in
  let st1 := if copied then snd (alloc newPayload st) else st in
  let target := if copied then fresh (dom (heap st)) else l in
  futuresOrder call (DObj l) url ag st
  = if includes_value ["MARKET"] type && truthy (obj_get "timeInForce" o)
    then (Thrown (ExnError (newError
            "timeInForce parameter cannot be send with type MARKET")), st1)
    else match List.find (fun r => absent_or_NaN (obj_get r newPayload))
                 (futures_required type) with
         | Some r =>
             (Thrown (ExnError (newError
                ("Method futuresOrder requires " +:+ r +:+ " parameter."))), st1)
         | None =>
             call (mkArgs url (DObj target) (Some "POST") None
                     VUndefined VUndefined VUndefined ag) st1
         end.
Proof.
  intros Hl Ht type copied newPayload st1 target. unfold futuresOrder.
  rewrite (bind_fulfilled (default_payload (DObj l)) _ (DObj l) st st eq_refl).
  rewrite (bind_fulfilled _ _ _ _ _ (payload_obj_at l o st Hl)).
  rewrite Ht. fold type copied. cbn [negb orb andb]. rewrite orb_false_r.
  assert (Hl1 : heap st1 !! l = Some o).
  { unfold st1. destruct copied; [now apply alloc_keeps | exact Hl]. }
  destruct copied eqn:Hc.
  - unfold bind at 1. unfold bind at 1. rewrite alloc_run. cbv beta iota.
    unfold ret at 1. cbv beta iota.
    change (mkState (<[fresh (dom (heap st)) := spread_into [("timeInForce", VStr "GTC")] o]>
                       (heap st)) (trace st)) with st1.
    unfold bind at 1. unfold ret at 1. cbv beta iota.
    rewrite (bind_fulfilled _ _ _ _ _ (payload_obj_at l o st1 Hl1)).
    rewrite Ht. fold type. cbn [andb].
    destruct (includes_value ["MARKET"] type && truthy (obj_get "timeInForce" o));
      [reflexivity|].
    unfold bind.
    rewrite (checkParams_at "futuresOrder" target newPayload _ st1
               (lookup_insert_eq _ _ _)).
    fold (futures_required type).
    rewrite (check_required_own _ _ _ (futures_required_own type)).
    now destruct (List.find _ _).
  - unfold bind at 1. unfold ret at 1. cbv beta iota.
    unfold bind at 1. unfold ret at 1. cbv beta iota.
    rewrite (bind_fulfilled _ _ _ _ _ (payload_obj_at l o st Hl)).
    rewrite Ht. fold type. cbn [andb].
    destruct (includes_value ["MARKET"] type && truthy (obj_get "timeInForce" o));
      [reflexivity|].
    unfold bind.
    rewrite (checkParams_at "futuresOrder" l o _ st Hl).
    fold (futures_required type).
    rewrite (check_required_own _ _ _ (futures_required_own type)).
    now destruct (List.find _ _).
Qed.

(** X7.  The futures order wrapper on a payload object that has a truthy
    type.  A [MARKET] order with a truthy [timeInForce] is refused with
    an error of its own, before validation.  Otherwise the order is
    validated against the fields its type requires, and the error names
    the first that is [undefined] or [NaN].  A valid [LIMIT], [STOP] or
    [TAKE_PROFIT] order is handed to the Signed Caller as a copy, with
    [timeInForce] set to [GTC] unless the payload has one of its own;
    a valid order of any other type is handed over as the caller's own
    object.  Nothing is sent before the hand-over. *)
Theorem futuresOrder_with_type (call : call_args -> Call value) (l : loc) (o : obj)
    (url : string) (ag : Agent) (st : state) :
  heap st !! l = Some o ->
  distinct (Object_keys o) = true ->
  truthy (obj_get "type" o) = true ->
  let type := obj_get "type" o in
  let copied := includes_value ["LIMIT"; "STOP"; "TAKE_PROFIT"] type in
  let sent := if copied then spread_into [("timeInForce", VStr "GTC")] o else o in
  let refused :=
    includes_value ["MARKET"] type && truthy (obj_get "timeInForce" o) in
  let missing_field :=
    List.find (fun r => absent_or_NaN (obj_get r sent)) (futures_required type) in
  let run := futuresOrder call (DObj l) url ag st in
  (refused = true ->
   run = (Thrown (ExnError (newError
            "timeInForce parameter cannot be send with type MARKET")), st))
  /\ (refused = false ->
      forall r : string,
        missing_field = Some r ->
        fst run = Thrown (ExnError (newError
                    ("Method futuresOrder requires " +:+ r +:+ " parameter.")))
        /\ trace (snd run) = trace st
        /\ heap (snd run) !! l = Some o)
  /\ (refused = false -> missing_field = None -> copied = false ->
      run = call (mkArgs url (DObj l) (Some "POST") None
                    VUndefined VUndefined VUndefined ag) st)
  /\ (refused = false -> missing_field = None -> copied = true ->
      exists (l1 : loc) (st1 : state),
        run = call (mkArgs url (DObj l1) (Some "POST") None
                      VUndefined VUndefined VUndefined ag) st1
        /\ l1 <> l
        /\ heap st1 !! l = Some o
        /\ heap st1 !! l1 = Some sent
        /\ trace st1 = trace st)
  /\ (copied = true ->
      obj_get "timeInForce" sent
      = (if obj_has "timeInForce" o then obj_get "timeInForce" o else VStr "GTC")
      /\ forall k : string, k <> "timeInForce" -> obj_get k sent = obj_get k o).
Proof.
  intros Hl Hd Ht type copied sent refused missing_field run.
  pose proof (futuresOrder_run call l o url ag st Hl Ht) as Hrun.
  cbv zeta in Hrun. fold type copied sent refused missing_field run in Hrun.
  split; [|split; [|split; [|split]]].
  - intros Hr. rewrite Hrun, Hr.
    assert (Hc : copied = false).
    { unfold refused in Hr. apply andb_true_iff in Hr as [Hm _].
      unfold copied. destruct type; try discriminate. cbn in Hm |- *.
      rewrite orb_false_r in Hm. apply String.eqb_eq in Hm. now subst. }
    now rewrite Hc.
  - intros Hr r Hm. rewrite Hrun, Hr, Hm. cbn [fst snd].
    split; [reflexivity|].
    destruct copied; split; try reflexivity; try exact Hl; now apply alloc_keeps.
  - intros Hr Hm Hc. rewrite Hrun, Hr, Hm, Hc. reflexivity.
  - intros Hr Hm Hc. rewrite Hrun, Hr, Hm, Hc.
    exists (fresh (dom (heap st))), (snd (alloc sent st)).
    split; [reflexivity|].
    split; [exact (fresh_not_allocated st l o Hl)|].
    split; [now apply alloc_keeps|].
    split; [apply lookup_insert_eq | reflexivity].
  - intros Hc. unfold sent. rewrite Hc. split.
    + rewrite (obj_get_spread_into _ o _ Hd).
      now destruct (obj_has "timeInForce" o).
    + intros k Hk. rewrite (obj_get_spread_into _ o _ Hd).
      destruct (obj_has k o) eqn:E; [reflexivity|].
      rewrite (obj_has_false_get k o E). cbn [obj_get].
      destruct (String.eqb_spec "timeInForce" k) as [<-|_]; [congruence|reflexivity].
Qed.

Local Abbreviation client_futuresOrder :=
  (client_futuresOrder JSON_parse network Date_now).

(** X8.  What the futures order operation does to the caller's payload
    depends on the order type.  An order of a copied type ([LIMIT],
    [STOP], [TAKE_PROFIT]) leaves the caller's object as it was, whatever
    the outcome.  A valid order of another type is signed on the caller's
    own object: once the timestamp is resolved, that object has lost
    [useServerTime]. *)
Theorem futuresOrder_payload_aliasing (opts : options) (l : loc) (o : obj)
    (ag : Agent) (st : state) :
  heap st !! l = Some o ->
  distinct (Object_keys o) = true ->
  truthy (obj_get "type" o) = true ->
  let type := obj_get "type" o in
  let final := snd (client_futuresOrder opts (DObj l) ag st) in
  (includes_value ["LIMIT"; "STOP"; "TAKE_PROFIT"] type = true ->
   heap final !! l = Some o)
  /\ (includes_value ["LIMIT"; "STOP"; "TAKE_PROFIT"] type = false ->
      includes_value ["MARKET"] type && truthy (obj_get "timeInForce" o) = false ->
      List.find (fun r => absent_or_NaN (obj_get r o)) (futures_required type) = None ->
      missing (apiKey opts) = false ->
      missing (apiSecret opts) = false ->
      forall (ts : value) (st1 : state),
        privateCall_timestamp (default defaultGetTime (getTime opts))
          (publicCall (futureBase opts) FUTURES_API_PATH_BASE) ag (Some o) st
        = (Fulfilled ts, st1) ->
        heap final = <[l := obj_delete "useServerTime" o]> (heap st)).
Proof.
  intros Hl Hd Ht type final. subst final. unfold client_futuresOrder.
  rewrite (futuresOrder_run _ l o "/v1/order" ag st Hl Ht). fold type.
  split.
  - intros Hc. rewrite Hc.
    destruct (includes_value ["MARKET"] type && truthy (obj_get "timeInForce" o));
      [now apply alloc_keeps|].
    destruct (List.find _ _) as [r|]; [now apply alloc_keeps|].
    unfold futuresPrivCall, futuresPubCall. apply privateCall_keeps.
    + now apply alloc_keeps.
    + cbn [data]. intros [= E]. exact (fresh_not_allocated st l o Hl E).
  - intros Hc Hr Hm Hk Hs ts st1 Hts. rewrite Hc, Hr, Hm.
    unfold futuresPrivCall, futuresPubCall.
    rewrite (privateCall_run JSON_parse network Date_now _ _ _ _ _ _
               (mkArgs "/v1/order" (DObj l) (Some "POST") None
                  VUndefined VUndefined VUndefined ag)
               l o st Hk Hs eq_refl Hl).
    rewrite then_state. cbn [agent]. rewrite Hts.
    rewrite privateCall_then_heap.
    rewrite (timestamp_heap JSON_parse network _ _ _ _ _ _ _ _ Hts).
    now rewrite Hl.
Qed.

(** *** The position mode *)

Lemma In_delete_other (k k' : string) (v : value) (o : obj) :
  k <> k' -> In (k', v) o -> In (k', v) (obj_delete k o).
Proof.
  intros Hne. induction o as [|[k0 v0] r IH]; [easy|].
  cbn [obj_delete]. intros [E|H].
  - injection E as -> ->.
    destruct (String.eqb_spec k' k) as [->|_]; [congruence | now left].
  - destruct (k0 =? k); [exact H | right; now apply IH].
Qed.

Local Abbreviation futuresChangePositionMode :=
  (futuresChangePositionMode JSON_parse network Date_now).

(** X9.  The position-mode operation requires [dualSidePosition] and
    sends it as text.  A payload whose [dualSidePosition] is [undefined]
    or [NaN] is refused before anything happens.  Otherwise the Signed
    Caller gets, by [POST], a copy of the payload in which the flag is
    the string [true] when it was truthy and the string [false] when it
    was not, in the place it had; the copy is otherwise the payload, and
    the caller's object is not the one handed over.  Both strings are
    truthy, so the flag is among the pairs of the signed query string
    also when it is [false], which the Query Encoder would have
    dropped. *)
Theorem futuresChangePositionMode_sends_text (opts : options) (l : loc) (o : obj)
    (ag : Agent) (st : state) :
  heap st !! l = Some o ->
  wf_obj o = true ->
  let flag := obj_get "dualSidePosition" o in
  let text := VStr (if truthy flag then "true" else "false") in
  let sent := obj_set "dualSidePosition" text o in
  let l1 := fresh (dom (heap st)) in
  let run := futuresChangePositionMode opts (DObj l) ag st in
  (absent_or_NaN flag = true ->
   run = (Thrown (ExnError (newError
            "Method futuresChangePositionMode requires dualSidePosition parameter.")),
          st))
  /\ (absent_or_NaN flag = false ->
      run = futuresPrivCall opts
              (mkArgs "/v1/positionSide/dual" (DObj l1) (Some "POST") None
                 VUndefined VUndefined VUndefined ag)
              (mkState (<[l1 := sent]> (heap st)) (trace st))
      /\ l1 <> l
      /\ Object_keys sent = Object_keys o
      /\ obj_get "dualSidePosition" sent = text
      /\ (forall k : string,
            k <> "dualSidePosition" -> obj_get k sent = obj_get k o)
      /\ forall (ts : value) (signature : string),
           In (render_pair ("dualSidePosition", text))
             (query_pairs
                (obj_set "signature" (VStr signature)
                   (obj_set "timestamp" ts (obj_delete "useServerTime" sent)))))
  /\ (truthy flag = false -> render_pair ("dualSidePosition", text)
                             = "dualSidePosition=false")
  /\ (truthy flag = true -> render_pair ("dualSidePosition", text)
                            = "dualSidePosition=true").
Proof.
  intros Hl Hwf flag text sent l1 run.
  assert (Hrun : run
                 = match check_required "futuresChangePositionMode" o
                           ["dualSidePosition"] with
                   | Some e => (Thrown e, st)
                   | None =>
                       futuresPrivCall opts
                         (mkArgs "/v1/positionSide/dual" (DObj l1) (Some "POST") None
                            VUndefined VUndefined VUndefined ag)
                         (mkState (<[l1 := sent]> (heap st)) (trace st))
                   end).
  { unfold run, futuresChangePositionMode. unfold bind at 1.
    rewrite (checkParams_at _ l o _ st Hl).
    destruct (check_required _ o _); [reflexivity|].
    rewrite (bind_fulfilled _ _ _ _ _ (deref_at l o st Hl)).
    cbn [default from_option id]. rewrite (spread_wf o Hwf).
    unfold bind. now rewrite alloc_run. }
  rewrite check_required_find in Hrun. cbn [List.find] in Hrun.
  rewrite (obj_member_own "dualSidePosition" o eq_refl) in Hrun.
  fold flag in Hrun.
  split; [|split; [|split]].
  - intros Ha. now rewrite Hrun, Ha.
  - intros Ha. rewrite Hrun, Ha.
    assert (Hhas : obj_has "dualSidePosition" o = true).
    { destruct (obj_has "dualSidePosition" o) eqn:E; [reflexivity|].
      unfold flag in Ha. now rewrite (obj_has_false_get _ o E) in Ha. }
    split; [reflexivity|].
    split; [exact (fresh_not_allocated st l o Hl)|].
    split; [unfold sent, obj_set; rewrite Hhas; apply Object_keys_replace|].
    split; [unfold sent; now rewrite obj_get_set, String.eqb_refl|].
    split.
    + intros k Hk. unfold sent. rewrite obj_get_set.
      destruct (String.eqb_spec "dualSidePosition" k) as [<-|_];
        [congruence | reflexivity].
    + intros ts signature. apply query_pairs_In.
      * apply In_set_other_named; [reflexivity | discriminate |].
        apply In_set_other_named; [reflexivity | discriminate |].
        apply In_delete_other; [discriminate|].
        unfold sent. now apply In_set_named.
      * unfold text. now destruct (truthy flag).
  - intros Hf. unfold text. now rewrite Hf.
  - intros Hf. unfold text. now rewrite Hf.
Qed.

(** *** Responses made friendlier *)

Lemma then_returns (m : Call value) (f : value -> option value) (st : state) :
  then_ m (fun r => returns (f r)) st = (and_then f (fst (m st)), snd (m st)).
Proof.
  unfold then_, and_then, returns.
  destruct (m st) as [[e|e|v] st']; try reflexivity.
  cbn [fst snd]. now destruct (f v).
Qed.

Local Abbreviation candles := (candles zip_other).
Local Abbreviation client_candles := (client_candles JSON_parse network zip_other).


Local Abbreviation book_then := (book_then zip_other).
Local Abbreviation client_book := (client_book JSON_parse network zip_other).


Lemma map_values_readable (f : value -> option value) (g : value -> value)
    (l : list value) :
  (forall x, readable x = true -> f x = Some (g x)) ->
  (forall x, readable x = false -> f x = None) ->
  map_values f l = if forallb readable l then Some (map g l) else None.
Proof.
  intros Hf Hn. induction l as [|x l IH]; [reflexivity|].
  cbn [map_values forallb map]. destruct (readable x) eqn:E.
  - rewrite (Hf x E), IH. cbn [andb]. now destruct (forallb readable l).
  - now rewrite (Hn x E).
Qed.

Local Abbreviation client_aggTrades := (client_aggTrades JSON_parse network).


Local Abbreviation prices := (prices JSON_parse network).
Local Abbreviation allBookTickers := (allBookTickers JSON_parse network).


(** *** The futures tickers *)

Lemma then_public (base apiPathBase : string) (a : call_args)
    (f : value -> Call value) (st : state) :
  let req := public_request base apiPathBase a (payload_in (heap st) (data a)) in
  let reply := network (trace st ++ [EvRequest req]) req in
  let after :=
    mkState (heap st) (trace st ++ [EvRequest req; EvResponse req reply]) in
  then_ (publicCall base apiPathBase a) f st
  = match settled reply with
    | Fulfilled r =>
        match f r after with
        | (Thrown e, st') => (Rejected e, st')
        | x => x
        end
    | Thrown e => (Thrown e, after)
    | Rejected e => (Rejected e, after)
    end.
Proof.
  intros req reply after. unfold then_. rewrite publicCall_run.
  fold req reply after. now destruct (settled reply).
Qed.

Local Abbreviation futuresPrice := (futuresPrice JSON_parse network).
Local Abbreviation futuresBookTicker := (futuresBookTicker JSON_parse network).
Local Abbreviation futuresLeverageBracket :=
  (futuresLeverageBracket JSON_parse network).

(** X14.  The three futures ticker operations read [payload.reduce] when
    the response has arrived, so a call without a payload fails after its
    request was made and answered: the price and the leverage-bracket
    operations reject with a [TypeError] whenever the response is an
    array, and the book-ticker operation whenever there is a response at
    all. *)
Theorem futures_tickers_without_payload (opts : options) (payload : data_arg)
    (ag : Agent) (st : state) :
  payload = DUndefined \/ payload = DNull ->
  let req path :=
    mkRequest (futureBase opts +:+ "/" +:+ FUTURES_API_PATH_BASE +:+ path +:+ "")
      "GET" true [] ag in
  let reply path := network (trace st ++ [EvRequest (req path)]) (req path) in
  let after path :=
    mkState (heap st)
      (trace st ++ [EvRequest (req path); EvResponse (req path) (reply path)]) in
  futuresPrice opts payload ag st
  = (match settled (reply "/v1/ticker/price") with
     | Fulfilled (VArr _) => Rejected ExnTypeError
     | out => out
     end, after "/v1/ticker/price")
  /\ futuresBookTicker opts payload ag st
     = (match settled (reply "/v1/ticker/bookTicker") with
        | Fulfilled _ => Rejected ExnTypeError
        | out => out
        end, after "/v1/ticker/bookTicker")
  /\ futuresLeverageBracket opts payload ag st
     = (match settled (reply "/v1/leverageBracket") with
        | Fulfilled (VArr _) => Rejected ExnTypeError
        | Fulfilled r => and_then (fun r => get_prop r "brackets") (Fulfilled r)
        | out => out
        end, after "/v1/leverageBracket").
Proof.
  intros Hp req reply after.
  unfold futuresPrice, futuresBookTicker, futuresLeverageBracket, futuresPubCall.
  rewrite !then_public. cbn [data path method headers agent].
  assert (Hq : payload_in (heap st) payload = None) by now destruct Hp as [-> | ->].
  assert (Hr : forall s, payload_obj payload s = (Thrown ExnTypeError, s))
    by (intros s; now destruct Hp as [-> | ->]).
  unfold public_request. rewrite Hq.
  cbn [data path method headers agent default from_option id makeQueryString].
  fold (req "/v1/ticker/price") (req "/v1/ticker/bookTicker")
       (req "/v1/leverageBracket").
  fold (reply "/v1/ticker/price") (reply "/v1/ticker/bookTicker")
       (reply "/v1/leverageBracket").
  fold (after "/v1/ticker/price") (after "/v1/ticker/bookTicker")
       (after "/v1/leverageBracket").
  split; [|split].
  - destruct (settled (reply "/v1/ticker/price")) as [e|e|r]; try reflexivity.
    destruct r; try reflexivity. unfold bind. now rewrite Hr.
  - destruct (settled (reply "/v1/ticker/bookTicker")) as [e|e|r]; try reflexivity.
    unfold bind. now rewrite Hr.
  - destruct (settled (reply "/v1/leverageBracket")) as [e|e|r]; try reflexivity.
    destruct r; try reflexivity. unfold bind. now rewrite Hr.
Qed.


(** *** The data streams *)

(** A signed call on [null]: the whole run. *)
Lemma privateCall_null_run (apiKey apiSecret : option string)
    (base apiPathBase : string) (getTime : option (list event -> value))
    (pubCall : call_args -> Call value) (a : call_args) (st : state) :
  missing apiKey = false ->
  missing apiSecret = false ->
  data a = DNull ->
  let k := default "" apiKey in
  let s := default "" apiSecret in
  let t := default defaultGetTime getTime (trace st) in
  let signature := hmac_sha256_hex s (signed_message [] t) in
  let req :=
    mkRequest
      (base
       +:+ (if includes (path a) "/wapi" || includes (path a) "/sapi"
            then "" else "/" +:+ apiPathBase)
       +:+ path a
       +:+ (if truthy (noData a) then ""
            else if truthy (noExtra a) then makeQueryString None
            else makeQueryString
                   (Some [("timestamp", t); ("signature", VStr signature)])))
      (default "GET" (method a)) true [("X-MBX-APIKEY", k)] (agent a) in
  let before :=
    trace st ++ [EvGetTime t; EvHmac s (signed_message [] t) signature] in
  let reply := network (before ++ [EvRequest req]) req in
  privateCall apiKey apiSecret base apiPathBase getTime pubCall a st
  = (settled reply,
     mkState (heap st) (before ++ [EvRequest req; EvResponse req reply])).
Proof.
  intros Hk Hs Hd k s t signature req before reply.
  unfold privateCall. rewrite Hd.
  unfold bind at 1. unfold ret at 1. cbv beta iota. rewrite Hk, Hs. cbn [orb].
  unfold bind at 1. cbn [deref ret]. cbv beta iota.
  rewrite (then_fulfilled _ _ _ _ _
             (timestamp_clock (default defaultGetTime getTime) pubCall
                (agent a) None st eq_refl)).
  fold t k s.
  rewrite (privateCall_then_null JSON_parse network k s base apiPathBase a _ t).
  rewrite sendResult_fetch_run. cbn [heap trace].
  fold signature req.
  replace ((trace st ++ [EvGetTime t])
           ++ [EvHmac s (signed_message [] t) signature])
    with before by (unfold before; now rewrite <- app_assoc).
  fold reply. apply settled_not_thrown.
Qed.

Local Abbreviation getDataStream := (getDataStream JSON_parse network Date_now).
Local Abbreviation futuresGetUserDataStream :=
  (futuresGetUserDataStream JSON_parse network Date_now).


(** *** The catalog *)

Local Abbreviation trades := (trades JSON_parse network).
Local Abbreviation tradesHistory := (tradesHistory JSON_parse network).
Local Abbreviation futuresAccountTransfer :=
  (futuresAccountTransfer JSON_parse network Date_now).


(** X18.  The validated operations refuse a payload before anything is
    sent.  Without a payload each throws the same Configuration Error;
    on a payload object each throws the error naming its own first
    missing field.  In both cases the state is as it was: no request was
    made. *)
Theorem operations_validate_first (opts : options) (ag : Agent) (st : state) :
  (forall payload : data_arg,
     payload = DUndefined \/ payload = DNull ->
     let refused :=
       (Thrown (ExnError (newError "You need to pass a payload object.")), st) in
     client_book opts payload ag st = refused
     /\ trades opts payload ag st = refused
     /\ tradesHistory opts payload ag st = refused
     /\ client_aggTrades opts payload ag st = refused
     /\ client_candles opts payload ag st = refused
     /\ futuresChangePositionMode opts payload ag st = refused
     /\ futuresAccountTransfer opts payload ag st = refused)
  /\ (forall (l : loc) (o : obj),
        heap st !! l = Some o ->
        let refuses (name : string) (requires : list string)
              (run : outcome value * state) :=
          forall r : string,
            List.find (fun r => absent_or_NaN (obj_get r o)) requires = Some r ->
            run = (Thrown (ExnError (newError
                     ("Method " +:+ name +:+ " requires " +:+ r +:+ " parameter."))),
                   st) in
        refuses "book" ["symbol"] (client_book opts (DObj l) ag st)
        /\ refuses "trades" ["symbol"] (trades opts (DObj l) ag st)
        /\ refuses "tradesHistory" ["symbol"] (tradesHistory opts (DObj l) ag st)
        /\ refuses "aggTrades" ["symbol"] (client_aggTrades opts (DObj l) ag st)
        /\ refuses "candles" ["symbol"; "interval"]
             (client_candles opts (DObj l) ag st)
        /\ refuses "futuresChangePositionMode" ["dualSidePosition"]
             (futuresChangePositionMode opts (DObj l) ag st)
        /\ refuses "futuresAccountTransfer" ["asset"; "amount"; "type"]
             (futuresAccountTransfer opts (DObj l) ag st)).
Proof.
  split.
  - intros payload [-> | ->]; cbv zeta; repeat split; reflexivity.
  - intros l o Hl refuses.
    assert (H : forall (name : string) (requires : list string)
                       (k : Call value) (r : string),
              (forall x, In x requires -> obj_get x Object_prototype = VUndefined) ->
              List.find (fun r => absent_or_NaN (obj_get r o)) requires = Some r ->
              (let* _ := checkParams name (DObj l) requires in k) st
              = (Thrown (ExnError (newError
                   ("Method " +:+ name +:+ " requires " +:+ r +:+ " parameter."))),
                 st)).
    { intros name requires k r Hown Hfind. unfold bind.
      rewrite (checkParams_at name l o requires st Hl).
      now rewrite (check_required_own name o requires Hown), Hfind. }
    assert (Own : forall requires : list string,
              forallb (fun x => negb (truthy (obj_get x Object_prototype))) requires
              = true ->
              forall x, In x requires -> obj_get x Object_prototype = VUndefined).
    { intros requires Hall x Hx.
      apply (proj1 (forallb_forall _ _) Hall) in Hx.
      apply negb_true_iff in Hx.
      destruct (obj_has x Object_prototype) eqn:E;
        [|now apply obj_has_false_get].
      apply obj_has_In in E. cbn in E.
      repeat (destruct E as [<-|E]; [discriminate Hx|]). destruct E. }
    unfold refuses. repeat split; intros r Hfind;
      (apply H; [apply Own; reflexivity | exact Hfind]).
Qed.

Local Abbreviation ping := (ping JSON_parse network).
Local Abbreviation time := (time JSON_parse network).

(** X19.  The ping and the time operations make one public [GET]
    request without a query string.  Ping fulfils with [true] for any
    response the Result Unwrapper accepts, whatever it holds; time
    fulfils with the [serverTime] of the response, which is [undefined]
    when the response has none, and rejects with a [TypeError] when the
    response is [null].  A failure of the request is the failure of the
    operation. *)
Theorem ping_and_time (opts : options) (ag : Agent) (st : state) :
  let req path :=
    mkRequest (base opts +:+ "/" +:+ API_PATH_BASE +:+ path +:+ "")
      "GET" true [] ag in
  let reply path := network (trace st ++ [EvRequest (req path)]) (req path) in
  let after path :=
    mkState (heap st)
      (trace st ++ [EvRequest (req path); EvResponse (req path) (reply path)]) in
  ping opts ag st
  = (and_then (fun _ => Some (VBool true)) (settled (reply "/v1/ping")),
     after "/v1/ping")
  /\ time opts ag st
     = (and_then (fun r => get_prop r "serverTime") (settled (reply "/v1/time")),
        after "/v1/time")
  /\ (forall r : obj,
        and_then (fun r => get_prop r "serverTime") (Fulfilled (VObj r))
        = Fulfilled (obj_get "serverTime" r))
  /\ and_then (fun r => get_prop r "serverTime") (Fulfilled VNull)
     = Rejected ExnTypeError
  /\ (forall e : exn,
        and_then (fun _ => Some (VBool true)) (Rejected e) = Rejected e
        /\ and_then (fun r => get_prop r "serverTime") (Rejected e) = Rejected e).
Proof.
  intros req reply after. split; [|split; [|split; [|split]]]; try reflexivity.
  - unfold ping, pubCall. rewrite then_public.
    cbn [data payload_in]. unfold public_request.
    cbn [data path method headers agent default from_option id makeQueryString].
    fold (req "/v1/ping"). fold (reply "/v1/ping"). fold (after "/v1/ping").
    now destruct (settled (reply "/v1/ping")).
  - unfold time, pubCall.
    change serverTime with (fun r => returns (get_prop r "serverTime")).
    rewrite then_returns, publicCall_run. reflexivity.
  - now intros e.
Qed.

Local Abbreviation withdraw := (withdraw JSON_parse network Date_now).
Local Abbreviation tradeFee := (tradeFee JSON_parse network Date_now).


(** *** A server time that is missing *)


End Operations.
(** * Worked examples, witnesses and counterexamples *)

(** [exact] up to evaluation by the virtual machine, for statements whose
    two sides meet only after a digest is computed. *)
Ltac exact_vm t := match goal with |- ?G => exact (t <: G) end.

(** ** The Query Encoder *)

Example makeQueryString_drops_zero :
  makeQueryString (Some (obj_literal [("symbol", VStr "BTCUSDT"); ("limit", VNum 0)]))
  = "?symbol=BTCUSDT".
Proof. reflexivity. Qed.

Example makeQueryString_escapes :
  makeQueryString (Some (obj_literal [("a b", VStr "x&y=z"); ("ok", VBool true)]))
  = "?a%20b=x%26y%3Dz&ok=true".
Proof. reflexivity. Qed.

(** Numbers are rendered as they print: a fraction with its point, a
    large number with its exponent, whose sign is escaped. *)
Example makeQueryString_numbers :
  makeQueryString
    (Some (obj_literal [("price", VDec 4035 (-2)); ("quantity", VDec 1 21);
                        ("stopPrice", VDec 5 (-7)); ("limit", VDec 0 (-1));
                        ("recvWindow", VNum 5000)]))
  = "?price=40.35&quantity=1e%2B21&stopPrice=5e-7&recvWindow=5000".
Proof. vm_compute. reflexivity. Qed.

(** [Number::toString] on doubles: the shortest digits that denote the
    number, written out up to 21 digits and with an exponent beyond. *)
Example Number_to_string_examples :
  map to_string
    [VNum 0; VNum (-7); VNum 1600000000000; VNum 9007199254740993;
     VNum 123456789012345680000; VNum 1000000000000000000000;
     VDec 1 (-1); VDec 3 (-1); VDec 15 (-1); VDec 100 (-2); VDec 1 (-6);
     VDec 1 (-7); VDec 123456 (-11); VDec (-25) (-2); VDec 1 400; VDec (-1) 400;
     VDec 5 (-324); VDec 1 (-400)]
  = ["0"; "-7"; "1600000000000"; "9007199254740992";
     "123456789012345680000"; "1e+21";
     "0.1"; "0.3"; "1.5"; "1"; "0.000001";
     "1e-7"; "0.00000123456"; "-0.25"; "Infinity"; "-Infinity";
     "5e-324"; "0"].
Proof. vm_compute. reflexivity. Qed.

(** The Query Encoder throws on a value that cannot be converted to a
    string and on a lone surrogate, in a key or in a value; a falsy value
    is left out before its key is looked at. *)
Example makeQueryString_completion_throws :
  let lone := String (ascii_of_N 237) (String (ascii_of_N 160) (String (ascii_of_N 128) "")) in
  map makeQueryString_completion
    [Some (obj_literal [("symbol", VStr "BTCUSDT");
                        ("filter", VObj [("toString", VNum 1)])]);
     Some (obj_literal [("filter", VArr [VNum 1; VObj [("toString", VNull)]])]);
     Some (obj_literal [("filter", VObj [("valueOf", VNum 1)]);
                        ("ids", VArr [VNum 1; VNull; VArr [VNum 2; VNum 3]])]);
     Some (obj_literal [("symbol", VStr lone)]);
     Some (obj_literal [(lone, VStr "BTCUSDT")]);
     Some (obj_literal [(lone, VNum 0); ("symbol", VStr "BTCUSDT")])]
  = [inl ExnTypeError; inl ExnTypeError;
     inr "?filter=%5Bobject%20Object%5D&ids=1%2C%2C2%2C3";
     inl ExnURIError; inl ExnURIError; inr "?symbol=BTCUSDT"].
Proof. vm_compute. reflexivity. Qed.

Lemma makeQueryString_entries_witness :
  makeQueryString_completion
    (Some (obj_literal [("symbol", VStr "BTCUSDT"); ("limit", VNum 0);
                        ("price", VDec 4035 (-2)); ("side", VStr "BUY")]))
  = inr "?symbol=BTCUSDT&price=40.35&side=BUY"
  /\ obj_literal [("symbol", VStr "BTCUSDT"); ("limit", VNum 0);
                  ("price", VDec 4035 (-2)); ("side", VStr "BUY")]
     = [("symbol", VStr "BTCUSDT"); ("limit", VNum 0);
        ("price", VDec 4035 (-2)); ("side", VStr "BUY")].
Proof.
  pose proof (makeQueryString_entries
                [("symbol", VStr "BTCUSDT"); ("limit", VNum 0);
                 ("price", VDec 4035 (-2)); ("side", VStr "BUY")] eq_refl)
    as (Hrender & _ & _ & Horder & _).
  split; [exact_vm Hrender | exact (Horder eq_refl eq_refl)].
Defined.

(** C4 as stated fails: the empty mapping is rendered as a lone question
    mark, not as the empty string, and array-index names come first, in
    numeric order, whatever the order of insertion. *)
Lemma makeQueryString_empty_mapping :
  makeQueryString_completion (Some (obj_literal [])) = inr "?"
  /\ makeQueryString_completion (Some (obj_literal [])) <> inr ""
  /\ makeQueryString_completion
       (Some (obj_literal [("b", VNum 1); ("10", VNum 2); ("9", VNum 3)]))
     = inr "?9=3&10=2&b=1".
Proof. repeat split. discriminate. Qed.

(** ** The Parameter Validator *)

Lemma checkParams_first_missing_witness :
  checkParams "order" (DObj 0%nat) ["symbol"; "side"; "quantity"]
    (store_of [("symbol", VStr "BTCUSDT"); ("side", VStr "BUY"); ("quantity", VNum 0)])
  = (Fulfilled true,
     store_of [("symbol", VStr "BTCUSDT"); ("side", VStr "BUY"); ("quantity", VNum 0)]).
Proof.
  exact (checkParams_first_missing "order" 0%nat
           [("symbol", VStr "BTCUSDT"); ("side", VStr "BUY"); ("quantity", VNum 0)]
           ["symbol"; "side"; "quantity"]
           (store_of [("symbol", VStr "BTCUSDT"); ("side", VStr "BUY");
                      ("quantity", VNum 0)])
           eq_refl).
Defined.

Example checkParams_names_first_missing_field :
  fst (checkParams "order" (DObj 0%nat) ["symbol"; "side"; "quantity"]
         (store_of [("symbol", VStr "BTCUSDT"); ("quantity", VNaN)]))
  = Thrown (ExnError (newError "Method order requires side parameter.")).
Proof. reflexivity. Qed.

(** An inherited property counts as present. *)
Example checkParams_inherited_field :
  fst (checkParams "order" (DObj 0%nat) ["toString"] (store_of [])) = Fulfilled true
  /\ fst (checkParams "order" (DObj 0%nat) ["symbol"] (store_of []))
     = Thrown (ExnError (newError "Method order requires symbol parameter.")).
Proof. split; reflexivity. Qed.

(** C5 as stated fails: the empty string, [null] and [false] are taken as
    present. *)
Lemma checkParams_accepts_empty_null_false :
  checkParams "order" (DObj 0%nat) ["symbol"; "side"; "quantity"]
    (store_of [("symbol", VStr ""); ("side", VNull); ("quantity", VBool false)])
  = (Fulfilled true,
     store_of [("symbol", VStr ""); ("side", VNull); ("quantity", VBool false)]).
Proof. reflexivity. Qed.

(** ** The Result Unwrapper *)

Example JSON_parse_examples :
  map JSON.parse
    ["null"; " [1, " +:+ JSON.quoted "a" +:+ ", {" +:+ JSON.quoted "b" +:+ ": [true]}] ";
     "<html>502 Bad Gateway</html>"; example_time_body; api_error_body; "{"; "01"; "[1,]";
     "[40.35, -0.5e-3, 1E21, 2e+0, 1., .5, 1e]";
     "[40.35, -0.5e-3, 1E21, 2e+0, -0]";
     JSON.quoted "caf\u00e9 \ud83d\ude00 \n"; JSON.quoted "\ud83d";
     JSON.quoted "\u12"]
  = [Some VNull;
     Some (VArr [VNum 1; VStr "a"; VObj [("b", VArr [VBool true])]]);
     None;
     Some (VObj [("serverTime", VNum 1600000000000)]);
     Some (VObj [("code", VNum (-1121)); ("msg", VStr "Invalid symbol.")]);
     None; None; None;
     None;
     Some (VArr [VDec 4035 (-2); VDec (-5) (-4); VDec 1 21; VDec 2 0; VNum 0]);
     Some (VStr ("caf"
                 +:+ String (ascii_of_N 195) (String (ascii_of_N 169) "")
                 +:+ " "
                 +:+ String (ascii_of_N 240) (String (ascii_of_N 159)
                       (String (ascii_of_N 152) (String (ascii_of_N 128) "")))
                 +:+ " " +:+ String (ascii_of_N 10) ""));
     Some (VStr (String (ascii_of_N 237) (String (ascii_of_N 160)
                   (String (ascii_of_N 189) ""))));
     None].
Proof. vm_compute. reflexivity. Qed.

Lemma sendResult_failure_classified_witness :
  exists e : Error,
    sendResult JSON.parse (ret (mkResponse 400 "Bad Request" api_error_body))
      (store_of [])
    = (Rejected (ExnError e), store_of [])
    /\ xorb (is_api_error (ExnError e)) (is_transport_error (ExnError e)) = true
    /\ e = mkError "Invalid symbol." (Some (VNum (-1121))) None None.
Proof.
  destruct (sendResult_failure_classified JSON.parse
              (ret (mkResponse 400 "Bad Request" api_error_body))
              (mkResponse 400 "Bad Request" api_error_body)
              (store_of []) (store_of []) eq_refl eq_refl
              (JSON_parse_function_free _))
    as (e & Hrun & Hone & Hkind).
  exists e. split; [exact Hrun|]. split; [exact Hone|].
  vm_compute in Hkind. destruct Hkind as (c & Hc & He & _).
  injection Hc as <-. exact He.
Defined.

Example sendResult_api_error :
  fst (sendResult JSON.parse
         (ret (mkResponse 400 "Bad Request" api_error_body)) (store_of []))
  = Rejected (ExnError (mkError "Invalid symbol." (Some (VNum (-1121))) None None)).
Proof. reflexivity. Qed.

Example sendResult_transport_error :
  fst (sendResult JSON.parse
         (ret (mkResponse 502 "Bad Gateway" "<html>502 Bad Gateway</html>"))
         (store_of []))
  = Rejected (ExnError
      (mkError "502 Bad Gateway <html>502 Bad Gateway</html>" None
         (Some (mkResponse 502 "Bad Gateway" "<html>502 Bad Gateway</html>"))
         (Some "<html>502 Bad Gateway</html>"))).
Proof. reflexivity. Qed.

(** C3 as stated fails: a [msg] that is present and empty is not the
    message of the API Error, the status line is. *)
Lemma sendResult_empty_msg :
  JSON.parse empty_msg_body = Some (VObj [("code", VNum (-1000)); ("msg", VStr "")])
  /\ fst (sendResult JSON.parse
            (ret (mkResponse 400 "Bad Request" empty_msg_body)) (store_of []))
     = Rejected (ExnError (mkError "400 Bad Request" (Some (VNum (-1000))) None None)).
Proof. split; reflexivity. Qed.

(** The body [null] parses, and reading [msg] off it throws inside the
    [try] block: the error is the one of a body that does not parse. *)
Example sendResult_null_body :
  JSON.parse "null" = Some VNull
  /\ fst (sendResult JSON.parse
            (ret (mkResponse 500 "Internal Server Error" "null")) (store_of []))
     = Rejected (ExnError
         (mkError "500 Internal Server Error null" None
            (Some (mkResponse 500 "Internal Server Error" "null"))
            (Some "null"))).
Proof. split; reflexivity. Qed.

(** A [msg] that is an object with a [toString] of its own cannot be
    converted to a string: [new Error] throws inside the [try] block, and
    the error is again the one of a body that does not parse. *)
Example sendResult_unconvertible_msg :
  JSON.parse unconvertible_msg_body
  = Some (VObj [("code", VNum (-1000)); ("msg", VObj [("toString", VNum 1)])])
  /\ fst (sendResult JSON.parse
            (ret (mkResponse 400 "Bad Request" unconvertible_msg_body))
            (store_of []))
     = Rejected (ExnError
         (mkError ("400 Bad Request " +:+ unconvertible_msg_body) None
            (Some (mkResponse 400 "Bad Request" unconvertible_msg_body))
            (Some unconvertible_msg_body))).
Proof. split; reflexivity. Qed.

(** ** The digest *)

Example sha256_abc :
  SHA256.hex (SHA256.sha256 (SHA256.bytes_of_string "abc"))
  = "ba7816bf8f01cfea414140de5dae2223b00361a396177a9cb410ff61f20015ad".
Proof. vm_compute. reflexivity. Qed.

(** The signature example of the Binance API documentation. *)
Example hmac_sha256_hex_documented :
  hmac_sha256_hex
    "NhqPtmdSJYdKjVHjA7PZj4Mge3R5YNiP1e3UZjInClVN65XAbvqqM6A7H5fATj0j"
    "symbol=LTCBTC&side=BUY&type=LIMIT&timeInForce=GTC&quantity=1&price=0.1&recvWindow=5000&timestamp=1499827319559"
  = "c8db56825ae71d6d79447849e617115f4a920fa2acdcab2b053c4b2838bd6b71".
Proof. vm_compute. reflexivity. Qed.

(** A key longer than the block is hashed first. *)
Example hmac_sha256_hex_long_key :
  hmac_sha256_hex
    "kkkkkkkkkkkkkkkkkkkkkkkkkkkkkkkkkkkkkkkkkkkkkkkkkkkkkkkkkkkkkkkkkkkkkk"
    "timestamp=1"
  = "97d81650f704abc0b41f34b29aecdc5411e20eed45e897382480d213a3f506be".
Proof. vm_compute. reflexivity. Qed.

(** ** The Signed Caller *)


(** The documented signature, through the signed call: the payload of the
    documentation and its timestamp give the documented digest. *)
Example sign_documented :
  fst (sign "NhqPtmdSJYdKjVHjA7PZj4Mge3R5YNiP1e3UZjInClVN65XAbvqqM6A7H5fATj0j"
         (Some [("symbol", VStr "LTCBTC"); ("side", VStr "BUY"); ("type", VStr "LIMIT");
                ("timeInForce", VStr "GTC"); ("quantity", VNum 1); ("price", VStr "0.1");
                ("recvWindow", VNum 5000)])
         (VNum 1499827319559) (store_of []))
  = Fulfilled "c8db56825ae71d6d79447849e617115f4a920fa2acdcab2b053c4b2838bd6b71".
Proof. vm_compute. reflexivity. Qed.


Lemma credentials_checked_first_witness :
  keyCall None (publicCall JSON.parse example_network BASE API_PATH_BASE)
    example_args (store_of clock_payload)
  = (Thrown (ExnError (newError "You need to pass an API key to make this call.")),
     store_of clock_payload)
  /\ fst (privateCall JSON.parse example_network example_clock
            (Some "key") None BASE API_PATH_BASE None
            (publicCall JSON.parse example_network BASE API_PATH_BASE)
            example_args (store_of clock_payload))
     = Thrown (ExnError (newError
         "You need to pass an API key and secret to make authenticated calls."))
  /\ trace (snd (privateCall JSON.parse example_network example_clock
                   (Some "key") None BASE API_PATH_BASE None
                   (publicCall JSON.parse example_network BASE API_PATH_BASE)
                   example_args (store_of clock_payload)))
     = [].
Proof.
  pose proof (credentials_checked_first JSON.parse example_network example_clock
                None None BASE API_PATH_BASE None
                (publicCall JSON.parse example_network BASE API_PATH_BASE)
                example_args (store_of clock_payload)) as [Hkey _].
  pose proof (credentials_checked_first JSON.parse example_network example_clock
                (Some "key") None BASE API_PATH_BASE None
                (publicCall JSON.parse example_network BASE API_PATH_BASE)
                example_args (store_of clock_payload)) as (_ & _ & Hpriv & _).
  destruct (Hpriv eq_refl) as (Hthrown & Htrace & _).
  exact (conj (Hkey eq_refl) (conj Hthrown Htrace)).
Defined.


(** The whole run on the server-time path: the time request, its reply,
    the signature over the server's time, the signed request. *)
Example privateCall_server_time_trace :
  trace (snd (privateCall JSON.parse example_network example_clock
                (Some "key") (Some "secret") BASE API_PATH_BASE None
                (publicCall JSON.parse example_network BASE API_PATH_BASE)
                example_args (store_of server_time_payload)))
  = [EvRequest (mkRequest "https://api.binance.com/api/v1/time" "GET" true [] None);
     EvResponse (mkRequest "https://api.binance.com/api/v1/time" "GET" true [] None)
       (Replied (mkResponse 200 "OK" example_time_body));
     EvHmac "secret" "symbol=BTCUSDT&timestamp=1600000000000"
       "4e87da53a90813d8abe987c7aba858c34d02bcddb3c2ee130ef867e131c899b3";
     EvRequest
       (mkRequest
          "https://api.binance.com/api/v3/order?symbol=BTCUSDT&timestamp=1600000000000&signature=4e87da53a90813d8abe987c7aba858c34d02bcddb3c2ee130ef867e131c899b3"
          "GET" true [("X-MBX-APIKEY", "key")] None);
     EvResponse
       (mkRequest
          "https://api.binance.com/api/v3/order?symbol=BTCUSDT&timestamp=1600000000000&signature=4e87da53a90813d8abe987c7aba858c34d02bcddb3c2ee130ef867e131c899b3"
          "GET" true [("X-MBX-APIKEY", "key")] None)
       (Replied (mkResponse 200 "OK" "{}"))].
Proof. vm_compute. reflexivity. Qed.

(** The whole run on the clock path: one request. *)
Example privateCall_clock_trace :
  trace (snd (privateCall JSON.parse example_network example_clock
                (Some "key") (Some "secret") BASE API_PATH_BASE None
                (publicCall JSON.parse example_network BASE API_PATH_BASE)
                example_args (store_of clock_payload)))
  = [EvGetTime (VNum 1500000000000);
     EvHmac "secret" "symbol=BTCUSDT&timestamp=1500000000000"
       "a643fa792b443754db44182f07e9d25f420f13279a35d28f5792285589d7100f";
     EvRequest
       (mkRequest
          "https://api.binance.com/api/v3/order?symbol=BTCUSDT&timestamp=1500000000000&signature=a643fa792b443754db44182f07e9d25f420f13279a35d28f5792285589d7100f"
          "GET" true [("X-MBX-APIKEY", "key")] None);
     EvResponse
       (mkRequest
          "https://api.binance.com/api/v3/order?symbol=BTCUSDT&timestamp=1500000000000&signature=a643fa792b443754db44182f07e9d25f420f13279a35d28f5792285589d7100f"
          "GET" true [("X-MBX-APIKEY", "key")] None)
       (Replied (mkResponse 200 "OK" "{}"))].
Proof. vm_compute. reflexivity. Qed.


(** A flag that is present and falsy is deleted as well. *)
Example useServerTime_false_deleted :
  heap (snd (privateCall JSON.parse example_network example_clock
               (Some "key") (Some "secret") BASE API_PATH_BASE None
               (publicCall JSON.parse example_network BASE API_PATH_BASE)
               example_args
               (store_of [("useServerTime", VBool false); ("symbol", VStr "BTCUSDT")])))
       !! 0%nat
  = Some clock_payload.
Proof. vm_compute. reflexivity. Qed.


(** ** The data-stream operations *)


Example keepDataStream_trace :
  trace (snd (keepDataStream JSON.parse example_network example_clock
                example_options (DObj 0%nat) None
                (store_of [("listenKey", VStr "abc")])))
  = [EvGetTime (VNum 1500000000000);
     EvHmac "secret" "listenKey=abc&timestamp=1500000000000"
       "3da59f6112df9e7e4b5f9f7b86bb57eaf4b27ebeb89abbdcc92fd49050a38ae6";
     EvRequest
       (mkRequest
          "https://api.binance.com/api/v1/userDataStream?listenKey=abc&timestamp=1500000000000&signature=3da59f6112df9e7e4b5f9f7b86bb57eaf4b27ebeb89abbdcc92fd49050a38ae6"
          "PUT" true [("X-MBX-APIKEY", "key")] None);
     EvResponse
       (mkRequest
          "https://api.binance.com/api/v1/userDataStream?listenKey=abc&timestamp=1500000000000&signature=3da59f6112df9e7e4b5f9f7b86bb57eaf4b27ebeb89abbdcc92fd49050a38ae6"
          "PUT" true [("X-MBX-APIKEY", "key")] None)
       (Replied (mkResponse 200 "OK" "{}"))].
Proof. vm_compute. reflexivity. Qed.

Example futuresCloseUserDataStream_url :
  match trace (snd (futuresCloseUserDataStream JSON.parse example_network example_clock
                      example_options (DObj 0%nat) None
                      (store_of [("listenKey", VStr "abc")]))) with
  | [_; _; EvRequest r; _] => (url r, req_method r)
  | _ => ("", "")
  end
  = ("https://fapi.binance.com/fapi/v1/listenKey?listenKey=abc&timestamp=1500000000000&signature=3da59f6112df9e7e4b5f9f7b86bb57eaf4b27ebeb89abbdcc92fd49050a38ae6",
     "DELETE").
Proof. vm_compute. reflexivity. Qed.


(** With [noExtra] itself the payload goes out as it is. *)
Example noExtra_suppresses :
  match trace (snd (privCall JSON.parse example_network example_clock example_options
                      (mkArgs "/v1/userDataStream" (DObj 0%nat) (Some "PUT") None
                         (VBool false) (VBool true) VUndefined None)
                      (store_of [("listenKey", VStr "abc")]))) with
  | [_; _; EvRequest r; _] => url r
  | _ => ""
  end
  = "https://api.binance.com/api/v1/userDataStream?listenKey=abc".
Proof. vm_compute. reflexivity. Qed.

(** ** The order wrappers *)

(** The spot wrapper on the same payload: its default type is put on the
    copy that is sent, validation passes and the order goes out with
    [type=LIMIT] and [timeInForce=GTC]. *)
Example order_default_type_reaches_request :
  match trace (snd (client_order JSON.parse example_network example_clock
                      example_options (DObj 0%nat) None (store_of order_payload))) with
  | [_; _; EvRequest r; _] => (url r, req_method r)
  | _ => ("", "")
  end
  = ("https://api.binance.com/api/v3/order?type=LIMIT&timeInForce=GTC&symbol=BTCUSDT&side=BUY&quantity=1&timestamp=1500000000000&signature=8096582a27d77970f287e2be574112a5d1dca838fe8d2f263d987ba6779e856e",
     "POST").
Proof. vm_compute. reflexivity. Qed.

(** The futures wrapper with the type given goes on to [price]. *)
Example futuresOrder_limit_requires_price :
  fst (client_futuresOrder JSON.parse example_network example_clock example_options
         (DObj 0%nat) None (store_of (order_payload ++ [("type", VStr "LIMIT")])))
  = Thrown (ExnError (newError "Method futuresOrder requires price parameter.")).
Proof. vm_compute. reflexivity. Qed.

(** ** Reading a query string back *)

Lemma makeQueryString_read_back_witness :
  parse_query
    (substr1 (makeQueryString
                (Some [("a b", VStr "x&y=z"); ("limit", VNum 0); ("ok", VBool true)])))
  = Some [("a b", "x&y=z"); ("ok", "true")].
Proof.
  exact (makeQueryString_read_back
           [("a b", VStr "x&y=z"); ("limit", VNum 0); ("ok", VBool true)] eq_refl).
Defined.

Example parse_query_rejects_bad_escape :
  parse_query "a=%4" = None /\ parse_query "a" = None
  /\ parse_query "a=1&b=%41%2f" = Some [("a", "1"); ("b", "A/")].
Proof. repeat split. Qed.

Lemma required_falsy_field_is_dropped_witness :
  check_required "trades" [("symbol", VStr "BTCUSDT"); ("limit", VNum 0)] ["limit"]
  = None
  /\ makeQueryString (Some [("symbol", VStr "BTCUSDT"); ("limit", VNum 0)])
     = "?symbol=BTCUSDT".
Proof.
  split; [|reflexivity].
  exact (proj1 (required_falsy_field_is_dropped "trades" "limit"
                  [("symbol", VStr "BTCUSDT"); ("limit", VNum 0)]
                  eq_refl eq_refl eq_refl eq_refl)).
Defined.

(** ** Public calls *)

Lemma publicCall_one_request_witness :
  let req :=
    mkRequest "https://api.binance.com/api/v1/trades?symbol=BTCUSDT"
      "GET" true [] None in
  publicCall_completion JSON.parse example_network BASE API_PATH_BASE
    (mkArgs "/v1/trades" (DObj 0%nat) None None VUndefined VUndefined VUndefined None)
    (store_of clock_payload)
  = (Fulfilled (VObj []),
     mkState (heap (store_of clock_payload))
       [EvRequest req; EvResponse req (Replied (mkResponse 200 "OK" "{}"))])
  /\ publicCall_completion JSON.parse example_network BASE API_PATH_BASE
       (mkArgs "/v1/trades" (DObj 0%nat) None None VUndefined VUndefined VUndefined
          None)
       (store_of [("symbol", VObj [("toString", VStr "BTCUSDT")])])
     = (Thrown ExnTypeError,
        store_of [("symbol", VObj [("toString", VStr "BTCUSDT")])]).
Proof.
  pose proof (publicCall_one_request JSON.parse example_network BASE API_PATH_BASE
                (mkArgs "/v1/trades" (DObj 0%nat) None None
                   VUndefined VUndefined VUndefined None)
                (store_of clock_payload)) as (_ & Hsame & Hrun & _).
  pose proof (publicCall_one_request JSON.parse example_network BASE API_PATH_BASE
                (mkArgs "/v1/trades" (DObj 0%nat) None None
                   VUndefined VUndefined VUndefined None)
                (store_of [("symbol", VObj [("toString", VStr "BTCUSDT")])]))
    as (Hthrown & _).
  split.
  - rewrite (proj2 (Hsame "?symbol=BTCUSDT" eq_refl)). exact_vm Hrun.
  - exact (Hthrown ExnTypeError eq_refl).
Defined.


Lemma operations_validate_first_witness :
  client_candles JSON.parse example_network (fun _ _ => []) example_options
    (DObj 0%nat) None (store_of clock_payload)
  = (Thrown (ExnError (newError "Method candles requires interval parameter.")),
     store_of clock_payload)
  /\ trades JSON.parse example_network example_options DNull None
       (store_of clock_payload)
     = (Thrown (ExnError (newError "You need to pass a payload object.")),
        store_of clock_payload).
Proof.
  pose proof (operations_validate_first JSON.parse example_network example_clock
                (fun _ _ => []) example_options None (store_of clock_payload))
    as (Hnone & Hobj).
  split.
  - exact (proj1 (proj2 (proj2 (proj2 (proj2
             (Hobj 0%nat clock_payload eq_refl)))))
             "interval" eq_refl).
  - exact (proj1 (proj2 (Hnone DNull (or_intror eq_refl)))).
Defined.

Example time_of_example :
  fst (time JSON.parse example_network example_options None (store_of []))
  = Fulfilled (VNum 1600000000000)
  /\ fst (ping JSON.parse example_network example_options None (store_of []))
     = Fulfilled (VBool true).
Proof. split; vm_compute; reflexivity. Qed.

(** ** Signed calls *)

Lemma privateCall_changes_payload_only_witness :
  let st := mkState (<[1%nat := clock_payload]> {[ 0%nat := server_time_payload ]}) [] in
  let final :=
    snd (privateCall JSON.parse example_network example_clock
           (Some "key") (Some "secret") BASE API_PATH_BASE None
           (publicCall JSON.parse example_network BASE API_PATH_BASE)
           example_args st) in
  heap final !! 1%nat = Some clock_payload
  /\ (heap final !! 0%nat = Some server_time_payload
      \/ heap final !! 0%nat = Some (obj_delete "useServerTime" server_time_payload)).
Proof.
  intros st final.
  pose proof (privateCall_changes_payload_only JSON.parse example_network
                example_clock (Some "key") (Some "secret") BASE API_PATH_BASE None
                example_args st) as (Hother & Hpayload & _).
  split.
  - apply (Hother 1%nat clock_payload eq_refl). discriminate.
  - exact (Hpayload 0%nat server_time_payload eq_refl eq_refl).
Defined.




Example signature_of_documented_request :
  render_pair
    ("signature",
     VStr (hmac_sha256_hex
             "NhqPtmdSJYdKjVHjA7PZj4Mge3R5YNiP1e3UZjInClVN65XAbvqqM6A7H5fATj0j"
             ("symbol=LTCBTC&side=BUY&type=LIMIT&timeInForce=GTC&quantity=1"
              +:+ "&price=0.1&recvWindow=5000&timestamp=1499827319559")))
  = "signature=c8db56825ae71d6d79447849e617115f4a920fa2acdcab2b053c4b2838bd6b71".
Proof. vm_compute. reflexivity. Qed.

(** ** The order wrappers *)

Lemma order_sends_defaulted_copy_witness :
  exists (l2 : loc) (sent : obj) (st2 : state),
    order (fun _ => ret VNull) (DObj 0%nat) "/v3/order" None (store_of order_payload)
    = (Fulfilled VNull, st2)
    /\ heap st2 !! 0%nat = Some order_payload
    /\ heap st2 !! l2 = Some sent
    /\ obj_get "type" sent = VStr "LIMIT"
    /\ obj_get "timeInForce" sent = VStr "GTC"
    /\ obj_get "symbol" sent = VStr "BTCUSDT".
Proof.
  destruct (order_sends_defaulted_copy (fun _ => ret VNull) 0%nat order_payload
              "/v3/order" None (store_of order_payload)
              eq_refl eq_refl eq_refl eq_refl eq_refl)
    as (l2 & sent & st2 & Hrun & _ & Hl & Hl2 & _ & _ & Hty & Htif & Hk).
  exists l2, sent, st2.
  split; [exact Hrun|]. split; [exact Hl|]. split; [exact Hl2|].
  split; [exact Hty|]. split; [exact Htif|].
  rewrite Hk by discriminate. reflexivity.
Defined.

Example order_market_keeps_type :
  heap (snd (order (fun _ => ret VNull) (DObj 0%nat) "/v3/order" None
               (store_of (order_payload ++ [("type", VStr "MARKET")])))) !! 1%nat
  = Some (("type", VStr "MARKET") :: order_payload).
Proof. reflexivity. Qed.

Lemma client_order_keeps_payload_witness :
  let payload := order_payload ++ [("useServerTime", VBool true)] in
  heap (snd (client_order JSON.parse example_network example_clock example_options
               (DObj 0%nat) None (store_of payload))) !! 0%nat
  = Some payload.
Proof.
  exact (client_order_keeps_payload JSON.parse example_network example_clock
           example_options 0%nat
           (order_payload ++ [("useServerTime", VBool true)]) None
           (store_of (order_payload ++ [("useServerTime", VBool true)]))
           eq_refl eq_refl).
Defined.

Lemma order_validates_first_witness :
  fst (order (fun _ => ret VNull) (DObj 0%nat) "/v3/order" None
         (store_of [("symbol", VStr "BTCUSDT"); ("quantity", VNum 1)]))
  = Thrown (ExnError (newError "Method order requires side parameter."))
  /\ order (fun _ => ret VNull) DNull "/v3/order" None (store_of [])
     = (Thrown ExnTypeError, store_of []).
Proof.
  pose proof (order_validates_first (fun _ => ret VNull) "/v3/order" None
                (store_of [("symbol", VStr "BTCUSDT"); ("quantity", VNum 1)]))
    as (Hobj & _).
  split.
  - exact (proj1 (Hobj 0%nat [("symbol", VStr "BTCUSDT"); ("quantity", VNum 1)]
                    "side" eq_refl eq_refl eq_refl)).
  - exact (proj2 (proj2 (proj2
             (order_validates_first (fun _ => ret VNull) "/v3/order" None
                (store_of []))))).
Defined.

Lemma futuresOrder_without_type_witness :
  fst (futuresOrder (fun _ => ret VNull) (DObj 0%nat) "/v1/order" None
         (store_of (order_payload ++ [("price", VNum 9000)])))
  = Thrown (ExnError (newError "Method futuresOrder requires type parameter."))
  /\ heap (snd (futuresOrder (fun _ => ret VNull) (DObj 0%nat) "/v1/order" None
                  (store_of (order_payload ++ [("price", VNum 9000)])))) !! 0%nat
     = Some (order_payload ++ [("price", VNum 9000); ("type", VStr "LIMIT")]).
Proof.
  pose proof (futuresOrder_without_type (fun _ => ret VNull) 0%nat
                (order_payload ++ [("price", VNum 9000)]) "/v1/order" None
                (store_of (order_payload ++ [("price", VNum 9000)]))
                eq_refl eq_refl eq_refl eq_refl eq_refl) as (Hthrown & _ & Hheap).
  exact (conj Hthrown Hheap).
Defined.

Lemma futuresOrder_with_type_witness :
  let limit :=
    order_payload ++ [("type", VStr "LIMIT"); ("price", VNum 9000)] in
  let market :=
    order_payload ++ [("type", VStr "MARKET"); ("timeInForce", VStr "GTC")] in
  (exists (l1 : loc) (st1 : state),
     futuresOrder (fun _ => ret VNull) (DObj 0%nat) "/v1/order" None (store_of limit)
     = (Fulfilled VNull, st1)
     /\ heap st1 !! 0%nat = Some limit
     /\ heap st1 !! l1 = Some (("timeInForce", VStr "GTC") :: limit))
  /\ futuresOrder (fun _ => ret VNull) (DObj 0%nat) "/v1/order" None (store_of market)
     = (Thrown (ExnError (newError
          "timeInForce parameter cannot be send with type MARKET")),
        store_of market).
Proof.
  intros limit market. split.
  - destruct (futuresOrder_with_type (fun _ => ret VNull) 0%nat limit "/v1/order"
                None (store_of limit) eq_refl eq_refl eq_refl)
      as (_ & _ & _ & Hcopy & _).
    destruct (Hcopy eq_refl eq_refl eq_refl) as (l1 & st1 & Hrun & _ & Hl & Hl1 & _).
    exists l1, st1. split; [exact Hrun|]. split; [exact Hl | exact Hl1].
  - exact (proj1 (futuresOrder_with_type (fun _ => ret VNull) 0%nat market
                    "/v1/order" None (store_of market) eq_refl eq_refl eq_refl)
             eq_refl).
Defined.

Lemma futuresOrder_payload_aliasing_witness :
  let market :=
    order_payload ++ [("type", VStr "MARKET"); ("useServerTime", VBool true)] in
  let limit :=
    order_payload ++ [("type", VStr "LIMIT"); ("price", VNum 9000);
                      ("useServerTime", VBool true)] in
  heap (snd (client_futuresOrder JSON.parse example_network example_clock
               example_options (DObj 0%nat) None (store_of market)))
  = <[0%nat := order_payload ++ [("type", VStr "MARKET")]]> (heap (store_of market))
  /\ heap (snd (client_futuresOrder JSON.parse example_network example_clock
                  example_options (DObj 0%nat) None (store_of limit))) !! 0%nat
     = Some limit.
Proof.
  intros market limit. split.
  - pose proof (proj2 (futuresOrder_payload_aliasing JSON.parse example_network
                         example_clock example_options 0%nat market None
                         (store_of market) eq_refl eq_refl eq_refl)
                  eq_refl eq_refl eq_refl eq_refl eq_refl
                  (VNum 1600000000000)
                  (mkState (heap (store_of market))
                     [EvRequest (time_request FUTURE_BASE FUTURES_API_PATH_BASE None);
                      EvResponse (time_request FUTURE_BASE FUTURES_API_PATH_BASE None)
                        (Replied (mkResponse 200 "OK" example_time_body))])
                  eq_refl) as H.
    exact H.
  - exact (proj1 (futuresOrder_payload_aliasing JSON.parse example_network
                    example_clock example_options 0%nat limit None
                    (store_of limit) eq_refl eq_refl eq_refl) eq_refl).
Defined.

Lemma futuresChangePositionMode_sends_text_witness :
  let sent := [("dualSidePosition", VStr "false")] in
  futuresChangePositionMode JSON.parse example_network example_clock
    example_options (DObj 0%nat) None (store_of [("dualSidePosition", VBool false)])
  = futuresPrivCall JSON.parse example_network example_clock example_options
      (mkArgs "/v1/positionSide/dual" (DObj 1%nat) (Some "POST") None
         VUndefined VUndefined VUndefined None)
      (mkState (<[1%nat := sent]> (heap (store_of [("dualSidePosition", VBool false)])))
         [])
  /\ makeQueryString
       (Some (obj_set "signature" (VStr "s") (obj_set "timestamp" (VNum 1) sent)))
     = "?dualSidePosition=false&timestamp=1&signature=s"
  /\ makeQueryString (Some [("dualSidePosition", VBool false)]) = "?".
Proof.
  intros sent.
  pose proof (futuresChangePositionMode_sends_text JSON.parse example_network
                example_clock example_options 0%nat
                [("dualSidePosition", VBool false)] None
                (store_of [("dualSidePosition", VBool false)]) eq_refl eq_refl)
    as (_ & Hrun & _).
  split; [exact (proj1 (Hrun eq_refl)) | split; reflexivity].
Defined.

(** ** Responses made friendlier *)


Example candle_short_of_entries :
  zip (fun _ _ => []) candleFields (VArr [VNum 1; VNum 2])
  = [("openTime", VNum 1); ("open", VNum 2); ("high", VUndefined);
     ("low", VUndefined); ("close", VUndefined); ("volume", VUndefined);
     ("closeTime", VUndefined); ("quoteAssetVolume", VUndefined);
     ("trades", VUndefined); ("buyBaseAssetVolume", VUndefined);
     ("buyQuoteAssetVolume", VUndefined)].
Proof. reflexivity. Qed.




Lemma futures_tickers_without_payload_witness :
  fst (futuresPrice JSON.parse example_market example_options DUndefined None
         (store_of []))
  = Rejected ExnTypeError
  /\ length (trace (snd (futuresPrice JSON.parse example_market example_options
                           DUndefined None (store_of [])))) = 2%nat.
Proof.
  pose proof (futures_tickers_without_payload JSON.parse example_market
                example_options DUndefined None (store_of []) (or_introl eq_refl))
    as (Hrun & _).
  split.
  - exact_vm (f_equal fst Hrun).
  - exact_vm (f_equal (fun x => length (trace (snd x))) Hrun).
Defined.


(** ** A server time that is missing *)

